(** * Project cleanup utility and structure analyzer: a shallow embedding

    The development follows [project-cleanup.cjs] (the cleanup script) and
    the structure analysis tool that shares its configuration file.  Both
    are synchronous Node.js scripts that walk a directory tree; they are
    embedded here as state-and-exception passing functions over an explicit
    model of the file system, the console and the clock.

    Conventions of the embedding:
    - a path is the list of its components ([path.join(dir, item)] appends
      a component, [path.basename] is the last one), which keeps the model
      independent of the platform separator;
    - strings are sequences of 8-bit code units read as U+0000..U+00FF;
    - time is a number of milliseconds since the epoch, as in [Date]. *)

From Stdlib Require Import ZArith QArith Qround Ascii String List Bool Lia.
From stdpp Require Import gmap strings list pretty.

Local Open Scope string_scope.
Local Open Scope list_scope.

(** ** Strings as JavaScript sees them *)

Module Js.

(** [String.prototype.toLowerCase] on one code unit of the Latin-1 range:
    A-Z and the accented capitals U+00C0..U+00DE (but not the
    multiplication sign U+00D7) move up by 32. *)
Definition lowerChar (c : ascii) : ascii :=
  let n := nat_of_ascii c in
  if ((65 <=? n) && (n <=? 90))%nat
     || ((192 <=? n) && (n <=? 222) && negb (n =? 215))%nat
  then ascii_of_nat (n + 32) else c.

Fixpoint toLowerCase (s : string) : string :=
  match s with
  | EmptyString => EmptyString
  | String c s' => String (lowerChar c) (toLowerCase s')
  end.

(** [Array.prototype.includes] on an array of strings. *)
Definition includes (xs : list string) (x : string) : bool :=
  existsb (String.eqb x) xs.

(** [String.prototype.lastIndexOf] for a single character. *)
Fixpoint lastIndexOf (c : ascii) (s : string) : option nat :=
  match s with
  | EmptyString => None
  | String a s' =>
      match lastIndexOf c s' with
      | Some i => Some (S i)
      | None => if Ascii.eqb a c then Some 0%nat else None
      end
  end.

Fixpoint dropChars (n : nat) (s : string) : string :=
  match n, s with
  | O, _ => s
  | S n', String _ s' => dropChars n' s'
  | S _, EmptyString => EmptyString
  end.

(** [String.prototype.split] on a one-character separator. *)
Fixpoint split (sep : ascii) (s : string) : list string :=
  match s with
  | EmptyString => [EmptyString]
  | String c s' =>
      if Ascii.eqb c sep then EmptyString :: split sep s'
      else match split sep s' with
           | [] => [String c EmptyString]
           | w :: ws => String c w :: ws
           end
  end.

(** [String.prototype.startsWith], [includes] and [endsWith]. *)
Fixpoint startsWith (s t : string) : bool :=
  match t, s with
  | EmptyString, _ => true
  | String b t', String a s' => Ascii.eqb a b && startsWith s' t'
  | String _ _, EmptyString => false
  end.

Fixpoint includesStr (s t : string) : bool :=
  startsWith s t ||
  match s with
  | EmptyString => false
  | String _ s' => includesStr s' t
  end.

Definition endsWith (s t : string) : bool :=
  (String.length t <=? String.length s)%nat
  && String.eqb (dropChars (String.length s - String.length t) s) t.

End Js.

(** ** Paths *)

Definition path := list string.

Module Path.

(** [path.join(dirPath, item)] for a directory entry name [item]. *)
Definition join (dirPath : path) (item : string) : path := dirPath ++ [item].

(** [path.basename]: the last component. *)
Definition basename (p : path) : string := List.last p "".

(** [path.dirname]: everything but the last component. *)
Definition dirname (p : path) : path := removelast p.

(** [path.extname] as Node computes it on the last component: the text
    from the last dot on, unless there is no dot, the only dot is the
    first character, or the component is [".."]. *)
Definition extnameOf (name : string) : string :=
  match Js.lastIndexOf "."%char name with
  | None => ""
  | Some O => ""
  | Some k => if String.eqb name ".." then "" else Js.dropChars k name
  end.

Definition extname (p : path) : string := extnameOf (basename p).

(** How a path is printed on a POSIX host. *)
Definition show (p : path) : string := String.concat "/" p.

End Path.

(** ** Regular expressions

    The essential patterns are JavaScript [RegExp] objects used through
    [test] only.  The fragment needed writes a pattern as an optional [^],
    a body built from characters, [.], grouping, alternation, [?] and [*],
    and an optional [$].  Matching is by Brzozowski derivatives. *)

Module RegExp.

Inductive regex : Type :=
| Void                                  (* matches nothing *)
| Eps                                   (* the empty string *)
| Sym (accept : ascii -> bool)          (* one code unit *)
| Seq (r1 r2 : regex)
| Alt (r1 r2 : regex)
| Star (r : regex).

Definition chr (c : ascii) : regex := Sym (Ascii.eqb c).

(** [.] matches any code unit but a line terminator. *)
Definition dot : regex :=
  Sym (fun c => negb (Ascii.eqb c "010"%char || Ascii.eqb c "013"%char)).

Definition wild : regex := Sym (fun _ => true).

Definition opt (r : regex) : regex := Alt r Eps.

Fixpoint lit (s : string) : regex :=
  match s with
  | EmptyString => Eps
  | String c EmptyString => chr c
  | String c s' => Seq (chr c) (lit s')
  end.

Fixpoint nullable (r : regex) : bool :=
  match r with
  | Void => false
  | Eps => true
  | Sym _ => false
  | Seq r1 r2 => nullable r1 && nullable r2
  | Alt r1 r2 => nullable r1 || nullable r2
  | Star _ => true
  end.

Definition seq' (r1 r2 : regex) : regex :=
  match r1, r2 with
  | Void, _ => Void
  | _, Void => Void
  | Eps, _ => r2
  | _, _ => Seq r1 r2
  end.

Definition alt' (r1 r2 : regex) : regex :=
  match r1, r2 with
  | Void, _ => r2
  | _, Void => r1
  | _, _ => Alt r1 r2
  end.

Fixpoint deriv (c : ascii) (r : regex) : regex :=
  match r with
  | Void => Void
  | Eps => Void
  | Sym p => if p c then Eps else Void
  | Seq r1 r2 =>
      if nullable r1 then alt' (seq' (deriv c r1) r2) (deriv c r2)
      else seq' (deriv c r1) r2
  | Alt r1 r2 => alt' (deriv c r1) (deriv c r2)
  | Star r1 => seq' (deriv c r1) (Star r1)
  end.

Fixpoint matches (r : regex) (s : string) : bool :=
  match s with
  | EmptyString => nullable r
  | String c s' => matches (deriv c r) s'
  end.

Record t := mk { anchoredStart : bool; body : regex; anchoredEnd : bool }.

(** [pattern.test(s)]: some substring of [s] matches the body, starting
    at index 0 under [^] and ending at the end of [s] under [$]. *)
Definition test (p : t) (s : string) : bool :=
  matches
    (Seq (if anchoredStart p then Eps else Star wild)
         (Seq (body p) (if anchoredEnd p then Eps else Star wild)))
    s.

End RegExp.

(** ** Configuration *)

Record ConfigOptions := {
  promptBeforeDeletion : bool;
  removeEmptyDirectories : bool;
  removeEmptyFrontend : bool;
  createBackups : bool
}.

Record ConfigOf (pattern : Type) := {
  directories : list (string * path);
  essentialPatterns : list pattern;
  essentialDirectories : list string;
  artifactExtensions : list string;
  accessThresholdDays : Z;
  backupDir : path;
  backupRetentionDays : Z;
  logFile : path;
  options : ConfigOptions
}.
Arguments directories {pattern} _.
Arguments essentialPatterns {pattern} _.
Arguments essentialDirectories {pattern} _.
Arguments artifactExtensions {pattern} _.
Arguments accessThresholdDays {pattern} _.
Arguments backupDir {pattern} _.
Arguments backupRetentionDays {pattern} _.
Arguments logFile {pattern} _.
Arguments options {pattern} _.

(** The configuration as the cleanup script uses it, with compiled
    patterns, and as the JSON document gives it, with pattern sources. *)
Definition Config : Type := ConfigOf RegExp.t.
Definition ConfigDocument : Type := ConfigOf string.

Record RunOptions := { dryRun : bool }.

Section DefaultConfig.
Import RegExp.

Definition jsTsJson : regex := Alt (lit "js") (Alt (lit "ts") (lit "json")).

Definition defaultEssentialPatterns : list RegExp.t :=
  [ mk true (lit ".env") false;                                     (* /^\.env/ *)
    mk false (Seq (lit "config.") jsTsJson) true;                   (* /config\.(js|ts|json)$/ *)
    mk false (Seq (lit "package") (Seq (opt (lit "-lock")) (lit ".json"))) true;
                                                                    (* /package(-lock)?\.json$/ *)
    mk false (Seq (lit "tsconfig") (Seq (Star dot) (lit ".json"))) true;
                                                                    (* /tsconfig.*\.json$/ *)
    mk false (lit "README.md") true;                                (* /README\.md$/ *)
    mk false (lit ".gitignore") true;                               (* /\.gitignore$/ *)
    mk false (lit "server.js") true;                                (* /server\.js$/ *)
    mk false (lit "vite.config.ts") true;                           (* /vite\.config\.ts$/ *)
    mk false (lit "tailwind.config.js") true;                       (* /tailwind\.config\.js$/ *)
    mk false (lit "postcss.config.js") true;                        (* /postcss\.config\.js$/ *)
    mk false (lit "restart.ps1") true ].                            (* /restart\.ps1$/ *)

Definition getDefaultConfig : Config := {|
  directories :=
    [ ("frontend", ["src"]); ("backend", ["backend"]);
      ("database", ["database"]); ("publicAssets", ["public"]) ];
  essentialPatterns := defaultEssentialPatterns;
  essentialDirectories :=
    [ "node_modules"; "src"; "backend"; "public"; "controllers"; "models";
      "routes"; "config"; "components"; "contexts"; "pages"; "services";
      "hooks"; "utils"; "lib" ];
  artifactExtensions := [ ".log"; ".tmp"; ".temp"; ".DS_Store"; ".bak"; "Thumbs.db" ];
  accessThresholdDays := 30;
  backupDir := [".file-backup"];
  backupRetentionDays := 14;
  logFile := ["cleanup-log.txt"];
  options := {| promptBeforeDeletion := true; removeEmptyDirectories := true;
                removeEmptyFrontend := true; createBackups := true |}
|}.
End DefaultConfig.

(** ** The classifier predicates that read no file system state *)

Definition isEssentialFile (config : Config) (filePath : path) : bool :=
  let fileName := Path.basename filePath in
  existsb (fun pattern => RegExp.test pattern fileName) (essentialPatterns config).

Definition isEssentialDirectory (config : Config) (dirPath : path) : bool :=
  let dirName := Path.basename dirPath in
  Js.includes (essentialDirectories config) dirName.

Definition isBuildArtifact (config : Config) (filePath : path) : bool :=
  let ext := Js.toLowerCase (Path.extname filePath) in
  Js.includes (artifactExtensions config) ext.

(** ** Dates

    [Date] values are milliseconds since 1970-01-01T00:00:00Z.  The civil
    calendar conversions are the usual era-based ones over the proleptic
    Gregorian calendar. *)

Module Date.

Local Open Scope Z_scope.

Definition msPerDay : Z := 1000 * 60 * 60 * 24.

Definition daysFromCivil (y m d : Z) : Z :=
  let y' := if m <=? 2 then y - 1 else y in
  let era := y' / 400 in
  let yoe := y' - era * 400 in
  let mp := if 2 <? m then m - 3 else m + 9 in
  let doy := (153 * mp + 2) / 5 + d - 1 in
  let doe := yoe * 365 + yoe / 4 - yoe / 100 + doy in
  era * 146097 + doe - 719468.

Definition civilFromDays (z : Z) : Z * Z * Z :=
  let z' := z + 719468 in
  let era := z' / 146097 in
  let doe := z' - era * 146097 in
  let yoe := (doe - doe / 1460 + doe / 36524 - doe / 146096) / 365 in
  let doy := doe - (365 * yoe + yoe / 4 - yoe / 100) in
  let mp := (5 * doy + 2) / 153 in
  let d := doy - (153 * mp + 2) / 5 + 1 in
  let m := if mp <? 10 then mp + 3 else mp - 9 in
  ((if m <=? 2 then yoe + era * 400 + 1 else yoe + era * 400), m, d).

Definition isLeapYear (y : Z) : bool :=
  (y mod 4 =? 0) && (negb (y mod 100 =? 0) || (y mod 400 =? 0)).

Definition daysInMonth (y m : Z) : Z :=
  if m =? 2 then (if isLeapYear y then 29 else 28)
  else if (m =? 4) || (m =? 6) || (m =? 9) || (m =? 11) then 30 else 31.

Definition digit (c : ascii) : option Z :=
  let n := nat_of_ascii c in
  if ((48 <=? n) && (n <=? 57))%nat then Some (Z.of_nat n - 48) else None.

Fixpoint number (acc : Z) (cs : list ascii) : option Z :=
  match cs with
  | [] => Some acc
  | c :: cs' => match digit c with
                | Some d => number (acc * 10 + d) cs'
                | None => None
                end
  end.

(** The date-only form [YYYY-MM-DD] of the ECMAScript date-time string
    format, read as UTC midnight; [None] for anything else, including
    out-of-range months and days. *)
Definition parseISODate (s : string) : option Z :=
  match list_ascii_of_string s with
  | [y1; y2; y3; y4; "-"%char; m1; m2; "-"%char; d1; d2] =>
      match number 0 [y1; y2; y3; y4], number 0 [m1; m2], number 0 [d1; d2] with
      | Some y, Some m, Some d =>
          if (1 <=? m) && (m <=? 12) && (1 <=? d) && (d <=? daysInMonth y m)
          then Some (daysFromCivil y m d * msPerDay)
          else None
      | _, _, _ => None
      end
  | _ => None
  end.

(** [new Date(s).getTime()], with [None] for [NaN].  A string in the
    date-only format has the value ECMAScript fixes; for every other
    string the result is left to the engine ([legacy]). *)
Definition parse (legacy : string -> option Z) (s : string) : option Z :=
  match parseISODate s with
  | Some t => Some t
  | None => legacy s
  end.

Definition digitChar (d : Z) : ascii := ascii_of_nat (48 + Z.to_nat d).

Fixpoint padded (width : nat) (n : Z) : string :=
  match width with
  | O => ""
  | S w => padded w (n / 10) +:+ String (digitChar (n mod 10)) ""
  end.

(** [Date.prototype.toISOString]. *)
Definition toISOString (t : Z) : string :=
  let '(y, m, d) := civilFromDays (t / msPerDay) in
  let tod := t mod msPerDay in
  (if (0 <=? y) && (y <=? 9999) then padded 4 y
   else (if y <? 0 then "-" else "+") +:+ padded 6 (Z.abs y))
  +:+ "-" +:+ padded 2 m +:+ "-" +:+ padded 2 d
  +:+ "T" +:+ padded 2 (tod / 3600000) +:+ ":" +:+ padded 2 (tod / 60000 mod 60)
  +:+ ":" +:+ padded 2 (tod / 1000 mod 60) +:+ "." +:+ padded 3 (tod mod 1000) +:+ "Z".

(** [daysDifference < days] and [daysDifference > days] where
    [daysDifference = ms / (1000 * 60 * 60 * 24)]: the quotient is compared
    exactly, by cross-multiplication.  For whole numbers of days below
    10^8 and millisecond counts in the [Date] range the double-precision
    quotient compares the same way. *)
Definition daysLt (ms days : Z) : bool := ms <? days * msPerDay.
Definition daysGt (ms days : Z) : bool := days * msPerDay <? ms.

End Date.

(** ** The file system

    The tree under the working directory.  A directory keeps its entries
    in the order in which [readdirSync] lists them, which is that of their
    names.  [Dangling] is an entry that [readdir] lists but
    [stat] cannot resolve (a broken symbolic link), [Special] one that is
    neither a regular file nor a directory; an unreadable file cannot be
    opened, and a directory that is not listable refuses [readdir]. *)

#[warnings="-register-all"]
Inductive node : Type :=
| File (atime : Z) (content : string) (readable : bool)
| Dir (listable : bool) (entries : list (string * node))
| Special
| Dangling.

Inductive error : Type :=
| ENOENT | ENOTDIR | EISDIR | ENOTEMPTY | EACCES | EEXIST | EINVAL
| RangeError | SyntaxError.

Module Fs.

Fixpoint entryGet (name : string) (es : list (string * node)) : option node :=
  match es with
  | [] => None
  | (n, x) :: es' => if String.eqb n name then Some x else entryGet name es'
  end.

Fixpoint entryPut (name : string) (x : node) (es : list (string * node))
  : list (string * node) :=
  match es with
  | [] => [(name, x)]
  | (n, y) :: es' =>
      if String.eqb n name then (n, x) :: es' else (n, y) :: entryPut name x es'
  end.

Fixpoint entryDel (name : string) (es : list (string * node))
  : list (string * node) :=
  match es with
  | [] => []
  | (n, y) :: es' =>
      if String.eqb n name then entryDel name es' else (n, y) :: entryDel name es'
  end.

Fixpoint lookup (t : node) (p : path) : option node :=
  match p with
  | [] => Some t
  | name :: p' =>
      match t with
      | Dir _ es =>
          match entryGet name es with
          | Some c => lookup c p'
          | None => None
          end
      | _ => None
      end
  end.

(** Replace or create the node at [p]; the parent must be a directory. *)
Fixpoint put (p : path) (x : node) (t : node) : node :=
  match p with
  | [] => x
  | name :: p' =>
      match t with
      | Dir l es =>
          match p', entryGet name es with
          | [], _ => Dir l (entryPut name x es)
          | _, Some c => Dir l (entryPut name (put p' x c) es)
          | _, None => t
          end
      | _ => t
      end
  end.

(** Unlink the entry at [p] from its parent (with all it contains). *)
Fixpoint remove (p : path) (t : node) : node :=
  match p with
  | [] => t
  | name :: p' =>
      match t with
      | Dir l es =>
          match p', entryGet name es with
          | [], _ => Dir l (entryDel name es)
          | _, Some c => Dir l (entryPut name (remove p' c) es)
          | _, None => t
          end
      | _ => t
      end
  end.

(** [mkdir -p]: [None] when a component exists and is not a directory. *)
Fixpoint mkdirp (p : path) (t : node) : option node :=
  match p with
  | [] => match t with Dir _ _ => Some t | _ => None end
  | name :: p' =>
      match t with
      | Dir l es =>
          match mkdirp p' (default (Dir true []) (entryGet name es)) with
          | Some c' => Some (Dir l (entryPut name c' es))
          | None => None
          end
      | _ => None
      end
  end.

Definition isDir (t : node) (p : path) : bool :=
  match lookup t p with Some (Dir _ _) => true | _ => false end.

Definition isFile (t : node) (p : path) : bool :=
  match lookup t p with Some (File _ _ _) => true | _ => false end.

End Fs.

(** What [fs.statSync] returns, as far as the scripts look at it. *)
Inductive Stats : Type :=
| StatFile (atime : Z) (size : Z)
| StatDirectory
| StatOther.

Definition isDirectory (s : Stats) : bool :=
  match s with StatDirectory => true | _ => false end.

Definition isFile (s : Stats) : bool :=
  match s with StatFile _ _ => true | _ => false end.

Definition atimeOf (s : Stats) : Z :=
  match s with StatFile a _ => a | _ => 0%Z end.

Definition sizeOf (s : Stats) : Z :=
  match s with StatFile _ n => n | _ => 0%Z end.

(** ** State and exceptions

    A computation reads and updates a state and either returns a value or
    throws; [tryCatch] is JavaScript's [try { } catch (err) { }]. *)

Inductive outcome (A : Type) : Type :=
| Ok (a : A)
| Throw (err : error).
Arguments Ok {A} a.
Arguments Throw {A} err.

Definition M (S A : Type) : Type := S -> outcome A * S.

Definition ret {S A} (a : A) : M S A := fun s => (Ok a, s).

Definition bind {S A B} (m : M S A) (k : A -> M S B) : M S B :=
  fun s => match m s with
           | (Ok a, s') => k a s'
           | (Throw e, s') => (Throw e, s')
           end.

Definition throw {S A} (e : error) : M S A := fun s => (Throw e, s).

Definition tryCatch {S A} (body : M S A) (handler : error -> M S A) : M S A :=
  fun s => match body s with
           | (Ok a, s') => (Ok a, s')
           | (Throw e, s') => handler e s'
           end.

Definition gets {S A} (f : S -> A) : M S A := fun s => (Ok (f s), s).
Definition modify {S} (f : S -> S) : M S unit := fun s => (Ok tt, f s).

#[global] Instance M_ret {S} : MRet (M S) := fun A => @ret S A.
#[global] Instance M_bind {S} : MBind (M S) := fun A B k m => @bind S A B m k.

(** [for (const item of items) body(item)]: a throw leaves the loop. *)
Fixpoint forOf {S A} (items : list A) (body : A -> M S unit) : M S unit :=
  match items with
  | [] => ret tt
  | item :: rest => bind (body item) (fun _ => forOf rest body)
  end.

Definition when {S} (b : bool) (m : M S unit) : M S unit :=
  if b then m else ret tt.

Definition exec {S A} (m : M S A) (s : S) : S := snd (m s).
Definition result {S A} (m : M S A) (s : S) : outcome A := fst (m s).

(** *** Reading the tree: what [fs.existsSync], [fs.statSync],
    [fs.readdirSync] and [fs.readFileSync] answer *)

Definition fsExists (t : node) (p : path) : bool :=
  match Fs.lookup t p with
  | Some Dangling | None => false
  | Some _ => true
  end.

Definition fsStat (t : node) (p : path) : outcome Stats :=
  match Fs.lookup t p with
  | Some (File a c _) => Ok (StatFile a (Z.of_nat (String.length c)))
  | Some (Dir _ _) => Ok StatDirectory
  | Some Special => Ok StatOther
  | Some Dangling | None => Throw ENOENT
  end.

Definition fsReaddir (t : node) (p : path) : outcome (list string) :=
  match Fs.lookup t p with
  | Some (Dir true es) => Ok (map fst es)
  | Some (Dir false _) => Throw EACCES
  | Some (File _ _ _) | Some Special => Throw ENOTDIR
  | Some Dangling | None => Throw ENOENT
  end.

Definition fsReadFile (t : node) (p : path) : outcome string :=
  match Fs.lookup t p with
  | Some (File _ c true) => Ok c
  | Some (File _ _ false) | Some Special => Throw EACCES
  | Some (Dir _ _) => Throw EISDIR
  | Some Dangling | None => Throw ENOENT
  end.

(** ** The cleanup script's world *)

(** A pending [rl.question]: the prompt shown and the callback awaiting the
    answer, identified by the deletion it would perform. *)
Inductive question : Type :=
| AskDirectory (dirPath : path) (reason : string)
| AskFile (filePath : path) (reason : string).

(** The lines the script writes with [console.log], [console.warn] and
    [console.error]; [Err*] lines carry the caught error. *)
Inductive message : Type :=
| MsgConfigLoaded
| MsgConfigNotFound
| ErrLoadingConfig (err : error)
| MsgUsingDefault
| ErrAccessTime (filePath : path) (err : error)
| ErrBackingUp (filePath : path) (err : error)
| ErrLoggingDeletion (err : error)
| MsgRemovedOldBackup (dateDir : string)
| ErrProcessingBackup (dateDir : string) (err : error)
| ErrCleaningBackups (err : error)
| ErrCheckingEmpty (dirPath : path) (err : error)
| MsgDirectoryMissing (dirPath : path)
| MsgSkippingEssential (itemPath : path)
| ErrScanning (dirPath : path) (err : error)
| MsgWouldDeleteDirectory (dirPath : path) (reason : string)
| MsgKeepingDirectory (dirPath : path)
| MsgDeletedDirectory (dirPath : path)
| ErrDeletingDirectory (dirPath : path) (err : error)
| MsgWouldDelete (filePath : path) (reason : string)
| MsgKeepingFile (filePath : path)
| MsgDeletingFile (filePath : path)
| MsgDeletedFile (filePath : path)
| MsgBackupCreated (backupPath : path)
| ErrDeletingFile (filePath : path) (err : error)
| MsgStarting (dry : bool)
| MsgScanning (dir : path)
| MsgWouldDeleteEmptyFrontend (frontendDir : path)
| ErrFrontend (err : error)
| MsgDryRunNotice
| MsgRunWithDelete.

Record World := {
  fs : node;                   (* the tree under process.cwd() *)
  clock : Z;                   (* what new Date() reads; it stands still during a run *)
  atimeOnRead : path -> Z -> Z -> Z;
                               (* the mount: the access time that reading the file
                                  at a path leaves on it, from the access time it
                                  had and the time of the read (noatime keeps the
                                  old time, strictatime gives the time of the read,
                                  relatime does so for a file not read since it
                                  changed or not for a day) *)
  console : list message;      (* oldest first *)
  pending : list question;     (* the question whose callback readline holds: it
                                  holds one at a time *)
  rlOpen : bool                (* the readline interface is not closed *)
}.

Definition setFs (t : node) (w : World) : World :=
  {| fs := t; clock := clock w; atimeOnRead := atimeOnRead w; console := console w;
     pending := pending w; rlOpen := rlOpen w |}.

Definition print (m : message) : M World unit :=
  modify (fun w => {| fs := fs w; clock := clock w; atimeOnRead := atimeOnRead w;
                      console := console w ++ [m];
                      pending := pending w; rlOpen := rlOpen w |}).

(** What readline holds once the questions [asked] were put to it while it
    held [before]: [rl.question] keeps the callback of a question only
    when none is waiting for its answer; otherwise it shows the prompt of
    the waiting question again and drops the new callback. *)
Definition held (before asked : list question) : list question :=
  match before with
  | [] => take 1 asked
  | _ :: _ => before
  end.

(** [rl.question(prompt, callback)].  The prompts go to the terminal
    through readline and are no lines of [console]. *)
Definition rlQuestion (q : question) : M World unit :=
  modify (fun w => {| fs := fs w; clock := clock w; atimeOnRead := atimeOnRead w;
                      console := console w;
                      pending := held (pending w) [q]; rlOpen := rlOpen w |}).

Definition rlClose : M World unit :=
  modify (fun w => {| fs := fs w; clock := clock w; atimeOnRead := atimeOnRead w;
                      console := console w;
                      pending := pending w; rlOpen := false |}).

Definition now : M World Z := gets clock.

(** *** The [fs] calls the scripts make *)

Definition existsSync (p : path) : M World bool :=
  gets (fun w => fsExists (fs w) p).

Definition statSync (p : path) : M World Stats :=
  fun w => (fsStat (fs w) p, w).

Definition readdirSync (p : path) : M World (list string) :=
  fun w => (fsReaddir (fs w) p, w).

(** The working directory itself is never unlinked or removed. *)
Definition isRoot (p : path) : bool :=
  match p with [] => true | _ :: _ => false end.

Definition unlinkSync (p : path) : M World unit := fun w =>
  if isRoot p then (Throw EISDIR, w)
  else match Fs.lookup (fs w) p with
       | Some (File _ _ _) | Some Special | Some Dangling =>
           (Ok tt, setFs (Fs.remove p (fs w)) w)
       | Some (Dir _ _) => (Throw EISDIR, w)
       | None => (Throw ENOENT, w)
       end.

(** [fs.rmdirSync(p)]: only an empty directory can be removed. *)
Definition rmdirSync (p : path) : M World unit := fun w =>
  if isRoot p then (Throw EINVAL, w)
  else match Fs.lookup (fs w) p with
       | Some (Dir _ []) => (Ok tt, setFs (Fs.remove p (fs w)) w)
       | Some (Dir _ (_ :: _)) => (Throw ENOTEMPTY, w)
       | Some (File _ _ _) | Some Special => (Throw ENOTDIR, w)
       | Some Dangling | None => (Throw ENOENT, w)
       end.

(** [fs.rmdirSync(p, { recursive: true })] as of Node 16: a directory goes
    with its contents; a missing path or a file is an error. *)
Definition rmdirSyncRecursive (p : path) : M World unit := fun w =>
  if isRoot p then (Throw EINVAL, w)
  else match Fs.lookup (fs w) p with
       | Some (Dir _ _) => (Ok tt, setFs (Fs.remove p (fs w)) w)
       | Some (File _ _ _) | Some Special => (Throw ENOTDIR, w)
       | Some Dangling | None => (Throw ENOENT, w)
       end.

(** [fs.mkdirSync(p, { recursive: true })]. *)
Definition mkdirSync (p : path) : M World unit := fun w =>
  match Fs.mkdirp p (fs w) with
  | Some t => (Ok tt, setFs t w)
  | None => (Throw EEXIST, w)
  end.

(** Whether a regular file can be written at [p]: its directory must
    exist and [p] must not be a directory. *)
Definition writable (t : node) (p : path) : option error :=
  if negb (Fs.isDir t (Path.dirname p)) then Some ENOENT
  else if isRoot p then Some EISDIR
  else match Fs.lookup t p with
       | Some (Dir _ _) => Some EISDIR
       | Some Special => Some EACCES
       | _ => None
       end.

(** [fs.copyFileSync(src, dst)]: the content of [src] is read, which moves
    its access time as the mount has it, and written to [dst]. *)
Definition copyFileSync (src dst : path) : M World unit := fun w =>
  match Fs.lookup (fs w) src with
  | Some (File a c true) =>
      match writable (fs w) dst with
      | None =>
          let read := Fs.put src (File (atimeOnRead w src a (clock w)) c true) (fs w) in
          (Ok tt, setFs (Fs.put dst (File (clock w) c true) read) w)
      | Some e => (Throw e, w)
      end
  | Some (File _ _ false) => (Throw EACCES, w)
  | Some (Dir _ _) => (Throw EISDIR, w)
  | Some Special => (Throw EINVAL, w)
  | Some Dangling | None => (Throw ENOENT, w)
  end.

Definition appendFileSync (p : path) (text : string) : M World unit := fun w =>
  match writable (fs w) p with
  | None =>
      let old := match Fs.lookup (fs w) p with
                 | Some (File a c r) => File a (c +:+ text) r
                 | _ => File (clock w) text true
                 end in
      (Ok tt, setFs (Fs.put p old (fs w)) w)
  | Some e => (Throw e, w)
  end.

(** ** project-cleanup.cjs *)

Section Cleanup.

(** What [new Date(s)] yields for strings outside the date-only format. *)
Variable engineDateParse : string -> option Z.

(** The module-level [config], fixed once loaded. *)
Variable config : Config.

(** [utils.isRecentlyAccessed] *)
Definition isRecentlyAccessed (filePath : path) : M World bool :=
  tryCatch
    (stats ← statSync filePath;
     let lastAccessTime := atimeOf stats in
     currentTime ← now;
     mret (Date.daysLt (currentTime - lastAccessTime) (accessThresholdDays config)))
    (fun err => print (ErrAccessTime filePath err);; mret true).

(** [utils.backupFile]: the backup path, or [None] for [null]. *)
Definition backupFile (filePath : path) : M World (option path) :=
  if negb (createBackups (options config)) then mret None
  else
    tryCatch
      (let backupDir := backupDir config in
       ex ← existsSync backupDir;
       when (negb ex) (mkdirSync backupDir);;
       t ← now;
       let today := hd "" (Js.split "T" (Date.toISOString t)) in
       let dateDirPath := Path.join backupDir today in
       ex ← existsSync dateDirPath;
       when (negb ex) (mkdirSync dateDirPath);;
       let relativeFilePath := filePath in
       let backupFilePath := dateDirPath ++ relativeFilePath in
       let backupFileDir := Path.dirname backupFilePath in
       ex ← existsSync backupFileDir;
       when (negb ex) (mkdirSync backupFileDir);;
       copyFileSync filePath backupFilePath;;
       mret (Some backupFilePath))
      (fun err => print (ErrBackingUp filePath err);; mret None).

Definition logEntry (t : Z) (filePath : path) (reason : string)
  (backupPath : option path) : string :=
  Date.toISOString t +:+ " - DELETED: " +:+ Path.show filePath
  +:+ " - REASON: " +:+ reason
  +:+ match backupPath with
      | Some b => " - BACKUP: " +:+ Path.show b
      | None => ""
      end
  +:+ String "010"%char "".

(** [utils.logDeletion] *)
Definition logDeletion (filePath : path) (reason : string)
  (backupPath : option path) : M World unit :=
  tryCatch
    (let logDir := Path.dirname (logFile config) in
     ex ← existsSync logDir;
     when (negb ex && negb (bool_decide (logDir = []))) (mkdirSync logDir);;
     t ← now;
     appendFileSync (logFile config) (logEntry t filePath reason backupPath))
    (fun err => print (ErrLoggingDeletion err)).

(** The callback of [backupDates.forEach] in [utils.cleanupOldBackups]. *)
Definition sweepBackup (backupDir : path) (currentDate : Z) (dateDir : string)
  : M World unit :=
  tryCatch
    (match Date.parse engineDateParse dateDir with
     | None => mret tt
     | Some backupDate =>
         if Date.daysGt (currentDate - backupDate) (backupRetentionDays config)
         then
           let dateDirPath := Path.join backupDir dateDir in
           rmdirSyncRecursive dateDirPath;;
           print (MsgRemovedOldBackup dateDir)
         else mret tt
     end)
    (fun err => print (ErrProcessingBackup dateDir err)).

(** [utils.cleanupOldBackups] *)
Definition cleanupOldBackups : M World unit :=
  if negb (createBackups (options config)) then mret tt
  else
    tryCatch
      (let backupDir := backupDir config in
       ex ← existsSync backupDir;
       if negb ex then mret tt
       else
         backupDates ← readdirSync backupDir;
         currentDate ← now;
         forOf backupDates (sweepBackup backupDir currentDate))
      (fun err => print (ErrCleaningBackups err)).

(** [utils.isEmptyDir] *)
Definition isEmptyDir (dirPath : path) : M World bool :=
  tryCatch
    (items ← readdirSync dirPath;
     mret (length items =? 0)%nat)
    (fun err => print (ErrCheckingEmpty dirPath err);; mret false).

(** [deleteDirectory] *)
Definition deleteDirectory (dirPath : path) (reason : string) : M World unit :=
  tryCatch
    (rmdirSync dirPath;;
     logDeletion dirPath reason None;;
     print (MsgDeletedDirectory dirPath))
    (fun err => print (ErrDeletingDirectory dirPath err)).

(** [handleDirectoryDeletion] *)
Definition handleDirectoryDeletion (dirPath : path) (reason : string)
  (opts : RunOptions) : M World unit :=
  if dryRun opts then print (MsgWouldDeleteDirectory dirPath reason)
  else if promptBeforeDeletion (options config)
  then rlQuestion (AskDirectory dirPath reason)
  else deleteDirectory dirPath reason.

(** [deleteFile] *)
Definition deleteFile (filePath : path) (reason : string) : M World unit :=
  print (MsgDeletingFile filePath);;
  backupPath ← backupFile filePath;
  tryCatch
    (unlinkSync filePath;;
     logDeletion filePath reason backupPath;;
     print (MsgDeletedFile filePath);;
     match backupPath with
     | Some b => print (MsgBackupCreated b)
     | None => mret tt
     end)
    (fun err => print (ErrDeletingFile filePath err)).

(** [handleFileDeletion] *)
Definition handleFileDeletion (filePath : path) (reason : string)
  (opts : RunOptions) : M World unit :=
  if dryRun opts then print (MsgWouldDelete filePath reason)
  else if promptBeforeDeletion (options config)
  then rlQuestion (AskFile filePath reason)
  else deleteFile filePath reason.

(** The callback of a question, run when readline delivers [answer]. *)
Definition answerQuestion (q : question) (answer : string) : M World unit :=
  match q with
  | AskDirectory dirPath reason =>
      if String.eqb (Js.toLowerCase answer) "y" then deleteDirectory dirPath reason
      else print (MsgKeepingDirectory dirPath)
  | AskFile filePath reason =>
      if String.eqb (Js.toLowerCase answer) "y" then deleteFile filePath reason
      else print (MsgKeepingFile filePath)
  end.

(** The body of the [for ... of] loop of [scanDirectory]; [self] is the
    recursive call. *)
Definition scanItem (self : path -> RunOptions -> M World unit)
  (dirPath : path) (opts : RunOptions) (item : string) : M World unit :=
  let itemPath := Path.join dirPath item in
  stats ← statSync itemPath;
  if isDirectory stats then
    self itemPath opts;;
    if removeEmptyDirectories (options config)
    then if negb (isEssentialDirectory config itemPath)
         then empty ← isEmptyDir itemPath;
              when empty (handleDirectoryDeletion itemPath "Empty directory" opts)
         else mret tt
    else mret tt
  else if isFile stats then
    if isEssentialFile config itemPath then print (MsgSkippingEssential itemPath)
    else if isBuildArtifact config itemPath
    then handleFileDeletion itemPath "Build artifact" opts
    else recent ← isRecentlyAccessed itemPath;
         when (negb recent) (handleFileDeletion itemPath "Not recently accessed" opts)
  else mret tt.

Definition scanBody (self : path -> RunOptions -> M World unit)
  (dirPath : path) (opts : RunOptions) : M World unit :=
  tryCatch
    (ex ← existsSync dirPath;
     if negb ex then print (MsgDirectoryMissing dirPath)
     else
       items ← readdirSync dirPath;
       forOf items (scanItem self dirPath opts))
    (fun err => print (ErrScanning dirPath err)).

(** [scanDirectory].  [stack] bounds how deep activations may nest, as the
    engine's call stack does: a call beyond it raises [RangeError] at the
    call site, inside the caller's [try]. *)
Fixpoint scanDirectory (stack : nat) (dirPath : path) (opts : RunOptions)
  : M World unit :=
  scanBody
    (match stack with
     | O => fun _ _ => throw RangeError
     | S stack' => scanDirectory stack'
     end)
    dirPath opts.

(** [runCleanup] *)
Definition runCleanup (stack : nat) (opts : RunOptions) : M World unit :=
  print (MsgStarting (dryRun opts));;
  forOf (map snd (directories config)) (fun dir =>
    print (MsgScanning dir);;
    scanDirectory stack dir opts);;
  when (removeEmptyFrontend (options config))
    (tryCatch
       (let frontendDir := ["frontend"] in
        ex ← existsSync frontendDir;
        empty ← (if ex then isEmptyDir frontendDir else mret false);
        when (ex && empty)
          (if dryRun opts then print (MsgWouldDeleteEmptyFrontend frontendDir)
           else handleDirectoryDeletion frontendDir "Empty directory" opts))
       (fun err => print (ErrFrontend err)));;
  cleanupOldBackups;;
  when (dryRun opts)
    (print MsgDryRunNotice;;
     print MsgRunWithDelete;;
     rlClose).

End Cleanup.

(** ** The structure analysis tool *)

Record DuplicateGroup := { hash : string; files : list path }.

(** The running [stats] of a directory.  The size a directory itself
    reports to [stat] is taken as 0; sizes are kept as byte counts. *)
Record Totals := { size : Z; fileCount : nat; directoryCount : nat }.

Definition noTotals : Totals := {| size := 0; fileCount := 0; directoryCount := 0 |}.

Record Analysis := {
  directoryStats : gmap string Totals;
  fileTypes : gmap string nat;
  potentialDuplicates : list DuplicateGroup;
  namingIssues : list (path * string);
  unusedFiles : list (path * Z);
  largeFiles : list (path * Z)
}.

Inductive note : Type :=
| NoteLookingForConfig
| NoteConfigExists
| NoteConfigLoaded
| NoteConfigNotFound
| NoteConfigShown
| NoteErrLoadingConfig (err : error)
| NoteRoot (key : string) (dirPath : path)
| NoteAnalyzing (dirPath : path)
| NoteMissing (dirPath : path)
| NoteFound (count : nat) (dirPath : path)
| NoteSkippingNodeModules (itemPath : path)
| NoteProcessing (itemPath : path)
| NoteProcessedSoFar (count : nat)
| NoteErrItem (itemPath : path) (err : error)
| NoteFinished (dirPath : path) (nfiles ndirs : nat)
| NoteErrDirectory (dirPath : path) (err : error)
| NoteErrHash (filePath : path) (err : error)
| NoteErrUnused (filePath : path) (err : error)
| NoteErrSize (filePath : path) (err : error).

Record Analyzer := {
  disk : node;
  today : Z;
  analysis : Analysis;
  fileHashes : gmap string path;
  notes : list note
}.

Definition setAnalysis (f : Analysis -> Analysis) : M Analyzer unit :=
  modify (fun s => {| disk := disk s; today := today s; analysis := f (analysis s);
                      fileHashes := fileHashes s; notes := notes s |}).

Definition setFileHash (h : string) (p : path) : M Analyzer unit :=
  modify (fun s => {| disk := disk s; today := today s; analysis := analysis s;
                      fileHashes := <[h := p]> (fileHashes s); notes := notes s |}).

Definition say (n : note) : M Analyzer unit :=
  modify (fun s => {| disk := disk s; today := today s; analysis := analysis s;
                      fileHashes := fileHashes s; notes := notes s ++ [n] |}).

Definition statOf (p : path) : M Analyzer Stats := fun s => (fsStat (disk s) p, s).
Definition listOf (p : path) : M Analyzer (list string) := fun s => (fsReaddir (disk s) p, s).
Definition readOf (p : path) : M Analyzer string := fun s => (fsReadFile (disk s) p, s).

Definition includesPath (ps : list path) (p : path) : bool := bool_decide (p ∈ ps).

(** The duplicate bookkeeping of one hashed file: a digest seen before
    yields a group of the first path and this one unless a group with this
    digest already lists both; a new digest is remembered with this path. *)
Definition pushDuplicate (g : DuplicateGroup) (a : Analysis) : Analysis :=
  {| directoryStats := directoryStats a; fileTypes := fileTypes a;
     potentialDuplicates := potentialDuplicates a ++ [g];
     namingIssues := namingIssues a; unusedFiles := unusedFiles a;
     largeFiles := largeFiles a |}.

Definition alreadyPaired (fileHash : string) (firstPath itemRelPath : path)
  (dups : list DuplicateGroup) : bool :=
  existsb (fun dup => String.eqb (hash dup) fileHash
                      && includesPath (files dup) firstPath
                      && includesPath (files dup) itemRelPath) dups.

Definition checkDuplicate (fileHash : string) (itemRelPath : path) : M Analyzer unit :=
  seen ← gets (fun s => fileHashes s !! fileHash);
  match seen with
  | Some firstPath =>
      dups ← gets (fun s => potentialDuplicates (analysis s));
      when (negb (alreadyPaired fileHash firstPath itemRelPath dups))
        (setAnalysis (pushDuplicate {| hash := fileHash; files := [firstPath; itemRelPath] |}))
  | None => setFileHash fileHash itemRelPath
  end.

Section Analyzer.

(** [crypto.createHash('sha256').update(buffer).digest('hex')]; digests
    are hexadecimal strings and so never name an inherited property of
    the [fileHashes] object. *)
Variable sha256 : string -> string.

(** [utils.calculateFileHash]: [None] is [null]. *)
Definition calculateFileHash (filePath : path) : M Analyzer (option string) :=
  tryCatch
    (fileBuffer ← readOf filePath;
     mret (Some (sha256 fileBuffer)))
    (fun err => say (NoteErrHash filePath err);; mret None).

(** [utils.isLargeFile] *)
Definition isLargeFile (filePath : path) : M Analyzer bool :=
  tryCatch
    (stats ← statOf filePath;
     mret (1024 * 1024 <? sizeOf stats)%Z)
    (fun err => say (NoteErrSize filePath err);; mret false).

Definition isUpper (c : ascii) : bool :=
  let n := nat_of_ascii c in ((65 <=? n) && (n <=? 90))%nat.
Definition isLower (c : ascii) : bool :=
  let n := nat_of_ascii c in ((97 <=? n) && (n <=? 122))%nat.
Definition isDigit (c : ascii) : bool :=
  let n := nat_of_ascii c in ((48 <=? n) && (n <=? 57))%nat.
Definition isAlnum (c : ascii) : bool := isUpper c || isLower c || isDigit c.

(** [/^[A-Z][A-Za-z0-9]*$/], [/^[a-z][A-Za-z0-9]*$/], [/^[a-z][a-z0-9-]*$/] *)
Definition pascalCase : RegExp.t :=
  RegExp.mk true (RegExp.Seq (RegExp.Sym isUpper) (RegExp.Star (RegExp.Sym isAlnum))) true.
Definition camelCase : RegExp.t :=
  RegExp.mk true (RegExp.Seq (RegExp.Sym isLower) (RegExp.Star (RegExp.Sym isAlnum))) true.
Definition kebabCase : RegExp.t :=
  RegExp.mk true
    (RegExp.Seq (RegExp.Sym isLower)
       (RegExp.Star (RegExp.Sym (fun c => isLower c || isDigit c || Ascii.eqb c "-"%char))))
    true.

(** [path.basename(filePath, ext)]: the suffix is dropped when the name
    ends with it and is longer than it. *)
Definition basenameWithout (filePath : path) (ext : string) : string :=
  let name := Path.basename filePath in
  if negb (String.eqb ext "") && Js.endsWith name ext
     && (String.length ext <? String.length name)%nat
  then String.substring 0 (String.length name - String.length ext) name
  else name.

(** [utils.checkNamingConvention]; paths are matched as printed on a
    POSIX host. *)
Definition checkNamingConvention (filePath : path) : list string :=
  let fileName := Path.basename filePath in
  let ext := Js.toLowerCase (Path.extname filePath) in
  let baseName := basenameWithout filePath ext in
  let shown := Path.show filePath in
  (if (String.eqb ext ".jsx" || String.eqb ext ".tsx")
      && Js.includesStr shown "/components/"
      && negb (RegExp.test pascalCase baseName)
   then ["Component file '" +:+ fileName +:+ "' should use PascalCase"] else [])
  ++ (if (String.eqb ext ".js" || String.eqb ext ".ts")
         && (Js.includesStr shown "/utils/" || Js.includesStr shown "/hooks/")
         && negb (RegExp.test camelCase baseName)
      then ["Utility file '" +:+ fileName +:+ "' should use camelCase"] else [])
  ++ (if (String.eqb ext ".css" || String.eqb ext ".scss")
         && negb (RegExp.test kebabCase baseName)
      then ["CSS file '" +:+ fileName +:+ "' should use kebab-case"] else []).

Definition packageJson : RegExp.t :=
  RegExp.mk false (RegExp.Seq (RegExp.lit "package")
    (RegExp.Seq (RegExp.opt (RegExp.lit "-lock")) (RegExp.lit ".json"))) true.
Definition tsconfigJson : RegExp.t :=
  RegExp.mk false (RegExp.Seq (RegExp.lit "tsconfig")
    (RegExp.Seq (RegExp.Star RegExp.dot) (RegExp.lit ".json"))) true.
Definition readmeMd : RegExp.t := RegExp.mk false (RegExp.lit "README.md") true.

(** [utils.isLikelyUnused] *)
Definition isLikelyUnused (filePath : path) : M Analyzer bool :=
  tryCatch
    (stats ← statOf filePath;
     let fileName := Path.basename filePath in
     if Js.includesStr (Path.show filePath) "node_modules"
        || RegExp.test packageJson fileName
        || RegExp.test tsconfigJson fileName
        || RegExp.test readmeMd fileName
     then mret false
     else
       let lastAccessTime := atimeOf stats in
       currentTime ← gets today;
       mret (Date.daysGt (currentTime - lastAccessTime) 90))
    (fun err => say (NoteErrUnused filePath err);; mret false).

Definition bumpFileType (ext : string) (a : Analysis) : Analysis :=
  {| directoryStats := directoryStats a;
     fileTypes := <[ext := (default 0 (fileTypes a !! ext) + 1)%nat]> (fileTypes a);
     potentialDuplicates := potentialDuplicates a;
     namingIssues := namingIssues a; unusedFiles := unusedFiles a;
     largeFiles := largeFiles a |}.

Definition pushNaming (issues : list (path * string)) (a : Analysis) : Analysis :=
  {| directoryStats := directoryStats a; fileTypes := fileTypes a;
     potentialDuplicates := potentialDuplicates a;
     namingIssues := namingIssues a ++ issues; unusedFiles := unusedFiles a;
     largeFiles := largeFiles a |}.

Definition pushLarge (entry : path * Z) (a : Analysis) : Analysis :=
  {| directoryStats := directoryStats a; fileTypes := fileTypes a;
     potentialDuplicates := potentialDuplicates a;
     namingIssues := namingIssues a; unusedFiles := unusedFiles a;
     largeFiles := largeFiles a ++ [entry] |}.

Definition pushUnused (entry : path * Z) (a : Analysis) : Analysis :=
  {| directoryStats := directoryStats a; fileTypes := fileTypes a;
     potentialDuplicates := potentialDuplicates a;
     namingIssues := namingIssues a; unusedFiles := unusedFiles a ++ [entry];
     largeFiles := largeFiles a |}.

Definition putDirectoryStats (key : string) (stats : Totals) (a : Analysis) : Analysis :=
  {| directoryStats := <[key := stats]> (directoryStats a); fileTypes := fileTypes a;
     potentialDuplicates := potentialDuplicates a;
     namingIssues := namingIssues a; unusedFiles := unusedFiles a;
     largeFiles := largeFiles a |}.

(** A [for ... of] loop that updates a local variable. *)
Fixpoint forOfAcc {S A B} (items : list A) (acc : B) (body : B -> A -> M S B)
  : M S B :=
  match items with
  | [] => ret acc
  | item :: rest => bind (body acc item) (fun acc' => forOfAcc rest acc' body)
  end.

(** The body of the loop of [analyzeDirectory] for one [item]; [stats] is
    the loop's running total and [self] the recursive call.  Every call
    that can throw comes before the first update of [stats]. *)
Definition analyzeItem (self : path -> path -> M Analyzer Totals)
  (dirPath relativePath : path) (stats : Totals) (item : string)
  : M Analyzer Totals :=
  let itemPath := Path.join dirPath item in
  let itemRelPath := Path.join relativePath item in
  tryCatch
    (itemStats ← statOf itemPath;
     if isDirectory itemStats then
       if String.eqb item "node_modules" then
         say (NoteSkippingNodeModules itemPath);;
         mret {| size := size stats + sizeOf itemStats;
                 fileCount := fileCount stats;
                 directoryCount := directoryCount stats + 1 |}
       else
         say (NoteProcessing itemPath);;
         dirStats ← self itemPath itemRelPath;
         mret {| size := size stats + size dirStats;
                 fileCount := fileCount stats + fileCount dirStats;
                 directoryCount := directoryCount stats + (directoryCount dirStats + 1) |}
     else if isFile itemStats then
       let stats' := {| size := size stats + sizeOf itemStats;
                        fileCount := fileCount stats + 1;
                        directoryCount := directoryCount stats |} in
       when (fileCount stats' mod 100 =? 0)%nat (say (NoteProcessedSoFar (fileCount stats')));;
       let ext := Js.toLowerCase (Path.extnameOf item) in
       let ext := if String.eqb ext "" then "no-extension" else ext in
       setAnalysis (bumpFileType ext);;
       let issues := checkNamingConvention itemPath in
       when (0 <? length issues)%nat
         (setAnalysis (pushNaming (map (fun issue => (itemRelPath, issue)) issues)));;
       large ← isLargeFile itemPath;
       when large (setAnalysis (pushLarge (itemRelPath, sizeOf itemStats)));;
       fileHash ← calculateFileHash itemPath;
       match fileHash with
       | Some h => when (negb (String.eqb h "")) (checkDuplicate h itemRelPath)
       | None => mret tt
       end;;
       unused ← isLikelyUnused itemPath;
       (if (unused : bool) then
          again ← statOf itemPath;
          setAnalysis (pushUnused (itemRelPath, atimeOf again))
        else mret tt);;
       mret stats'
     else mret stats)
    (fun err => say (NoteErrItem itemPath err);; mret stats).

Definition analyzeBody (self : path -> path -> M Analyzer Totals)
  (dirPath relativePath : path) : M Analyzer Totals :=
  tryCatch
    (say (NoteAnalyzing dirPath);;
     ex ← gets (fun s => fsExists (disk s) dirPath);
     if negb ex then say (NoteMissing dirPath);; mret noTotals
     else
       items ← listOf dirPath;
       say (NoteFound (length items) dirPath);;
       stats ← forOfAcc items noTotals (analyzeItem self dirPath relativePath);
       let key := if bool_decide (relativePath = []) then "root"
                  else Path.show relativePath in
       setAnalysis (putDirectoryStats key stats);;
       say (NoteFinished dirPath (fileCount stats) (directoryCount stats));;
       mret stats)
    (fun err => say (NoteErrDirectory dirPath err);; mret noTotals).

(** [analyzeDirectory], with the same bound on nesting as [scanDirectory]. *)
Fixpoint analyzeDirectory (stack : nat) (dirPath relativePath : path)
  : M Analyzer Totals :=
  analyzeBody
    (match stack with
     | O => fun _ _ => throw RangeError
     | S stack' => analyzeDirectory stack'
     end)
    dirPath relativePath.

(** [main], up to the report, which only prints [analysis]. *)
Definition analyzerMain (stack : nat) (roots : list (string * path)) : M Analyzer unit :=
  forOf roots (fun '(key, dirPath) =>
    ex ← gets (fun s => fsExists (disk s) dirPath);
    if (ex : bool) then
      say (NoteRoot key dirPath);;
      analyzeDirectory stack dirPath dirPath;;
      mret tt
    else say (NoteMissing dirPath)).

End Analyzer.

(** ** Loading the configuration and running the scripts

    Both scripts read [cleanup-config.json] from their own directory,
    [scriptDir].  A document that parses is taken to have the documented
    shape. *)

Section Scripts.

(** [JSON.parse]; [None] when it throws. *)
Variable jsonParse : string -> option ConfigDocument.

(** [new RegExp(source)]; [None] when it throws. *)
Variable compileRegExp : string -> option RegExp.t.

Variable engineDateParse : string -> option Z.
Variable sha256 : string -> string.

Definition configPath : path := ["cleanup-config.json"].

Fixpoint compileAll (sources : list string) : option (list RegExp.t) :=
  match sources with
  | [] => Some []
  | source :: rest =>
      match compileRegExp source, compileAll rest with
      | Some r, Some rs => Some (r :: rs)
      | _, _ => None
      end
  end.

Definition withPatterns (doc : ConfigDocument) (ps : list RegExp.t) : Config :=
  {| directories := directories doc; essentialPatterns := ps;
     essentialDirectories := essentialDirectories doc;
     artifactExtensions := artifactExtensions doc;
     accessThresholdDays := accessThresholdDays doc;
     backupDir := backupDir doc;
     backupRetentionDays := backupRetentionDays doc;
     logFile := logFile doc; options := options doc |}.

(** The configuration block at the top of [project-cleanup.cjs]. *)
Definition loadConfig (scriptDir : node) : M World Config :=
  tryCatch
    (if fsExists scriptDir configPath then
       configData ← (fun w => (fsReadFile scriptDir configPath, w));
       match jsonParse configData with
       | None => throw SyntaxError
       | Some doc =>
           print MsgConfigLoaded;;
           match compileAll (essentialPatterns doc) with
           | Some ps => mret (withPatterns doc ps)
           | None => throw SyntaxError
           end
       end
     else
       print MsgConfigNotFound;;
       mret getDefaultConfig)
    (fun err =>
       print (ErrLoadingConfig err);;
       print MsgUsingDefault;;
       mret getDefaultConfig).

(** The cleanup script from its first line to the return of [runCleanup]. *)
Definition cleanupScript (scriptDir : node) (args : list string) (stack : nat)
  : M World unit :=
  config ← loadConfig scriptDir;
  let opts := {| dryRun := negb (Js.includes args "--delete") |} in
  runCleanup engineDateParse config stack opts.

(** What the analyzer reads of its configuration. *)
Record AnalyzerConfig := {
  analyzerDirectories : list (string * path);
  analyzerEssentialDirectories : list string
}.

Definition analyzerDefaults : AnalyzerConfig := {|
  analyzerDirectories :=
    [ ("frontend", ["src"]); ("backend", ["backend"]);
      ("database", ["database"]); ("publicAssets", ["public"]) ];
  analyzerEssentialDirectories := [ "node_modules"; "src"; "backend"; "public" ]
|}.

Definition ofDocument (doc : ConfigDocument) : AnalyzerConfig :=
  {| analyzerDirectories := directories doc;
     analyzerEssentialDirectories := essentialDirectories doc |}.

(** The configuration block of the analyzer: [inr code] is
    [process.exit(code)]. *)
Definition loadAnalyzerConfig (scriptDir : node) : M Analyzer (AnalyzerConfig + Z) :=
  tryCatch
    (say NoteLookingForConfig;;
     config ← (if fsExists scriptDir configPath then
                 say NoteConfigExists;;
                 configData ← (fun s => (fsReadFile scriptDir configPath, s));
                 match jsonParse configData with
                 | None => throw SyntaxError
                 | Some doc => say NoteConfigLoaded;; mret (ofDocument doc)
                 end
               else
                 say NoteConfigNotFound;;
                 mret analyzerDefaults);
     say NoteConfigShown;;
     mret (inl config))
    (fun err => say (NoteErrLoadingConfig err);; mret (inr 1%Z)).

(** The analyzer from its first line on: the exit status. *)
Definition analyzerScript (scriptDir : node) (stack : nat) : M Analyzer Z :=
  loaded ← loadAnalyzerConfig scriptDir;
  match loaded with
  | inr code => mret code
  | inl config => analyzerMain sha256 stack (analyzerDirectories config);; mret 0%Z
  end.

End Scripts.

(** ** The structure analysis tool: formatting sizes

    [utils.formatSize] works on the byte count that [stat] gives and on
    its quotients by 1024.  A byte count is a whole number below 2^53;
    such a number and its quotients by powers of two are doubles, and
    dividing them by 1024 is exact.  They are kept here as rationals. *)

(** [String(n)] for a whole number [n >= 0]. *)
Definition decimal (n : Z) : string := pretty (Z.to_N n).

(** [x.toFixed(2)] for [0 <= x < 10^21]: with [n] the integer for which
    [n / 100] is nearest to [x], the larger one if two are as near, the
    digits of [n] with a point before the last two. *)
Definition toFixed2 (x : Q) : string :=
  let n := Qfloor (x * 100 + (1 # 2))%Q in
  decimal (n / 100) +:+ "." +:+ Date.padded 2 (n mod 100).

Definition units : list string := ["B"; "KB"; "MB"; "GB"; "TB"].

(** The loop [while (size >= 1024 && unitIndex < units.length - 1)] of
    [formatSize].  Every turn adds one to [unitIndex], so the loop is over
    within [units.length] turns; [turns] counts the turns left. *)
Fixpoint scaleLoop (turns : nat) (size : Q) (unitIndex : nat) : Q * nat :=
  match turns with
  | O => (size, unitIndex)
  | S turns' =>
      if Qle_bool 1024 size && (unitIndex <? length units - 1)%nat
      then scaleLoop turns' (size / 1024)%Q (S unitIndex)
      else (size, unitIndex)
  end.

(** [utils.formatSize] *)
Definition formatSize (bytes : Z) : string :=
  let '(size, unitIndex) := scaleLoop (length units) (inject_Z bytes) 0 in
  toFixed2 size +:+ " " +:+ nth unitIndex units "undefined".

(** ** The development server launcher: starting one service

    [startService] spawns a process and returns a promise that the event
    handlers of the process and a timer settle.  The embedding keeps what
    the handlers share (the variables [ready] and [output], whether the
    timer is still set, the state of the promise and the lines printed)
    and gives each handler as a step on an event.  A promise settles
    once: [resolve] and [reject] on a settled promise do nothing. *)

Module Launcher.

(** [String.prototype.trim] on the Latin-1 range: tab, line feed, vertical
    tab, form feed, carriage return, space and no-break space go. *)
Definition isSpace (c : ascii) : bool :=
  let n := nat_of_ascii c in
  ((9 <=? n) && (n <=? 13) || (n =? 32) || (n =? 160))%nat.

Fixpoint trimStart (s : string) : string :=
  match s with
  | String c s' => if isSpace c then trimStart s' else s
  | EmptyString => EmptyString
  end.

Definition trim (s : string) : string :=
  String.rev (trimStart (String.rev (trimStart s))).

(** Why a start fails: the timer ran out, the process could not be
    spawned, or it ended with [code] (none when a signal ended it). *)
Inductive failure : Type :=
| StartupTimeout
| SpawnError (error : string)
| ExitedWith (code : option Z).

Inductive promise : Type :=
| Pending
| Resolved
| Rejected (why : failure).

(** [resolve] and [reject]. *)
Definition settle (outcome : promise) (p : promise) : promise :=
  match p with
  | Pending => outcome
  | _ => p
  end.

(** The lines of [console.log] and [console.error]. *)
Inductive line : Type :=
| LineStarting
| LineOutput (text : string)
| LineError (text : string)
| LineReady
| LineDidNotStart
| LineLastOutput (output : string)
| LineFailedToStart (error : string)
| LineExited (code : option Z).

Record Service := {
  ready : bool;
  output : string;
  timer : bool;                (* set, neither cleared nor run *)
  outcome : promise;
  printed : list line          (* oldest first *)
}.

Inductive event : Type :=
| StdoutData (text : string)
| StderrData (text : string)
| ProcessError (error : string)
| Close (code : option Z)
| TimerRuns.

(** The state when [startService] has returned its promise. *)
Definition started : Service :=
  {| ready := false; output := ""; timer := true; outcome := Pending;
     printed := [LineStarting] |}.

(** The handlers of [proc.stdout], [proc.stderr], ['error'], ['close']
    and the callback of [setTimeout], which runs only while the timer is
    set. *)
Definition handle (readyMessage : string) (s : Service) (ev : event) : Service :=
  match ev with
  | StdoutData text =>
      let printed' := printed s ++ [LineOutput (trim text)] in
      if Js.includesStr text readyMessage && negb (ready s) then
        {| ready := true; output := text; timer := false;
           outcome := settle Resolved (outcome s);
           printed := printed' ++ [LineReady] |}
      else
        {| ready := ready s; output := text; timer := timer s;
           outcome := outcome s; printed := printed' |}
  | StderrData text =>
      {| ready := ready s; output := text; timer := timer s;
         outcome := outcome s; printed := printed s ++ [LineError (trim text)] |}
  | ProcessError error =>
      {| ready := ready s; output := output s; timer := false;
         outcome := settle (Rejected (SpawnError error)) (outcome s);
         printed := printed s ++ [LineFailedToStart error] |}
  | Close code =>
      if negb (bool_decide (code = Some 0%Z)) && negb (ready s) then
        {| ready := ready s; output := output s; timer := false;
           outcome := settle (Rejected (ExitedWith code)) (outcome s);
           printed := printed s ++ [LineExited code] |}
      else s
  | TimerRuns =>
      if timer s then
        if negb (ready s) then
          {| ready := ready s; output := output s; timer := false;
             outcome := settle (Rejected StartupTimeout) (outcome s);
             printed := printed s ++ [LineDidNotStart; LineLastOutput (output s)] |}
        else
          {| ready := ready s; output := output s; timer := false;
             outcome := outcome s; printed := printed s |}
      else s
  end.

(** The service after the events [evs], in the order of their handling. *)
Definition after (readyMessage : string) (evs : list event) : Service :=
  fold_left (handle readyMessage) evs started.

End Launcher.

(** * Vocabulary of the statements *)

(** ** States after one more line *)

Definition logged (m : message) (w : World) : World :=
  {| fs := fs w; clock := clock w; atimeOnRead := atimeOnRead w;
     console := console w ++ [m]; pending := pending w; rlOpen := rlOpen w |}.

Definition said (n : note) (s : Analyzer) : Analyzer :=
  {| disk := disk s; today := today s; analysis := analysis s;
     fileHashes := fileHashes s; notes := notes s ++ [n] |}.

(** ** Relations between states along a computation *)

(** Every run of [m] relates the state before to the state after. *)
Definition steps {S A} (R : S -> S -> Prop) (m : M S A) : Prop :=
  forall s, R s (exec m s).

(** [m] never lets an exception escape. *)
Definition returns {S A} (m : M S A) : Prop :=
  forall s, exists a, result m s = Ok a.

(** ** What sits at a path *)

Inductive kind : Type := KFile | KDir | KSpecial | KDangling.

Definition kindOf (n : node) : kind :=
  match n with
  | File _ _ _ => KFile
  | Dir _ _ => KDir
  | Special => KSpecial
  | Dangling => KDangling
  end.

Definition kindAt (t : node) (p : path) : option kind := kindOf <$> Fs.lookup t p.

(** ** Sparing the essentials *)

(** The directory that [runCleanup] looks at apart from the traversal. *)
Definition frontend : path := ["frontend"].

(** A console line that proposes, announces or reports the deletion of a
    file names no essential file; one about a directory names no essential
    directory, unless it is about [frontend]. *)
Definition spares (config : Config) (m : message) : Prop :=
  match m with
  | MsgWouldDelete p _ | MsgDeletingFile p | MsgDeletedFile p =>
      isEssentialFile config p = false
  | MsgWouldDeleteDirectory p _ | MsgDeletedDirectory p
  | MsgWouldDeleteEmptyFrontend p =>
      isEssentialDirectory config p = false \/ p = frontend
  | _ => True
  end.

(** Likewise for a question put to the user. *)
Definition sparesAsking (config : Config) (q : question) : Prop :=
  match q with
  | AskFile p _ => isEssentialFile config p = false
  | AskDirectory p _ => isEssentialDirectory config p = false \/ p = frontend
  end.

(** [p] is there and is no directory, with a base name that matches an
    essential pattern, or is a directory whose own name is essential. *)
Definition protected (config : Config) (t : node) (p : path) : Prop :=
  (isEssentialFile config p = true
   /\ exists k, kindAt t p = Some k /\ k <> KDir)
  \/ (isEssentialDirectory config p = true /\ kindAt t p = Some KDir).

(** The partition named [dateDir] is past retention at time [t]. *)
Definition expired (engineDateParse : string -> option Z) (config : Config)
  (t : Z) (dateDir : string) : bool :=
  match Date.parse engineDateParse dateDir with
  | Some backupDate => Date.daysGt (t - backupDate) (backupRetentionDays config)
  | None => false
  end.

(** [p] is protected, is not [frontend] and, when backups are on, does not
    lie in a partition of the backup directory that is past retention. *)
Definition guarded (engineDateParse : string -> option Z) (config : Config)
  (w : World) (p : path) : Prop :=
  protected config (fs w) p
  /\ p <> frontend
  /\ (createBackups (options config) = true ->
      forall dateDir, expired engineDateParse config (clock w) dateDir = true ->
                      ¬ Path.join (backupDir config) dateDir `prefix_of` p).

(** From [w] to [w']: the new console lines and the new questions spare
    the essentials, the clock stands, and every guarded path is still
    guarded: it is there, a directory if it was one and none if it was
    none. *)
Definition sparing (engineDateParse : string -> option Z) (config : Config)
  (w w' : World) : Prop :=
  (exists new, console w' = console w ++ new /\ Forall (spares config) new)
  /\ (exists asked, pending w' = pending w ++ asked
                    /\ Forall (sparesAsking config) asked)
  /\ clock w' = clock w
  /\ (forall p, guarded engineDateParse config w p ->
                guarded engineDateParse config w' p).

(** How deep the tree goes below a node and below a path. *)
Fixpoint height (n : node) : nat :=
  match n with
  | Dir _ es =>
      S ((fix deepest (es : list (string * node)) : nat :=
            match es with
            | [] => O
            | (_, c) :: es' => Nat.max (height c) (deepest es')
            end) es)
  | _ => O
  end.

Definition heightAt (t : node) (p : path) : nat :=
  match Fs.lookup t p with
  | Some n => height n
  | None => O
  end.

(** ** Reading only *)

(** The tree and the pending questions are as they were. *)
Definition untouched (w w' : World) : Prop :=
  fs w' = fs w /\ pending w' = pending w.

(** Two computations do the same from every state whose tree is [t]. *)
Definition agree {A} (t : node) (m1 m2 : M World A) : Prop :=
  forall w, fs w = t -> m1 w = m2 w.

(** ** The retention sweep *)

Definition isSweepError (dateDir : string) (m : message) : Prop :=
  exists err, m = ErrProcessingBackup dateDir err.

(** ** Configuration files *)

(** The configuration file is there but cannot be read or parsed. *)
Definition unparsable (jsonParse : string -> option ConfigDocument)
  (scriptDir : node) : Prop :=
  fsExists scriptDir configPath = true
  /\ forall configData,
       fsReadFile scriptDir configPath = Ok configData -> jsonParse configData = None.

(** ** Duplicate groups *)

(** The first path seen with digest [h]. *)
Definition firstWith (h : string) (seen : list (path * string)) : option path :=
  match List.find (fun f => String.eqb (snd f) h) seen with
  | Some f => Some (fst f)
  | None => None
  end.

(** The groups reported for the files [later], visited after [seen]: each
    file whose digest was seen before is paired with the first path that
    had it. *)
Fixpoint groupsAfter (seen later : list (path * string)) : list DuplicateGroup :=
  match later with
  | [] => []
  | (p, h) :: rest =>
      match firstWith h seen with
      | Some first => [{| hash := h; files := [first; p] |}]
      | None => []
      end ++ groupsAfter (seen ++ [(p, h)]) rest
  end.

Definition expectedGroups (visited : list (path * string)) : list DuplicateGroup :=
  groupsAfter [] visited.

(** What the duplicate bookkeeping keeps, and how one hashed file moves it. *)
Definition dupState (s : Analyzer) : gmap string path * list DuplicateGroup :=
  (fileHashes s, potentialDuplicates (analysis s)).

Definition track (st : gmap string path * list DuplicateGroup) (f : path * string)
  : gmap string path * list DuplicateGroup :=
  match st.1 !! f.2 with
  | Some first =>
      if alreadyPaired f.2 first f.1 st.2 then st
      else (st.1, st.2 ++ [{| hash := f.2; files := [first; f.1] |}])
  | None => (<[f.2 := f.1]> st.1, st.2)
  end.

(** What holds of the bookkeeping after the files [seen]. *)
Definition bookkeeping (seen : list (path * string))
  (st : gmap string path * list DuplicateGroup) : Prop :=
  (forall h, st.1 !! h = firstWith h seen)
  /\ st.2 = groupsAfter [] seen
  /\ (forall g p, g ∈ st.2 -> p ∈ files g -> p ∈ map fst seen).

(** The files an analysis pass hashes, with their digests, in visiting
    order: the traversal of [analyzeDirectory] read off the tree. *)
Definition hashedItem (sha256 : string -> string)
  (visit : path -> path -> list (path * string)) (t : node)
  (dirPath relativePath : path) (item : string) : list (path * string) :=
  let itemPath := Path.join dirPath item in
  let itemRelPath := Path.join relativePath item in
  match fsStat t itemPath with
  | Ok StatDirectory =>
      if String.eqb item "node_modules" then [] else visit itemPath itemRelPath
  | Ok (StatFile _ _) =>
      match fsReadFile t itemPath with
      | Ok content =>
          if String.eqb (sha256 content) "" then []
          else [(itemRelPath, sha256 content)]
      | Throw _ => []
      end
  | _ => []
  end.

Definition hashedIn (sha256 : string -> string)
  (visit : path -> path -> list (path * string)) (t : node)
  (dirPath relativePath : path) : list (path * string) :=
  if fsExists t dirPath then
    match fsReaddir t dirPath with
    | Ok items => flat_map (hashedItem sha256 visit t dirPath relativePath) items
    | Throw _ => []
    end
  else [].

Fixpoint hashedFiles (sha256 : string -> string) (stack : nat) (t : node)
  (dirPath relativePath : path) : list (path * string) :=
  hashedIn sha256
    (match stack with
     | O => fun _ _ => []
     | S stack' => hashedFiles sha256 stack' t
     end) t dirPath relativePath.

Definition hashedInPass (sha256 : string -> string) (stack : nat) (t : node)
  (roots : list (string * path)) : list (path * string) :=
  flat_map (fun root => if fsExists t root.2
                        then hashedFiles sha256 stack t root.2 root.2 else []) roots.

(** The bookkeeping is untouched. *)
Definition quiet (s s' : Analyzer) : Prop :=
  disk s' = disk s /\ dupState s' = dupState s.

(** [m] returns, keeps the disk [t], and moves the bookkeeping as the
    files [visited] do. *)
Definition tracking {A} (t : node) (visited : list (path * string))
  (m : M Analyzer A) : Prop :=
  forall s, disk s = t ->
    exists a s', m s = (Ok a, s') /\ disk s' = t
                 /\ dupState s' = fold_left track visited (dupState s).

(** The recursive call either tracks what it visits or is refused for
    lack of stack. *)
Definition nests (t : node) (visit : path -> path -> list (path * string))
  (self : path -> path -> M Analyzer Totals) : Prop :=
  (forall p r, tracking t (visit p r) (self p r))
  \/ (forall p r, visit p r = [] /\ self p r = throw RangeError).

(** * Sample inputs *)

Definition noon : Z := 1705752000000.        (* 2024-01-20T12:00:00.000Z *)
Definition midnight : Z := 1705708800000.    (* 2024-01-20T00:00:00.000Z *)

(** Stand-ins for the engine: one that reads no date outside the date-only
    format, a parser that rejects its input, and a toy digest. *)
Definition noEngineDates : string -> option Z := fun _ => None.
Definition rejectingParser : string -> option ConfigDocument := fun _ => None.
Definition noRegExp : string -> option RegExp.t := fun _ => None.
Definition toyDigest : string -> string := fun content => "sha:" +:+ content.

Definition dryRunOptions : RunOptions := {| dryRun := true |}.
Definition deleteOptions : RunOptions := {| dryRun := false |}.

(** A mount on which every read moves the access time. *)
Definition readsMoveAtime : path -> Z -> Z -> Z := fun _ _ now => now.

Definition freshWorld (t : node) (t0 : Z) : World :=
  {| fs := t; clock := t0; atimeOnRead := readsMoveAtime; console := [];
     pending := []; rlOpen := true |}.

Definition emptyAnalysis : Analysis :=
  {| directoryStats := ∅; fileTypes := ∅; potentialDuplicates := [];
     namingIssues := []; unusedFiles := []; largeFiles := [] |}.

Definition freshAnalyzer (t : node) (t0 : Z) : Analyzer :=
  {| disk := t; today := t0; analysis := emptyAnalysis; fileHashes := ∅; notes := [] |}.

(** A file last accessed [days] days before [t0]. *)
Definition aged (t0 days : Z) : node := File (t0 - days * Date.msPerDay) "x" true.

(** [src/README.md] and a 40 days old [src/debug.log]. *)
Definition projectTree : node :=
  Dir true [("src", Dir true [("README.md", aged noon 400); ("debug.log", aged noon 40)])].

(** The scenario configuration: threshold 30, [".log"] the only artifact
    extension. *)
Definition scenarioConfig : Config :=
  {| directories := directories getDefaultConfig;
     essentialPatterns := essentialPatterns getDefaultConfig;
     essentialDirectories := essentialDirectories getDefaultConfig;
     artifactExtensions := [".log"];
     accessThresholdDays := 30;
     backupDir := backupDir getDefaultConfig;
     backupRetentionDays := 14;
     logFile := logFile getDefaultConfig;
     options := options getDefaultConfig |}.

(** [src/notes.txt], last accessed exactly 30 days ago. *)
Definition boundaryTree : node :=
  Dir true [("src", Dir true [("notes.txt", aged noon 30)])].

(** [readdirSync] gives the names of a directory in ascending order, byte
    by byte; a tree is ordered when every directory of it lists its
    entries so. *)
Fixpoint ascending (names : list string) : bool :=
  match names with
  | a :: (b :: _) as rest => String.ltb a b && ascending rest
  | _ => true
  end.

Fixpoint ordered (t : node) : bool :=
  match t with
  | Dir _ es =>
      ascending (map fst es)
      && (fix all (es : list (string * node)) : bool :=
            match es with
            | [] => true
            | (_, c) :: es' => ordered c && all es'
            end) es
  | _ => true
  end.

(** A dangling link whose name sorts before that of a stale log file, and
    one whose name sorts after it. *)
Definition brokenLinkTree : node :=
  Dir true [("src", Dir true [("a-link", Dangling); ("debug.log", aged noon 40)])].
Definition brokenLinkLastTree : node :=
  Dir true [("src", Dir true [("debug.log", aged noon 40); ("link", Dangling)])].

(** Backup partitions of several ages, and an entry that is no date. *)
Definition backupTree : node :=
  Dir true
    [(".file-backup",
      Dir true [("2024-01-01", Dir true [("src", Dir true [("x.log", aged noon 19)])]);
                ("2024-01-05", Dir true []);
                ("2024-01-06", Dir true []);
                ("2024-01-20", Dir true []);
                ("notes", Dir true [])])].

(** The partitions of the retention scenario. *)
Definition scenarioBackupTree : node :=
  Dir true
    [(".file-backup",
      Dir true [("2024-01-01", Dir true [("src", Dir true [("x.log", aged noon 19)])]);
                ("2024-01-20", Dir true [])])].

(** Three files with the same content. *)
Definition copiesTree : node :=
  Dir true [("src", Dir true [("a.txt", File noon "same" true);
                              ("b.txt", File noon "same" true);
                              ("c.txt", File noon "same" true)])].

(** A script directory without configuration file, and one whose file is
    not JSON. *)
Definition noConfigDir : node := Dir true [].
Definition brokenConfigDir : node :=
  Dir true [("cleanup-config.json", File noon "{ directories: " true)].

(** An empty directory in [src] whose name matches the pattern for
    [.env] files. *)
Definition envDirectoryTree : node :=
  Dir true [("src", Dir true [(".env.d", Dir true [])])].

(** An empty [frontend], and a configuration without prompts in which its
    name is essential. *)
Definition emptyFrontendTree : node := Dir true [("frontend", Dir true [])].

Definition frontendConfig : Config :=
  {| directories := directories getDefaultConfig;
     essentialPatterns := essentialPatterns getDefaultConfig;
     essentialDirectories := "frontend" :: essentialDirectories getDefaultConfig;
     artifactExtensions := artifactExtensions getDefaultConfig;
     accessThresholdDays := accessThresholdDays getDefaultConfig;
     backupDir := backupDir getDefaultConfig;
     backupRetentionDays := backupRetentionDays getDefaultConfig;
     logFile := logFile getDefaultConfig;
     options := {| promptBeforeDeletion := false; removeEmptyDirectories := true;
                   removeEmptyFrontend := true; createBackups := true |} |}.

(** A directory that still holds a file. *)
Definition occupiedTree : node :=
  Dir true [("src", Dir true [("stuff", Dir true [("keep.txt", aged noon 1)])])].

(** ** Dry run and prompted run side by side *)

(** The question that a line of the dry run stands for. *)
Definition proposal (m : message) : option question :=
  match m with
  | MsgWouldDelete filePath reason => Some (AskFile filePath reason)
  | MsgWouldDeleteDirectory dirPath reason => Some (AskDirectory dirPath reason)
  | _ => None
  end.

Definition isProposal (m : message) : bool :=
  match proposal m with Some _ => true | None => false end.

(** [w] with the tree [t] and more console lines, after the questions
    [asked] were put to readline. *)
Definition advance (t : node) (lines : list message) (asked : list question)
  (w : World) : World :=
  {| fs := t; clock := clock w; atimeOnRead := atimeOnRead w;
     console := console w ++ lines;
     pending := held (pending w) asked; rlOpen := rlOpen w |}.

(** From states with the same tree and clock, [dry] and [ask] end alike and
    leave the same tree; where [dry] prints a proposal, [ask] puts the
    question to readline, and the other lines are the same. *)
Definition previews {A} (dry ask : M World A) : Prop :=
  forall wd wa, fs wd = fs wa -> clock wd = clock wa ->
    exists r t lines,
      dry wd = (r, advance t lines [] wd)
      /\ ask wa = (r, advance t (List.filter (fun m => negb (isProposal m)) lines)
                        (omap proposal lines) wa).

(** Two build artifacts in [src]. *)
Definition twoArtifactsTree : node :=
  Dir true [("src", Dir true [("a.log", aged noon 1); ("b.tmp", aged noon 1)])].

(** ** What a run leaves alone *)

(** Outside [B] nothing appears, disappears or changes kind, and every file
    there is as it was. *)
Definition keptOutside (B : path) (w w' : World) : Prop :=
  forall p, ¬ B `prefix_of` p ->
    kindAt (fs w') p = kindAt (fs w) p
    /\ forall a c r, Fs.lookup (fs w) p = Some (File a c r) ->
                     Fs.lookup (fs w') p = Some (File a c r).

(** The readline interface is as open as it was. *)
Definition keepsReadline (w w' : World) : Prop := rlOpen w' = rlOpen w.

(** [src] with a stale log beside two backup partitions. *)
Definition projectWithBackups : node :=
  Dir true
    [("src", Dir true [("README.md", aged noon 400); ("debug.log", aged noon 40)]);
     (".file-backup",
      Dir true [("2024-01-01", Dir true [("src", Dir true [("x.log", aged noon 19)])]);
                ("2024-01-20", Dir true [])])].

(** ** Backups and the deletion log *)

(** Today's partition of the backup directory, as [backupFile] names it. *)
Definition todayOf (t : Z) : string := hd "" (Js.split "T" (Date.toISOString t)).

(** The file at [p], if there is one, stays as it is. *)
Definition keepsFile (p : path) (w w' : World) : Prop :=
  forall a c r, Fs.lookup (fs w) p = Some (File a c r) ->
                Fs.lookup (fs w') p = Some (File a c r).

(** Nothing comes to be at [p]. *)
Definition keepsAbsent (p : path) (w w' : World) : Prop :=
  Fs.lookup (fs w) p = None -> Fs.lookup (fs w') p = None.

(** The file at [p], if there is one, keeps its content; its access time
    may move. *)
Definition keepsContent (p : path) (w w' : World) : Prop :=
  forall a c r, Fs.lookup (fs w) p = Some (File a c r) ->
                exists a', Fs.lookup (fs w') p = Some (File a' c r).

(** Only directories were added: the clock, the mount and the console are
    as they were and the files are the same. *)
Definition dirsAdded (w w' : World) : Prop :=
  clock w' = clock w /\ atimeOnRead w' = atimeOnRead w /\ console w' = console w
  /\ forall p a c r, Fs.lookup (fs w') p = Some (File a c r)
                     <-> Fs.lookup (fs w) p = Some (File a c r).

(** [src/secret.tmp] cannot be read. *)
Definition unreadableTree : node :=
  Dir true [("src", Dir true [("secret.tmp", File (noon - 100 * Date.msPerDay) "k" false)])].

(** The configuration without prompts. *)
Definition unattendedConfig : Config :=
  {| directories := directories getDefaultConfig;
     essentialPatterns := essentialPatterns getDefaultConfig;
     essentialDirectories := essentialDirectories getDefaultConfig;
     artifactExtensions := artifactExtensions getDefaultConfig;
     accessThresholdDays := accessThresholdDays getDefaultConfig;
     backupDir := backupDir getDefaultConfig;
     backupRetentionDays := backupRetentionDays getDefaultConfig;
     logFile := logFile getDefaultConfig;
     options := {| promptBeforeDeletion := false; removeEmptyDirectories := true;
                   removeEmptyFrontend := true; createBackups := true |} |}.

(** ** The calendar within one era of 400 years *)

(** The year of the era, the month and the day of day [doe] of an era, as
    [Date.civilFromDays] computes them. *)
Definition civilInEra (doe : Z) : Z * Z * Z :=
  let yoe := ((doe - doe / 1460 + doe / 36524 - doe / 146096) / 365)%Z in
  let doy := (doe - (365 * yoe + yoe / 4 - yoe / 100))%Z in
  let mp := ((5 * doy + 2) / 153)%Z in
  let d := (doy - (153 * mp + 2) / 5 + 1)%Z in
  let m := if (mp <? 10)%Z then (mp + 3)%Z else (mp - 9)%Z in
  (yoe, m, d).

(** The first day of year [Y] of an era, which starts in March, and the
    first day after it. *)
Definition yearStart (Y : Z) : Z := (365 * Y + Y / 4 - Y / 100)%Z.
Definition yearEnd (Y : Z) : Z :=
  if (Y =? 399)%Z then 146097%Z else yearStart (Y + 1).

Definition spread (doe : Z) : Z :=
  (doe - doe / 1460 + doe / 36524 - doe / 146096)%Z.

(** Year [Y] of an era is found from its first and from its last day, and
    is as long as the calendar year in which it ends tells. *)
Definition yearCheck (Y : Z) : bool :=
  (spread (yearStart Y) / 365 =? Y)%Z
  && (spread (yearEnd Y - 1) / 365 =? Y)%Z
  && (yearEnd Y - yearStart Y
      =? 365 + (if Date.isLeapYear (Y + 1) then 1 else 0))%Z.

(** Day [doy] of a year that starts in March falls in a month of the
    calendar; February is the last month and starts on day 337, January
    on day 306. *)
Definition dayCheck (doy : Z) : bool :=
  let mp := ((5 * doy + 2) / 153)%Z in
  let d := (doy - (153 * mp + 2) / 5 + 1)%Z in
  let m := if (mp <? 10)%Z then (mp + 3)%Z else (mp - 9)%Z in
  (mp <=? 11)%Z && (1 <=? d)%Z
  && (if (m =? 2)%Z then (d =? doy - 336)%Z else (d <=? Date.daysInMonth 1 m)%Z)
  && (if (doy <? 306)%Z then (mp <? 10)%Z else true).

(** [f] holds of the [n] integers from [i] on. *)
Fixpoint upto (n : nat) (f : Z -> bool) (i : Z) : bool :=
  match n with
  | O => true
  | S n' => f i && upto n' f (i + 1)%Z
  end.

(** The first millisecond of the year 10000. *)
Definition endOfYear9999 : Z := 253402300800000.

(** The shipped configuration with a retention of zero days. *)
Definition hastyConfig : Config :=
  {| directories := directories getDefaultConfig;
     essentialPatterns := essentialPatterns getDefaultConfig;
     essentialDirectories := essentialDirectories getDefaultConfig;
     artifactExtensions := artifactExtensions getDefaultConfig;
     accessThresholdDays := accessThresholdDays getDefaultConfig;
     backupDir := backupDir getDefaultConfig;
     backupRetentionDays := 0;
     logFile := logFile getDefaultConfig;
     options := options getDefaultConfig |}.

(** ** What an analysis pass adds to its findings *)

(** The files counted by type: the sum of the counts of [fileTypes]. *)
Definition typed (a : Analysis) : nat :=
  map_fold (fun _ count total => count + total) 0 (fileTypes a).

(** An entry of [largeFiles] is above 1 MiB; an entry of [unusedFiles] was
    last accessed more than 90 days before [t0]. *)
Definition isLarge (entry : path * Z) : Prop := (1024 * 1024 < entry.2)%Z.
Definition isStale (t0 : Z) (entry : path * Z) : Prop :=
  (90 * Date.msPerDay < t0 - entry.2)%Z.

(** From [s] to [s']: [files] more files are counted by type, and the new
    entries of [largeFiles] and [unusedFiles] are large and stale. *)
Definition grown (files : nat) (s s' : Analyzer) : Prop :=
  typed (analysis s') = typed (analysis s) + files
  /\ (exists new, largeFiles (analysis s') = largeFiles (analysis s) ++ new
                  /\ Forall isLarge new)
  /\ (exists new, unusedFiles (analysis s') = unusedFiles (analysis s) ++ new
                  /\ Forall (isStale (today s)) new).

(** On the disk [t] at the time [t0], [m] returns a value in [Q] and the
    findings grow by [files] files. *)
Definition yields {A} (t : node) (t0 : Z) (files : nat) (Q : A -> Prop)
  (m : M Analyzer A) : Prop :=
  forall s, disk s = t -> today s = t0 ->
    exists a s', m s = (Ok a, s') /\ disk s' = t /\ today s' = t0
                 /\ grown files s s' /\ Q a.

(** [m] returns totals whose file count is [before] plus the files by
    which the findings grow. *)
Definition counts (t : node) (t0 : Z) (before : nat) (m : M Analyzer Totals) : Prop :=
  forall s, disk s = t -> today s = t0 ->
    exists r s' files, m s = (Ok r, s') /\ disk s' = t /\ today s' = t0
                       /\ grown files s s' /\ fileCount r = before + files.

(** The recursive call counts, or is refused for lack of stack. *)
Definition recurs (t : node) (t0 : Z) (self : path -> path -> M Analyzer Totals) : Prop :=
  (forall p r, counts t t0 0 (self p r))
  \/ (forall p r, self p r = throw RangeError).

(** An event that neither makes a service ready nor fails its start:
    output without the ready message in it, or an exit with code 0. *)
Definition uneventful (readyMessage : string) (ev : Launcher.event) : bool :=
  match ev with
  | Launcher.StdoutData text => negb (Js.includesStr text readyMessage)
  | Launcher.StderrData _ => true
  | Launcher.Close code => bool_decide (code = Some 0%Z)
  | Launcher.ProcessError _ | Launcher.TimerRuns => false
  end.

(** While the timer is set the promise is pending and nothing is ready;
    the line of the timeout is there exactly when the timeout rejected. *)
Definition timed (s : Launcher.Service) : Prop :=
  (Launcher.timer s = true ->
   Launcher.outcome s = Launcher.Pending /\ Launcher.ready s = false)
  /\ (In Launcher.LineDidNotStart (Launcher.printed s)
      <-> Launcher.outcome s = Launcher.Rejected Launcher.StartupTimeout).

(** ** Directories without files *)

(** The node at [p], if there is one, stays as it is. *)
Definition keepsNode (p : path) (w w' : World) : Prop :=
  forall x, Fs.lookup (fs w) p = Some x -> Fs.lookup (fs w') p = Some x.

(** A directory at [p] that holds no file at any depth: it can be listed,
    its name is not among the essential ones, no name occurs twice in it,
    and every entry of it is such a directory. *)
Fixpoint hollow (config : Config) (p : path) (x : node) : bool :=
  match x with
  | Dir true es =>
      negb (isEssentialDirectory config p)
      && bool_decide (NoDup (map fst es))
      && (fix all (es : list (string * node)) : bool :=
            match es with
            | [] => true
            | (n, c) :: es' => hollow config (Path.join p n) c && all es'
            end) es
  | _ => false
  end.

(** From [w] to [w'] the entry at [p] went; a directory above it that does
    not lead to the log file lost that entry and nothing else. *)
Definition gone (config : Config) (p : path) (w w' : World) : Prop :=
  Fs.lookup (fs w') p = None
  /\ forall q r x, p = q ++ r -> r ≠ [] -> ¬ q `prefix_of` logFile config ->
       Fs.lookup (fs w) q = Some x -> Fs.lookup (fs w') q = Some (Fs.remove r x).

(** From [w] to [w'] only entries below [p] went. *)
Definition thinned (config : Config) (p : path) (w w' : World) : Prop :=
  forall q r x, p = q ++ r -> r ≠ [] -> ¬ q `prefix_of` logFile config ->
    Fs.lookup (fs w) q = Some x ->
    exists x', Fs.lookup (fs w') q = Some x' /\ Fs.remove r x' = Fs.remove r x.

(** Directories that hold only directories, three levels deep. *)
Definition hollowTree : node :=
  Dir true
    [("src", Dir true
       [("index.ts", File noon "export {}" true);
        ("old", Dir true
           [("a", Dir true []);
            ("b", Dir true [("c", Dir true [])])])])].

(** * Facts *)

(** ** The runtime model on samples *)

Example extname_samples :
  map Path.extnameOf ["debug.log"; ".DS_Store"; "Thumbs.db"; "a.b.c"; ".."; "..."; "index."; "noext"]
  = [".log"; ""; ".db"; ".c"; ""; "."; "."; ""].
Proof. reflexivity. Qed.

Example essential_samples :
  map (fun n => isEssentialFile getDefaultConfig ["src"; n])
      ["README.md"; ".env.local"; "package-lock.json"; "tsconfig.app.json";
       "debug.log"; "xREADME.md"; "README.mdx"; "a.env"; "app.config.json"]
  = [true; true; true; true; false; true; false; false; true].
Proof. vm_compute. reflexivity. Qed.

Example parse_2024_01_20 : Date.parseISODate "2024-01-20" = Some 1705708800000%Z.
Proof. reflexivity. Qed.

Example iso_2024_01_20 :
  Date.toISOString 1705752000123 = "2024-01-20T12:00:00.123Z"
  /\ hd "" (Js.split "T" (Date.toISOString 1705752000123)) = "2024-01-20".
Proof. split; reflexivity. Qed.

Example parse_rejects :
  map Date.parseISODate ["2024-02-30"; "2024-13-01"; "notes"; "2024-1-20"; "2023-02-29"]
  = [None; None; None; None; None].
Proof. reflexivity. Qed.

(** ** Paths *)

Lemma basename_join dirPath item : Path.basename (Path.join dirPath item) = item.
Proof. unfold Path.basename, Path.join. apply last_last. Qed.

Lemma extname_join dirPath item :
  Path.extname (Path.join dirPath item) = Path.extnameOf item.
Proof. unfold Path.extname. now rewrite basename_join. Qed.

Lemma join_apart B (x d : string) :
  x ≠ d ->
  ¬ Path.join B x `prefix_of` Path.join B d /\ ¬ Path.join B d `prefix_of` Path.join B x.
Proof.
  intros Hne. unfold Path.join. split; intros [k Hk];
    rewrite <- app_assoc in Hk; apply app_inv_head in Hk; simpl in Hk; congruence.
Qed.

Lemma join_not_nil B (x : string) : Path.join B x ≠ [].
Proof. unfold Path.join. destruct B; discriminate. Qed.

(** ** The tree *)

Section FsFacts.
Import Fs.

Lemma eqb_name_neq (n m : string) : n ≠ m -> String.eqb n m = false.
Proof. intros H. now apply String.eqb_neq. Qed.

Lemma entryGet_put_same n x es : entryGet n (entryPut n x es) = Some x.
Proof.
  induction es as [|[m y] es IH]; simpl.
  - now rewrite String.eqb_refl.
  - destruct (String.eqb m n) eqn:E; simpl; rewrite E; auto.
Qed.

Lemma entryGet_put_other n m x es :
  n ≠ m -> entryGet m (entryPut n x es) = entryGet m es.
Proof.
  intros Hne. induction es as [|[k y] es IH]; simpl.
  - now rewrite (eqb_name_neq n m).
  - destruct (String.eqb k n) eqn:E; simpl.
    + apply String.eqb_eq in E. subst k. now rewrite (eqb_name_neq n m).
    + now rewrite IH.
Qed.

Lemma entryGet_del_same n es : entryGet n (entryDel n es) = None.
Proof.
  induction es as [|[m y] es IH]; simpl; auto.
  destruct (String.eqb m n) eqn:E; simpl; auto. now rewrite E.
Qed.

Lemma entryGet_del_other n m es :
  n ≠ m -> entryGet m (entryDel n es) = entryGet m es.
Proof.
  intros Hne. induction es as [|[k y] es IH]; simpl; auto.
  destruct (String.eqb k n) eqn:E; simpl.
  - apply String.eqb_eq in E. subst k. now rewrite (eqb_name_neq n m).
  - now rewrite IH.
Qed.

Lemma entryGet_some_nonempty n es x : entryGet n es = Some x -> es ≠ [].
Proof. destruct es; discriminate. Qed.

Lemma lookup_nil t : lookup t [] = Some t.
Proof. reflexivity. Qed.

Lemma lookup_cons t n p :
  lookup t (n :: p) =
  match t with
  | Dir _ es => match entryGet n es with Some c => lookup c p | None => None end
  | _ => None
  end.
Proof. reflexivity. Qed.

Lemma lookup_app t q r :
  lookup t (q ++ r) = match lookup t q with Some c => lookup c r | None => None end.
Proof.
  revert t. induction q as [|n q IH]; intros t; cbn [lookup app]; auto.
  destruct t; auto. destruct (entryGet n entries); auto.
Qed.

(** Whatever lies strictly below a path sits in a non-empty directory. *)
Lemma lookup_below t q n r x :
  lookup t (q ++ n :: r) = Some x ->
  exists l es, lookup t q = Some (Dir l es) /\ es ≠ [].
Proof.
  rewrite lookup_app. destruct (lookup t q) as [c|]; [|discriminate].
  cbn [lookup]. destruct c; try discriminate.
  destruct (entryGet n entries) eqn:E; [|discriminate].
  intros _. exists listable, entries. split; auto. eapply entryGet_some_nonempty; eauto.
Qed.

Lemma lookup_remove_same q t : q ≠ [] -> lookup (remove q t) q = None.
Proof.
  revert t. induction q as [|n q IH]; intros t Hq; [congruence|].
  cbn [remove lookup]. destruct t; auto.
  destruct q as [|m q'].
  - cbn [lookup]. now rewrite entryGet_del_same.
  - destruct (entryGet n entries) eqn:E.
    + cbn [lookup]. rewrite entryGet_put_same. apply IH. discriminate.
    + cbn [lookup]. now rewrite E.
Qed.

Lemma lookup_remove_apart q t p :
  ¬ q `prefix_of` p -> ¬ p `prefix_of` q -> lookup (remove q t) p = lookup t p.
Proof.
  revert t p. induction q as [|n q IH]; intros t p Hqp Hpq.
  - exfalso. apply Hqp. apply prefix_nil.
  - destruct p as [|m p]; [exfalso; apply Hpq, prefix_nil|].
    cbn [remove]. destruct t; auto.
    destruct (decide (n = m)) as [->|Hne].
    + assert (Hq' : ¬ q `prefix_of` p) by (intros H; apply Hqp; now apply prefix_cons).
      assert (Hp' : ¬ p `prefix_of` q) by (intros H; apply Hpq; now apply prefix_cons).
      destruct q as [|k q']; [exfalso; apply Hq', prefix_nil|].
      destruct (entryGet m entries) eqn:E; cbn [lookup].
      * rewrite entryGet_put_same, E. now apply IH.
      * reflexivity.
    + destruct q as [|k q'].
      * cbn [lookup]. now rewrite entryGet_del_other.
      * destruct (entryGet n entries) eqn:E; auto.
        cbn [lookup]. now rewrite entryGet_put_other.
Qed.

Lemma kindAt_remove q t p :
  ¬ q `prefix_of` p -> kindAt (remove q t) p = kindAt t p.
Proof.
  revert t p. induction q as [|n q IH]; intros t p Hqp.
  - exfalso. apply Hqp, prefix_nil.
  - cbn [remove]. destruct t; auto.
    destruct p as [|m p].
    + destruct q; [reflexivity|]. destruct (entryGet n entries); reflexivity.
    + destruct (decide (n = m)) as [->|Hne].
      * assert (Hq' : ¬ q `prefix_of` p) by (intros H; apply Hqp; now apply prefix_cons).
        destruct q as [|k q']; [exfalso; apply Hq', prefix_nil|].
        destruct (entryGet m entries) eqn:E; auto.
        unfold kindAt. cbn [lookup]. rewrite entryGet_put_same, E. now apply IH.
      * destruct q as [|k q'].
        -- unfold kindAt. cbn [lookup]. now rewrite entryGet_del_other.
        -- destruct (entryGet n entries) eqn:E; auto.
           unfold kindAt. cbn [lookup]. now rewrite entryGet_put_other.
Qed.

Lemma kindAt_put q x t p :
  ¬ q `prefix_of` p -> kindAt (put q x t) p = kindAt t p.
Proof.
  revert t p. induction q as [|n q IH]; intros t p Hqp.
  - exfalso. apply Hqp, prefix_nil.
  - cbn [put]. destruct t; auto.
    destruct p as [|m p].
    + destruct q; [reflexivity|]. destruct (entryGet n entries); reflexivity.
    + destruct (decide (n = m)) as [->|Hne].
      * assert (Hq' : ¬ q `prefix_of` p) by (intros H; apply Hqp; now apply prefix_cons).
        destruct q as [|k q']; [exfalso; apply Hq', prefix_nil|].
        destruct (entryGet m entries) eqn:E; auto.
        unfold kindAt. cbn [lookup]. rewrite entryGet_put_same, E. now apply IH.
      * destruct q as [|k q'].
        -- unfold kindAt. cbn [lookup]. now rewrite entryGet_put_other.
        -- destruct (entryGet n entries) eqn:E; auto.
           unfold kindAt. cbn [lookup]. now rewrite entryGet_put_other.
Qed.

Lemma lookup_put_same q x t :
  q ≠ [] -> isDir t (Path.dirname q) = true -> lookup (put q x t) q = Some x.
Proof.
  revert t. induction q as [|n q IH]; intros t Hq Hd; [congruence|].
  unfold isDir, Path.dirname in Hd.
  destruct q as [|m q'].
  - cbn [removelast lookup] in Hd. destruct t; try discriminate.
    cbn [put lookup]. now rewrite entryGet_put_same.
  - change (removelast (n :: m :: q')) with (n :: removelast (m :: q')) in Hd.
    cbn [lookup] in Hd. destruct t; try discriminate.
    destruct (entryGet n entries) eqn:E; [|discriminate].
    cbn [put]. rewrite E. cbn [lookup]. rewrite entryGet_put_same.
    apply IH; [discriminate|]. unfold isDir, Path.dirname. exact Hd.
Qed.

Lemma kindAt_mkdirp q t t' p k :
  mkdirp q t = Some t' -> kindAt t p = Some k -> kindAt t' p = Some k.
Proof.
  revert t t' p. induction q as [|n q IH]; intros t t' p Hm Hk.
  - cbn [mkdirp] in Hm. destruct t; try discriminate. now inversion Hm; subst.
  - cbn [mkdirp] in Hm. destruct t; try discriminate.
    destruct (mkdirp q (default (Dir true []) (entryGet n entries))) as [c'|] eqn:E;
      [|discriminate].
    inversion Hm; subst t'; clear Hm.
    destruct p as [|m p]; [exact Hk|].
    unfold kindAt in *. cbn [lookup] in *.
    destruct (decide (n = m)) as [->|Hne].
    + rewrite entryGet_put_same.
      destruct (entryGet m entries) as [c|] eqn:G; [|discriminate].
      simpl in E. eapply IH; eauto.
    + now rewrite entryGet_put_other.
Qed.


(** Files are out of the way of what happens elsewhere. *)
Lemma lookup_file_below t p a c r x :
  lookup t p = Some (File a c r) -> x ≠ [] -> lookup t (p ++ x) = None.
Proof.
  intros Hp Hx. rewrite lookup_app, Hp. destruct x; [congruence|reflexivity].
Qed.

Lemma isDir_dirname t q x :
  lookup t q = Some x -> q ≠ [] -> isDir t (Path.dirname q) = true.
Proof.
  intros Hq Hne. unfold Path.dirname.
  destruct (exists_last Hne) as (q' & n & ->).
  rewrite removelast_last. unfold isDir.
  destruct (lookup_below t q' n [] x Hq) as (l & es & -> & _). reflexivity.
Qed.

Lemma lookup_remove_file q : forall t p a c r,
  lookup t p = Some (File a c r) -> ¬ q `prefix_of` p ->
  lookup (remove q t) p = Some (File a c r).
Proof.
  induction q as [|n q IH]; intros t p a c r Hp Hqp.
  - exfalso. apply Hqp, prefix_nil.
  - cbn [remove]. destruct t; auto.
    destruct p as [|m p]; [discriminate Hp|].
    cbn [lookup] in Hp.
    destruct (entryGet m entries) as [c0|] eqn:E; [|discriminate].
    destruct (decide (n = m)) as [->|Hne].
    + assert (Hq' : ¬ q `prefix_of` p) by (intros H; apply Hqp; now apply prefix_cons).
      destruct q as [|k q']; [exfalso; apply Hq', prefix_nil|].
      rewrite E. cbn [lookup]. rewrite entryGet_put_same. now apply IH.
    + destruct q as [|k q'].
      * cbn [lookup]. rewrite entryGet_del_other, E; auto.
      * destruct (entryGet n entries) eqn:G; cbn [lookup].
        -- rewrite entryGet_put_other, E; auto.
        -- now rewrite E.
Qed.

Lemma lookup_put_apart q x t p :
  ¬ q `prefix_of` p -> ¬ p `prefix_of` q -> lookup (put q x t) p = lookup t p.
Proof.
  revert t p. induction q as [|n q IH]; intros t p Hqp Hpq.
  - exfalso. apply Hqp. apply prefix_nil.
  - destruct p as [|m p]; [exfalso; apply Hpq, prefix_nil|].
    cbn [put]. destruct t; auto.
    destruct (decide (n = m)) as [->|Hne].
    + assert (Hq' : ¬ q `prefix_of` p) by (intros H; apply Hqp; now apply prefix_cons).
      assert (Hp' : ¬ p `prefix_of` q) by (intros H; apply Hpq; now apply prefix_cons).
      destruct q as [|k q']; [exfalso; apply Hq', prefix_nil|].
      destruct (entryGet m entries) eqn:E; cbn [lookup].
      * rewrite entryGet_put_same, E. now apply IH.
      * reflexivity.
    + destruct q as [|k q'].
      * cbn [lookup]. now rewrite entryGet_put_other.
      * destruct (entryGet n entries) eqn:E; auto.
        cbn [lookup]. now rewrite entryGet_put_other.
Qed.

Lemma lookup_put_file t dst x p a c r :
  isDir t (Path.dirname dst) = true ->
  (forall l es, lookup t dst ≠ Some (Dir l es)) ->
  lookup t p = Some (File a c r) -> p ≠ dst ->
  lookup (put dst x t) p = Some (File a c r).
Proof.
  intros Hdir Hnd Hp Hne.
  destruct (decide (dst `prefix_of` p)) as [[k ->]|Hdp].
  - destruct k as [|n k]; [now rewrite app_nil_r in Hne|].
    destruct (lookup_below t dst n k _ Hp) as (l & es & Hd & _).
    now destruct (Hnd l es).
  - destruct (decide (p `prefix_of` dst)) as [[k ->]|Hpd].
    + destruct k as [|n k]; [now rewrite app_nil_r in Hne|].
      exfalso. unfold isDir, Path.dirname in Hdir.
      destruct (exists_last (l := n :: k)) as (k' & z & Hk); [discriminate|].
      rewrite Hk, app_assoc, removelast_last, lookup_app, Hp in Hdir.
      destruct k'; discriminate.
    + rewrite lookup_put_apart; auto.
Qed.

Lemma lookup_mkdirp_file q : forall t t' p a c r,
  mkdirp q t = Some t' ->
  (lookup t' p = Some (File a c r) <-> lookup t p = Some (File a c r)).
Proof.
  induction q as [|n q IH]; intros t t' p a c r Hm.
  - cbn [mkdirp] in Hm. destruct t; try discriminate. now inversion Hm; subst.
  - cbn [mkdirp] in Hm. destruct t; try discriminate.
    destruct (mkdirp q (default (Dir true []) (entryGet n entries))) as [c'|] eqn:E;
      [|discriminate].
    inversion Hm; subst t'; clear Hm.
    destruct p as [|m p]; [cbn [lookup]; split; discriminate|].
    cbn [lookup].
    destruct (decide (n = m)) as [->|Hne].
    + rewrite entryGet_put_same.
      rewrite (IH _ _ p a c r E).
      destruct (entryGet m entries) as [c0|]; [reflexivity|].
      cbn [default]. destruct p; cbn [lookup entryGet]; split; discriminate.
    + now rewrite entryGet_put_other.
Qed.

Lemma lookup_mkdirp_none q : forall t t' p,
  mkdirp q t = Some t' -> ¬ p `prefix_of` q -> lookup t p = None ->
  lookup t' p = None.
Proof.
  induction q as [|n q IH]; intros t t' p Hm Hpq Hp.
  - cbn [mkdirp] in Hm. destruct t; try discriminate. now inversion Hm; subst.
  - cbn [mkdirp] in Hm. destruct t; try discriminate.
    destruct (mkdirp q (default (Dir true []) (entryGet n entries))) as [c'|] eqn:E;
      [|discriminate].
    inversion Hm; subst t'; clear Hm.
    destruct p as [|m p]; [exfalso; apply Hpq, prefix_nil|].
    cbn [lookup] in *.
    destruct (decide (n = m)) as [->|Hne].
    + rewrite entryGet_put_same.
      assert (Hp' : ¬ p `prefix_of` q) by (intros H; apply Hpq; now apply prefix_cons).
      apply (IH _ _ p E Hp').
      destruct (entryGet m entries) as [c0|]; [exact Hp|].
      cbn [default]. destruct p; [exfalso; apply Hp', prefix_nil|reflexivity].
    + now rewrite entryGet_put_other.
Qed.

Lemma entryDel_idem n es : entryDel n (entryDel n es) = entryDel n es.
Proof.
  induction es as [|[m y] es IH]; cbn [entryDel]; auto.
  destruct (String.eqb m n) eqn:E; auto. cbn [entryDel]. rewrite E. now f_equal.
Qed.

Lemma entryDel_put n x es : entryDel n (entryPut n x es) = entryDel n es.
Proof.
  induction es as [|[m y] es IH]; cbn [entryPut entryDel].
  - now rewrite String.eqb_refl.
  - destruct (String.eqb m n) eqn:E; cbn [entryDel]; rewrite E;
      [reflexivity | now f_equal].
Qed.

Lemma entryPut_put n x y es : entryPut n x (entryPut n y es) = entryPut n x es.
Proof.
  induction es as [|[m z] es IH]; cbn [entryPut].
  - now rewrite String.eqb_refl.
  - destruct (String.eqb m n) eqn:E; cbn [entryPut]; rewrite E;
      [reflexivity | now f_equal].
Qed.

Lemma entryDel_absent n es : n ∉ map fst es -> entryDel n es = es.
Proof.
  induction es as [|[m y] es IH]; cbn [entryDel map fst]; auto.
  intros H. apply not_elem_of_cons in H as [H1 H2]. cbn in H1.
  rewrite (eqb_name_neq m n) by congruence. f_equal. auto.
Qed.

(** Above a removed path the directories lose that path and nothing else. *)
Lemma lookup_remove_above q : forall t r x,
  r ≠ [] -> lookup t q = Some x -> lookup (remove (q ++ r) t) q = Some (remove r x).
Proof.
  induction q as [|n q IH]; intros t r x Hr Hq.
  - cbn [lookup] in Hq. injection Hq as ->. reflexivity.
  - cbn [lookup] in Hq. destruct t; try discriminate.
    destruct (entryGet n entries) as [c|] eqn:E; [|discriminate].
    cbn [app remove]. rewrite E.
    destruct (q ++ r) as [|k qr] eqn:Eqr.
    { destruct q; cbn in Eqr; [congruence | discriminate]. }
    rewrite <- Eqr. cbn [lookup]. rewrite entryGet_put_same. now apply IH.
Qed.

(** Removing a path makes an earlier removal below it irrelevant. *)
Lemma remove_absorb r : forall s x, r ≠ [] -> remove r (remove (r ++ s) x) = remove r x.
Proof.
  induction r as [|n r IH]; intros s x Hr; [congruence|].
  destruct x; try reflexivity.
  destruct r as [|m r'].
  - cbn [app]. destruct s as [|k s'].
    + cbn [remove]. now rewrite entryDel_idem.
    + cbn [remove]. destruct (entryGet n entries) eqn:E.
      * cbn [remove]. now rewrite entryDel_put.
      * reflexivity.
  - cbn [remove app]. destruct (entryGet n entries) eqn:E.
    + cbn [remove]. rewrite entryGet_put_same, entryPut_put.
      f_equal. f_equal. apply IH. discriminate.
    + cbn [remove]. now rewrite E.
Qed.

Lemma lookup_put_keep dst y t q x :
  lookup t q = Some x -> ¬ q `prefix_of` dst ->
  (forall l es, lookup t dst ≠ Some (Dir l es)) ->
  lookup (put dst y t) q = Some x.
Proof.
  intros Hq Hqd Hdir.
  destruct (decide (dst `prefix_of` q)) as [[k ->]|Hdq].
  - destruct k as [|n k]; [exfalso; apply Hqd; rewrite app_nil_r; reflexivity|].
    destruct (lookup_below _ _ _ _ _ Hq) as (l & es & Hd & _).
    now destruct (Hdir l es).
  - now rewrite lookup_put_apart.
Qed.

Lemma lookup_mkdirp_keep q : forall t t' p x,
  mkdirp q t = Some t' -> ¬ p `prefix_of` q -> lookup t p = Some x ->
  lookup t' p = Some x.
Proof.
  induction q as [|n q IH]; intros t t' p x Hm Hpq Hp.
  - cbn [mkdirp] in Hm. destruct t; try discriminate. now inversion Hm; subst.
  - cbn [mkdirp] in Hm. destruct t; try discriminate.
    destruct (mkdirp q (default (Dir true []) (entryGet n entries))) as [c'|] eqn:E;
      [|discriminate].
    inversion Hm; subst t'; clear Hm.
    destruct p as [|m p]; [exfalso; apply Hpq, prefix_nil|].
    cbn [lookup] in *.
    destruct (decide (n = m)) as [->|Hne].
    + rewrite entryGet_put_same.
      assert (Hp' : ¬ p `prefix_of` q) by (intros H; apply Hpq; now apply prefix_cons).
      destruct (entryGet m entries) as [c0|]; [|discriminate].
      apply (IH _ _ p x E Hp' Hp).
    + now rewrite entryGet_put_other.
Qed.

(** A file written where a file is changes no kind, and nothing else. *)
Lemma kindAt_put_file q t p a c r a' c' r' :
  lookup t q = Some (File a c r) ->
  kindAt (put q (File a' c' r') t) p = kindAt t p.
Proof.
  intros Hq. destruct (decide (q `prefix_of` p)) as [[k ->]|Hqp]; [|now apply kindAt_put].
  destruct q as [|n q0].
  - cbn [lookup] in Hq. injection Hq as ->. cbn [put app]. destruct k; reflexivity.
  - assert (Hd : isDir t (Path.dirname (n :: q0)) = true)
      by (eapply isDir_dirname; [exact Hq | discriminate]).
    unfold kindAt. rewrite !lookup_app, lookup_put_same, Hq by (auto; discriminate).
    destruct k; reflexivity.
Qed.

End FsFacts.

#[global] Arguments Fs.remove : simpl never.
#[global] Arguments Fs.put : simpl never.
#[global] Arguments Fs.mkdirp : simpl never.
#[global] Arguments Fs.lookup : simpl never.

Lemma height_entry l es item c :
  Fs.entryGet item es = Some c -> height c < height (Dir l es).
Proof.
  cbn [height]. induction es as [|[n x] es IH]; [discriminate|].
  cbn [Fs.entryGet]. destruct (String.eqb n item).
  - intros [= ->]. lia.
  - intros H. specialize (IH H). lia.
Qed.

Lemma heightAt_subdirectory t dirPath item :
  fsStat t (Path.join dirPath item) = Ok StatDirectory ->
  heightAt t (Path.join dirPath item) < heightAt t dirPath.
Proof.
  unfold fsStat, heightAt, Path.join. rewrite lookup_app.
  destruct (Fs.lookup t dirPath) as [d|]; [|discriminate].
  rewrite lookup_cons. destruct d; try discriminate.
  destruct (Fs.entryGet item entries) as [c|] eqn:E; [|discriminate].
  rewrite lookup_nil. intros _. now apply (height_entry listable entries item c).
Qed.

Lemma isFile_kindAt t p : Fs.isFile t p = true <-> kindAt t p = Some KFile.
Proof.
  unfold Fs.isFile, kindAt. destruct (Fs.lookup t p) as [[]|]; simpl; split; congruence.
Qed.

Lemma isDir_kindAt t p : Fs.isDir t p = true <-> kindAt t p = Some KDir.
Proof.
  unfold Fs.isDir, kindAt. destruct (Fs.lookup t p) as [[]|]; simpl; split; congruence.
Qed.

Lemma readdir_exists t p names : fsReaddir t p = Ok names -> fsExists t p = true.
Proof.
  unfold fsReaddir, fsExists. destruct (Fs.lookup t p) as [[| [] | |]|]; congruence.
Qed.

(** ** Relations kept along a computation *)

Section Steps.
Context {S : Type} (R : S -> S -> Prop).
Hypothesis R_refl : forall s, R s s.
Hypothesis R_trans : forall a b c, R a b -> R b c -> R a c.

Lemma steps_same {A} (m : M S A) : (forall s, exec m s = s) -> steps R m.
Proof using R_refl. intros H s. rewrite H. apply R_refl. Qed.

Lemma steps_ret {A} (a : A) : steps R (mret a).
Proof using R_refl. apply steps_same. reflexivity. Qed.

Lemma steps_throw {A} e : steps R (@throw S A e).
Proof using R_refl. apply steps_same. reflexivity. Qed.

Lemma steps_gets {A} (f : S -> A) : steps R (gets f).
Proof using R_refl. apply steps_same. reflexivity. Qed.

Lemma steps_bind {A B} (m : M S A) (k : A -> M S B) :
  steps R m -> (forall a, steps R (k a)) -> steps R (m ≫= k).
Proof using R_trans.
  intros Hm Hk s. specialize (Hm s). unfold exec, mbind, M_bind, bind in *.
  destruct (m s) as [[a|e] s1]; simpl in *; auto.
  eapply R_trans; [exact Hm|]. apply Hk.
Qed.

Lemma steps_tryCatch {A} (body : M S A) (h : error -> M S A) :
  steps R body -> (forall e, steps R (h e)) -> steps R (tryCatch body h).
Proof using R_trans.
  intros Hm Hk s. specialize (Hm s). unfold exec, tryCatch in *.
  destruct (body s) as [[a|e] s1]; simpl in *; auto.
  eapply R_trans; [exact Hm|]. apply Hk.
Qed.

Lemma steps_forOf {A} (items : list A) (body : A -> M S unit) :
  (forall x, steps R (body x)) -> steps R (forOf items body).
Proof using R_refl R_trans.
  intros H. induction items as [|x xs IH]; simpl.
  - apply steps_ret.
  - apply (steps_bind (body x) (fun _ => forOf xs body)). all: auto.
Qed.

Lemma steps_when (b : bool) (m : M S unit) : steps R m -> steps R (when b m).
Proof using R_refl. destruct b; simpl; auto using steps_ret. Qed.

End Steps.

Section Returns.
Context {S : Type}.

Lemma returns_ret {A} (a : A) : returns (mret a : M S A).
Proof. intros s. now exists a. Qed.

Lemma returns_modify (f : S -> S) : returns (modify f).
Proof. intros s. now exists tt. Qed.

Lemma returns_gets {A} (f : S -> A) : returns (gets f).
Proof. intros s. now exists (f s). Qed.

Lemma returns_bind {A B} (m : M S A) (k : A -> M S B) :
  returns m -> (forall a, returns (k a)) -> returns (m ≫= k).
Proof.
  intros Hm Hk s. destruct (Hm s) as [a Ha].
  unfold result, mbind, M_bind, bind in *.
  destruct (m s) as [o s1]. simpl in Ha. subst o. apply Hk.
Qed.

(** A [try] whose handler returns lets nothing escape. *)
Lemma returns_tryCatch {A} (body : M S A) (h : error -> M S A) :
  (forall e, returns (h e)) -> returns (tryCatch body h).
Proof.
  intros Hh s. unfold result, tryCatch.
  destruct (body s) as [[a|e] s1]; [now exists a | apply Hh].
Qed.

Lemma returns_forOf {A} (items : list A) (body : A -> M S unit) :
  (forall x, returns (body x)) -> returns (forOf items body).
Proof.
  intros H. induction items as [|x xs IH]; simpl.
  - apply returns_ret.
  - apply (returns_bind (body x) (fun _ => forOf xs body)); auto.
Qed.

Lemma returns_when (b : bool) (m : M S unit) : returns m -> returns (when b m).
Proof. destruct b; simpl; auto. intros _. apply returns_ret. Qed.

Lemma returns_run {A} (m : M S A) s : returns m -> exists a s', m s = (Ok a, s').
Proof.
  intros H. destruct (H s) as [a Ha]. unfold result in Ha.
  destruct (m s) as [o s']. simpl in Ha. subst. eauto.
Qed.

End Returns.

Create HintDb steps.

(** One step through the shape of a computation. *)
Ltac mstep :=
  lazymatch goal with
  | |- steps _ (mbind _ _) => apply steps_bind; [solve [eauto with steps] | | intros ?]
  | |- steps _ (tryCatch _ _) => apply steps_tryCatch; [solve [eauto with steps] | | intros ?]
  | |- steps _ (when _ _) => apply steps_when; [solve [eauto with steps] | ]
  | |- steps _ (mret _) => apply steps_ret; solve [eauto with steps]
  | |- steps _ (throw _) => apply steps_throw; solve [eauto with steps]
  | |- steps _ (gets _) => apply steps_gets; solve [eauto with steps]
  | |- steps _ (forOf _ _) =>
      apply steps_forOf; [solve [eauto with steps] | solve [eauto with steps] | intros ?]
  | |- steps _ (if negb ?b then _ else _) => destruct b eqn:?; cbn [negb]
  | |- steps _ (if ?b then _ else _) => destruct b eqn:?
  | |- steps _ (match ?x with _ => _ end) => destruct x eqn:?
  end.

(** Closed goals: split the conjunctions, then evaluate each part. *)
Ltac evaluate :=
  repeat match goal with |- _ /\ _ => split end; vm_compute; reflexivity.

Ltac msteps := repeat (first [ solve [simpl; eauto with steps] | mstep ]).

Lemma returns_print m : returns (print m).
Proof. apply returns_modify. Qed.

Lemma returns_say n : returns (say n).
Proof. apply returns_modify. Qed.

(** ** The traversal spares the essentials *)

Section Sparing.
Variable engineDateParse : string -> option Z.
Variable config : Config.
Local Abbreviation sparing := (sparing engineDateParse config).
Local Abbreviation guarded := (guarded engineDateParse config).
Local Abbreviation spared := (steps sparing).

Lemma protected_kindAt t t' p :
  kindAt t' p = kindAt t p -> protected config t p -> protected config t' p.
Proof. unfold protected. intros ->. auto. Qed.

Lemma protected_exists t p : protected config t p -> exists x, Fs.lookup t p = Some x.
Proof.
  unfold protected, kindAt.
  destruct (Fs.lookup t p); [eauto|]. intros [[_ (k & H & _)]|[_ H]]; discriminate.
Qed.

(** A protected path strictly below [q] makes [q] a non-empty directory. *)
Lemma protected_not_below t q p :
  protected config t p -> q `prefix_of` p -> q ≠ p ->
  exists l es, Fs.lookup t q = Some (Dir l es) /\ es ≠ [].
Proof.
  intros Hp [r ->] Hne. destruct r as [|n r]; [now rewrite app_nil_r in Hne|].
  destruct (protected_exists _ _ Hp) as [x Hx]. eapply lookup_below; eauto.
Qed.

Lemma sparing_refl w : sparing w w.
Proof.
  split; [|split; [|split]]; auto.
  - exists []. now rewrite app_nil_r.
  - exists []. now rewrite app_nil_r.
Qed.

Lemma sparing_trans a b c : sparing a b -> sparing b c -> sparing a c.
Proof.
  intros ([n1 [E1 F1]] & [q1 [G1 K1]] & C1 & P1) ([n2 [E2 F2]] & [q2 [G2 K2]] & C2 & P2).
  split; [|split; [|split]]; auto.
  - exists (n1 ++ n2). rewrite E2, E1, app_assoc. split; auto. apply Forall_app; auto.
  - exists (q1 ++ q2). rewrite G2, G1, app_assoc. split; auto. apply Forall_app; auto.
  - congruence.
Qed.

(** A change of the tree under which the guarded paths stay protected. *)
Lemma sparing_guarded w t :
  (forall p, guarded w p -> protected config t p) -> sparing w (setFs t w).
Proof.
  intros H. split; [|split; [|split]]; simpl; auto.
  - exists []. now rewrite app_nil_r.
  - exists []. now rewrite app_nil_r.
  - intros p Hp. destruct (Hp) as (_ & Hf & Hb). split; [apply H, Hp|]. now split.
Qed.

Lemma sparing_setFs w t :
  (forall p, protected config (fs w) p -> protected config t p) ->
  sparing w (setFs t w).
Proof. intros H. apply sparing_guarded. intros p Hp. apply H, Hp. Qed.

Lemma spared_print m : spares config m -> spared (print m).
Proof.
  intros H w. split; [|split; [|split]]; simpl; auto.
  - exists [m]. split; auto.
  - exists []. now rewrite app_nil_r.
Qed.

Lemma spared_question q : sparesAsking config q -> spared (rlQuestion q).
Proof.
  intros H w. split; [|split; [|split]]; simpl; auto.
  - exists []. now rewrite app_nil_r.
  - destruct (pending w) as [|q0 qs]; simpl.
    + exists [q]. split; auto.
    + exists []. now rewrite app_nil_r.
Qed.

Lemma spared_exists p : spared (existsSync p).
Proof. apply steps_gets, sparing_refl. Qed.

Lemma spared_now : spared now.
Proof. apply steps_gets, sparing_refl. Qed.

Lemma spared_stat p : spared (statSync p).
Proof. apply steps_same; [apply sparing_refl | reflexivity]. Qed.

Lemma spared_readdir p : spared (readdirSync p).
Proof. apply steps_same; [apply sparing_refl | reflexivity]. Qed.

(** [unlink] takes away what is no directory, so never anything below it;
    the caller has checked that the name is not essential. *)
Lemma spared_unlink q : isEssentialFile config q = false -> spared (unlinkSync q).
Proof.
  intros Hq w. unfold exec, unlinkSync.
  assert (Hkeep : forall p, protected config (fs w) p ->
            kindAt (fs w) q <> Some KDir ->
            protected config (Fs.remove q (fs w)) p).
  { intros p Hp Hk. eapply protected_kindAt; [|exact Hp].
    apply kindAt_remove. intros Hpre.
    destruct (decide (q = p)) as [->|Hne].
    - destruct Hp as [[H1 _]|[_ H2]]; congruence.
    - destruct (protected_not_below _ _ _ Hp Hpre Hne) as (l & es & Hl & _).
      apply Hk. unfold kindAt. now rewrite Hl. }
  destruct (isRoot q); [apply sparing_refl|].
  destruct (Fs.lookup (fs w) q) as [[]|] eqn:E; simpl;
    try apply sparing_refl; apply sparing_setFs; intros p Hp; apply Hkeep; auto;
    unfold kindAt; rewrite E; discriminate.
Qed.

(** [rmdir] takes an empty directory away, so nothing else with it; the
    caller has checked that its name is not essential, or it is
    [frontend]. *)
Lemma spared_rmdir q :
  isEssentialDirectory config q = false \/ q = frontend -> spared (rmdirSync q).
Proof.
  intros Hq w. unfold exec, rmdirSync.
  destruct (isRoot q); [apply sparing_refl|].
  destruct (Fs.lookup (fs w) q) as [[| l [|e es] | |]|] eqn:E; simpl;
    try apply sparing_refl.
  apply sparing_guarded. intros p (Hp & Hf & _). eapply protected_kindAt; [|exact Hp].
  apply kindAt_remove. intros Hpre.
  destruct (decide (q = p)) as [<-|Hne].
  - destruct Hq as [Hq|Hq]; [|congruence].
    destruct Hp as [[_ (k & H2 & Hk)]|[H1 _]]; [|congruence].
    unfold kindAt in H2. rewrite E in H2. injection H2 as <-. now apply Hk.
  - destruct (protected_not_below _ _ _ Hp Hpre Hne) as (l' & es & Hl & Hes).
    rewrite E in Hl. inversion Hl. subst. congruence.
Qed.

(** The recursive removal of a partition that is past retention. *)
Lemma sparing_rmdirRecursive dateDir w :
  createBackups (options config) = true ->
  expired engineDateParse config (clock w) dateDir = true ->
  sparing w (exec (rmdirSyncRecursive (Path.join (backupDir config) dateDir)) w).
Proof.
  intros Hon Hd. unfold exec, rmdirSyncRecursive.
  destruct (isRoot _); [apply sparing_refl|].
  destruct (Fs.lookup (fs w) _) as [[]|] eqn:E; simpl; try apply sparing_refl.
  apply sparing_guarded. intros p (Hp & _ & Hb). eapply protected_kindAt; [|exact Hp].
  apply kindAt_remove. now apply Hb.
Qed.

Lemma spared_mkdir p : spared (mkdirSync p).
Proof.
  intros w. unfold exec, mkdirSync.
  destruct (Fs.mkdirp p (fs w)) as [t|] eqn:E; simpl; [|apply sparing_refl].
  apply sparing_setFs. intros q [[H1 (k & H2 & Hk)]|[H1 H2]]; [left|right]; split; auto.
  - exists k. split; [|exact Hk]. eapply kindAt_mkdirp; eauto.
  - eapply kindAt_mkdirp; eauto.
Qed.

(** Writing a regular file where [writable] allows it. *)
Lemma protected_put_file t dst a c r :
  writable t dst = None ->
  forall p, protected config t p -> protected config (Fs.put dst (File a c r) t) p.
Proof.
  unfold writable. intros Hw p Hp.
  destruct (Fs.isDir t (Path.dirname dst)) eqn:Hd; [|discriminate]. simpl in Hw.
  destruct (isRoot dst) eqn:Hroot; [discriminate|].
  assert (Hnil : dst <> []) by (destruct dst; discriminate).
  destruct (decide (dst `prefix_of` p)) as [Hpre|Hpre].
  - destruct (decide (dst = p)) as [<-|Hne].
    + destruct Hp as [[H1 H2]|[H1 H2]].
      * left. split; auto. exists KFile. split; [|discriminate].
        unfold kindAt. now rewrite lookup_put_same.
      * unfold kindAt in H2. destruct (Fs.lookup t dst) as [[]|]; discriminate.
    + destruct (protected_not_below _ _ _ Hp Hpre Hne) as (l' & es & Hl & Hes).
      rewrite Hl in Hw. discriminate.
  - eapply protected_kindAt; [|exact Hp]. now apply kindAt_put.
Qed.

(** Whether a file can be written does not depend on what files hold. *)
Lemma writable_put_file t src a c r a' c' r' dst :
  Fs.lookup t src = Some (File a c r) ->
  writable (Fs.put src (File a' c' r') t) dst = writable t dst.
Proof.
  intros Hsrc. unfold writable, Fs.isDir.
  pose proof (kindAt_put_file src t (Path.dirname dst) a c r a' c' r' Hsrc) as K1.
  pose proof (kindAt_put_file src t dst a c r a' c' r' Hsrc) as K2.
  unfold kindAt in K1, K2.
  destruct (Fs.lookup (Fs.put src (File a' c' r') t) (Path.dirname dst)) as [[]|],
    (Fs.lookup t (Path.dirname dst)) as [[]|]; try discriminate K1; cbn [negb];
    try reflexivity.
  destruct (isRoot dst); [reflexivity|].
  destruct (Fs.lookup (Fs.put src (File a' c' r') t) dst) as [[]|],
    (Fs.lookup t dst) as [[]|]; try discriminate K2; reflexivity.
Qed.

Lemma protected_read t src a c r a' c' r' p :
  Fs.lookup t src = Some (File a c r) ->
  protected config t p -> protected config (Fs.put src (File a' c' r') t) p.
Proof.
  intros Hsrc. apply protected_kindAt. now apply (kindAt_put_file src t p a c r).
Qed.

Lemma spared_copy src dst : spared (copyFileSync src dst).
Proof.
  intros w. unfold exec, copyFileSync.
  destruct (Fs.lookup (fs w) src) as [[a c []| | |]|] eqn:Hsrc; simpl;
    try apply sparing_refl.
  destruct (writable (fs w) dst) eqn:E; simpl; [apply sparing_refl|].
  apply sparing_setFs. intros p Hp. apply protected_put_file.
  - now rewrite (writable_put_file _ _ a c true).
  - now apply (protected_read _ _ a c true).
Qed.

Lemma spared_append p text : spared (appendFileSync p text).
Proof.
  intros w. unfold exec, appendFileSync.
  destruct (writable (fs w) p) eqn:E; simpl; [apply sparing_refl|].
  apply sparing_setFs.
  destruct (Fs.lookup (fs w) p) as [[]|]; now apply protected_put_file.
Qed.

End Sparing.

#[export] Hint Resolve sparing_refl sparing_trans : steps.
#[export] Hint Resolve spared_print spared_question spared_exists spared_now
  spared_stat spared_readdir spared_unlink spared_rmdir
  spared_mkdir spared_copy spared_append : steps.
#[export] Hint Extern 1 (spares _ _) => exact I : steps.
#[export] Hint Extern 2 (spares _ _) => simpl; assumption : steps.
#[export] Hint Extern 2 (sparesAsking _ _) => simpl; assumption : steps.
#[export] Hint Extern 3 (spares _ _) =>
  simpl; first [left; assumption | right; reflexivity] : steps.
#[export] Hint Extern 3 (sparesAsking _ _) =>
  simpl; first [left; assumption | right; reflexivity] : steps.
#[export] Hint Extern 2 (_ = false \/ _ = frontend) =>
  first [assumption | left; assumption | right; reflexivity] : steps.

Section SparingScript.
Variable engineDateParse : string -> option Z.
Variable config : Config.
Local Abbreviation sparing := (sparing engineDateParse config).
Local Abbreviation spared := (steps sparing).

Lemma spared_isRecentlyAccessed p : spared (isRecentlyAccessed config p).
Proof. unfold isRecentlyAccessed. msteps. Qed.

Lemma spared_backupFile p : spared (backupFile config p).
Proof. unfold backupFile. msteps. Qed.

Lemma spared_logDeletion p reason b : spared (logDeletion config p reason b).
Proof. unfold logDeletion. msteps. Qed.

Lemma spared_isEmptyDir p : spared (isEmptyDir p).
Proof. unfold isEmptyDir. msteps. Qed.

Hint Resolve spared_isRecentlyAccessed spared_backupFile spared_logDeletion
  spared_isEmptyDir : steps.

Lemma spared_deleteDirectory p reason :
  isEssentialDirectory config p = false \/ p = frontend ->
  spared (deleteDirectory config p reason).
Proof. intros H. unfold deleteDirectory. msteps. Qed.

Lemma spared_deleteFile p reason :
  isEssentialFile config p = false -> spared (deleteFile config p reason).
Proof. intros H. unfold deleteFile. msteps. Qed.

Hint Resolve spared_deleteDirectory spared_deleteFile : steps.

Lemma spared_handleDirectoryDeletion p reason opts :
  isEssentialDirectory config p = false \/ p = frontend ->
  spared (handleDirectoryDeletion config p reason opts).
Proof. intros H. unfold handleDirectoryDeletion. msteps. Qed.

Lemma spared_handleFileDeletion p reason opts :
  isEssentialFile config p = false ->
  spared (handleFileDeletion config p reason opts).
Proof. intros H. unfold handleFileDeletion. msteps. Qed.

Hint Resolve spared_handleDirectoryDeletion spared_handleFileDeletion : steps.

Lemma spared_answerQuestion q answer :
  sparesAsking config q -> spared (answerQuestion config q answer).
Proof. intros H. destruct q; simpl in *; msteps. Qed.

Lemma spared_scanItem self dirPath opts item :
  (forall p o, spared (self p o)) -> spared (scanItem config self dirPath opts item).
Proof. intros Hself. unfold scanItem. msteps. Qed.

Lemma spared_scanBody self dirPath opts :
  (forall p o, spared (self p o)) -> spared (scanBody config self dirPath opts).
Proof.
  intros Hself. unfold scanBody. msteps. now apply spared_scanItem.
Qed.

Lemma spared_scanDirectory stack dirPath opts :
  spared (scanDirectory config stack dirPath opts).
Proof.
  revert dirPath opts. induction stack as [|stack IH]; intros dirPath opts;
    apply spared_scanBody; auto.
  intros p o. apply steps_throw, sparing_refl.
Qed.

(** One turn of the sweep, at the time the sweep read. *)
Lemma sparing_sweepBackup dateDir w :
  createBackups (options config) = true ->
  sparing w (exec (sweepBackup engineDateParse config (backupDir config) (clock w) dateDir)
               w).
Proof.
  intros Hon. unfold sweepBackup.
  destruct (Date.parse engineDateParse dateDir) as [backupDate|] eqn:Hparse.
  2: { unfold exec, tryCatch. cbn. apply sparing_refl. }
  destruct (Date.daysGt (clock w - backupDate) (backupRetentionDays config)) eqn:Hgt.
  2: { unfold exec, tryCatch. cbn. apply sparing_refl. }
  assert (Hd : expired engineDateParse config (clock w) dateDir = true)
    by (unfold expired; now rewrite Hparse).
  pose proof (sparing_rmdirRecursive engineDateParse config dateDir w Hon Hd) as Hrm.
  unfold exec, tryCatch, mbind, M_bind, bind in *.
  destruct (rmdirSyncRecursive (Path.join (backupDir config) dateDir) w) as [[[]|e] w1];
    cbn [snd] in *.
  - eapply sparing_trans; [exact Hrm|]. apply (spared_print engineDateParse). exact I.
  - eapply sparing_trans; [exact Hrm|]. apply (spared_print engineDateParse). exact I.
Qed.

Lemma sparing_sweep names : forall w,
  createBackups (options config) = true ->
  sparing w (exec (forOf names
                     (sweepBackup engineDateParse config (backupDir config) (clock w)))
               w).
Proof.
  induction names as [|dateDir names IH]; intros w Hon; [apply sparing_refl|].
  pose proof (sparing_sweepBackup dateDir w Hon) as H1.
  cbn [forOf]. unfold exec, bind in *.
  destruct (sweepBackup engineDateParse config (backupDir config) (clock w) dateDir w)
    as [[[]|e] w1]; cbn [snd] in *; [|exact H1].
  eapply sparing_trans; [exact H1|].
  destruct H1 as (_ & _ & Hclock & _). rewrite <- Hclock. now apply IH.
Qed.

Lemma spared_cleanupOldBackups : spared (cleanupOldBackups engineDateParse config).
Proof.
  intros w. unfold cleanupOldBackups.
  destruct (createBackups (options config)) eqn:Hon; cbn [negb]; [|apply sparing_refl].
  unfold exec, tryCatch, mbind, M_bind, bind, existsSync, readdirSync, now, gets.
  destruct (fsExists (fs w) (backupDir config)); cbn [negb]; [|apply sparing_refl].
  destruct (fsReaddir (fs w) (backupDir config)) as [names|e]; cbn [snd].
  - pose proof (sparing_sweep names w Hon) as Hsweep. unfold exec in Hsweep.
    destruct (forOf names _ w) as [[[]|e] w1]; cbn [snd] in *; [exact Hsweep|].
    eapply sparing_trans; [exact Hsweep|]. apply (spared_print engineDateParse). exact I.
  - apply (spared_print engineDateParse). exact I.
Qed.

Lemma spared_runCleanup stack opts :
  spared (runCleanup engineDateParse config stack opts).
Proof.
  unfold runCleanup.
  repeat first [ apply spared_scanDirectory | apply spared_cleanupOldBackups
               | apply steps_same; [apply sparing_refl | reflexivity]
               | solve [simpl; eauto with steps] | mstep ].
Qed.

End SparingScript.

(** C1 (as amended): what is no directory and has a base name that matches
    an essential pattern, and a directory whose own name is in the
    essential-directory set, is still there after a run of [runCleanup],
    in dry-run or in delete mode, unless it is [frontend] or, when backups
    are on, lies in a partition of the backup directory that is past
    retention.  No line of the run that proposes, announces or reports the
    deletion of a file, and no question about one, names an essential
    file; none about a directory names an essential directory, [frontend]
    apart (the sweep reports the partitions it removes by their dates).
    Extension, age and emptiness do not matter.  The same holds when a
    question of the run is answered later, whatever the answer. *)
Theorem run_spares_essentials
  (engineDateParse : string -> option Z) (config : Config) (stack : nat)
  (opts : RunOptions) (w : World) :
  sparing engineDateParse config w
    (exec (runCleanup engineDateParse config stack opts) w)
  /\ (forall q answer w1,
        sparesAsking config q ->
        sparing engineDateParse config w1 (exec (answerQuestion config q answer) w1)).
Proof.
  split.
  - apply spared_runCleanup.
  - intros q answer w1 Hq. now apply spared_answerQuestion.
Qed.

(** C1 at a sample: a run in delete mode asks about [src/debug.log], and
    answering yes spares the essentials. *)
Lemma run_spares_essentials_witness :
  sparesAsking getDefaultConfig (AskFile ["src"; "debug.log"] "Build artifact")
  /\ pending (exec (runCleanup noEngineDates getDefaultConfig 8 deleteOptions)
                (freshWorld projectTree noon))
     = [AskFile ["src"; "debug.log"] "Build artifact"]
  /\ sparing noEngineDates getDefaultConfig
       (exec (runCleanup noEngineDates getDefaultConfig 8 deleteOptions)
             (freshWorld projectTree noon))
       (exec (answerQuestion getDefaultConfig
                (AskFile ["src"; "debug.log"] "Build artifact") "y")
             (exec (runCleanup noEngineDates getDefaultConfig 8 deleteOptions)
                   (freshWorld projectTree noon))).
Proof.
  assert (H : sparesAsking getDefaultConfig
                (AskFile ["src"; "debug.log"] "Build artifact"))
    by (vm_compute; reflexivity).
  split; [exact H|]. split; [vm_compute; reflexivity|].
  exact (proj2 (run_spares_essentials noEngineDates getDefaultConfig 8 deleteOptions
                  (freshWorld projectTree noon)) _ _ _ H).
Defined.

(** C1 as stated fails in four ways.  [src/debug.log] lies inside the
    essential directory [src], and a dry run proposes to delete it.  The
    empty directory [src/.env.d] has a base name that matches an essential
    pattern, and a dry run proposes to delete it.  The directory
    [.file-backup/2024-01-01/src] has an essential name, and a dry run
    removes it with its partition, which is past retention.  With [frontend] among the
    essential directories, a dry run proposes to delete the empty
    [frontend] and a run in delete mode removes it. *)
Lemma essentials_a_run_proposes_or_removes :
  (isEssentialDirectory getDefaultConfig ["src"] = true
   /\ Fs.isFile projectTree ["src"; "debug.log"] = true
   /\ console (exec (runCleanup noEngineDates getDefaultConfig 8 dryRunOptions)
                    (freshWorld projectTree noon))
      = [ MsgStarting true;
          MsgScanning ["src"];
          MsgSkippingEssential ["src"; "README.md"];
          MsgWouldDelete ["src"; "debug.log"] "Build artifact";
          MsgScanning ["backend"]; MsgDirectoryMissing ["backend"];
          MsgScanning ["database"]; MsgDirectoryMissing ["database"];
          MsgScanning ["public"]; MsgDirectoryMissing ["public"];
          MsgDryRunNotice; MsgRunWithDelete ])
  /\ (isEssentialFile getDefaultConfig ["src"; ".env.d"] = true
      /\ console (exec (scanDirectory getDefaultConfig 8 ["src"] dryRunOptions)
                       (freshWorld envDirectoryTree noon))
         = [ MsgWouldDeleteDirectory ["src"; ".env.d"] "Empty directory" ])
  /\ (isEssentialDirectory getDefaultConfig [".file-backup"; "2024-01-01"; "src"] = true
      /\ Fs.isDir backupTree [".file-backup"; "2024-01-01"; "src"] = true
      /\ Fs.lookup (fs (exec (runCleanup noEngineDates getDefaultConfig 8 dryRunOptions)
                             (freshWorld backupTree noon)))
                   [".file-backup"; "2024-01-01"; "src"]
         = None)
  /\ (isEssentialDirectory frontendConfig frontend = true
      /\ Fs.isDir emptyFrontendTree frontend = true
      /\ In (MsgWouldDeleteEmptyFrontend frontend)
            (console (exec (runCleanup noEngineDates frontendConfig 8 dryRunOptions)
                           (freshWorld emptyFrontendTree noon)))
      /\ Fs.lookup (fs (exec (runCleanup noEngineDates frontendConfig 8 deleteOptions)
                             (freshWorld emptyFrontendTree noon)))
                   frontend
         = None).
Proof.
  repeat match goal with |- _ /\ _ => split end;
    try (vm_compute; reflexivity).
  vm_compute. tauto.
Qed.

(** ** Dry runs and the backup sweep *)

Lemma untouched_refl w : untouched w w.
Proof. split; reflexivity. Qed.

Lemma untouched_trans a b c : untouched a b -> untouched b c -> untouched a c.
Proof. intros [H1 H2] [H3 H4]. split; congruence. Qed.

Lemma untouched_print m : steps untouched (print m).
Proof. intros w. split; reflexivity. Qed.

Lemma untouched_stat p : steps untouched (statSync p).
Proof. intros w. split; reflexivity. Qed.

Lemma untouched_readdir p : steps untouched (readdirSync p).
Proof. intros w. split; reflexivity. Qed.

Lemma untouched_exists p : steps untouched (existsSync p).
Proof. intros w. split; reflexivity. Qed.

Lemma untouched_now : steps untouched now.
Proof. intros w. split; reflexivity. Qed.

#[export] Hint Resolve untouched_refl untouched_trans untouched_print untouched_stat
  untouched_readdir untouched_exists untouched_now : steps.

Section DryRun.
Variable config : Config.

Lemma untouched_isRecentlyAccessed p : steps untouched (isRecentlyAccessed config p).
Proof. unfold isRecentlyAccessed. msteps. Qed.

Lemma untouched_isEmptyDir p : steps untouched (isEmptyDir p).
Proof. unfold isEmptyDir. msteps. Qed.

Lemma untouched_handleFileDeletion p reason :
  steps untouched (handleFileDeletion config p reason dryRunOptions).
Proof. unfold handleFileDeletion. cbn [dryRun dryRunOptions]. msteps. Qed.

Lemma untouched_handleDirectoryDeletion p reason :
  steps untouched (handleDirectoryDeletion config p reason dryRunOptions).
Proof. unfold handleDirectoryDeletion. cbn [dryRun dryRunOptions]. msteps. Qed.

Hint Resolve untouched_isRecentlyAccessed untouched_isEmptyDir
  untouched_handleFileDeletion untouched_handleDirectoryDeletion : steps.

Lemma untouched_scanItem self dirPath item :
  (forall p, steps untouched (self p dryRunOptions)) ->
  steps untouched (scanItem config self dirPath dryRunOptions item).
Proof. intros Hself. unfold scanItem. msteps. Qed.

Lemma untouched_scanBody self dirPath :
  (forall p, steps untouched (self p dryRunOptions)) ->
  steps untouched (scanBody config self dirPath dryRunOptions).
Proof.
  intros Hself. unfold scanBody. msteps. now apply untouched_scanItem.
Qed.

(** The traversal of a dry run changes nothing in the tree and asks
    nothing: what a dry run removes, it removes in the sweep. *)
Lemma dry_run_traversal_reads_only stack dirPath :
  steps untouched (scanDirectory config stack dirPath dryRunOptions).
Proof.
  revert dirPath. induction stack as [|stack IH]; intros dirPath;
    apply untouched_scanBody; auto.
  intros p. apply steps_throw, untouched_refl.
Qed.

(** With stack to spare the bound does not matter: a dry-run traversal
    does the same under every bound that is at least the depth of the tree
    below the directory. *)
Lemma agree_forOf {A} t (items : list A) (f g : A -> M World unit) :
  (forall x, agree t (f x) (g x)) ->
  (forall x, steps untouched (f x)) ->
  agree t (forOf items f) (forOf items g).
Proof.
  intros Hfg Hf. induction items as [|x xs IH]; intros w Hw; cbn [forOf]; auto.
  unfold bind. rewrite <- (Hfg x w Hw).
  pose proof (Hf x w) as [Hfs _]. unfold exec in Hfs.
  destruct (f x w) as [[[]|e] w1]; auto. apply IH. cbn [snd] in Hfs. congruence.
Qed.

Lemma agree_scanItem t self1 self2 dirPath item :
  (fsStat t (Path.join dirPath item) = Ok StatDirectory ->
   agree t (self1 (Path.join dirPath item) dryRunOptions)
           (self2 (Path.join dirPath item) dryRunOptions)) ->
  agree t (scanItem config self1 dirPath dryRunOptions item)
          (scanItem config self2 dirPath dryRunOptions item).
Proof.
  intros H w Hw. unfold scanItem. cbv beta iota delta [mbind M_bind bind statSync].
  rewrite Hw. destruct (fsStat t (Path.join dirPath item)) as [[]|] eqn:E; auto.
  cbn [isDirectory]. now rewrite (H eq_refl w Hw).
Qed.

Lemma agree_scanBody t self1 self2 dirPath :
  (forall item, fsStat t (Path.join dirPath item) = Ok StatDirectory ->
     agree t (self1 (Path.join dirPath item) dryRunOptions)
             (self2 (Path.join dirPath item) dryRunOptions)) ->
  (forall p, steps untouched (self1 p dryRunOptions)) ->
  agree t (scanBody config self1 dirPath dryRunOptions)
          (scanBody config self2 dirPath dryRunOptions).
Proof.
  intros Hsub Hread w Hw. unfold scanBody, tryCatch.
  cbv beta iota delta [mbind M_bind bind existsSync gets readdirSync].
  destruct (fsExists (fs w) dirPath); cbn [negb]; auto.
  destruct (fsReaddir (fs w) dirPath) as [items|]; auto.
  rewrite (agree_forOf t items _ (scanItem config self2 dirPath dryRunOptions));
    auto.
  - intros item. apply agree_scanItem. auto.
  - intros item. apply untouched_scanItem. auto.
Qed.

Lemma scanDirectory_stable_dry stack : forall dirPath w,
  heightAt (fs w) dirPath <= stack ->
  scanDirectory config (S stack) dirPath dryRunOptions w
  = scanDirectory config stack dirPath dryRunOptions w.
Proof.
  induction stack as [|n IH]; intros dirPath w Hdeep.
  - change (scanBody config (scanDirectory config 0) dirPath dryRunOptions w
            = scanBody config (fun _ _ => throw RangeError) dirPath
                dryRunOptions w).
    apply (agree_scanBody (fs w)); auto.
    + intros item Hdir.
      pose proof (heightAt_subdirectory (fs w) dirPath item Hdir). lia.
    + intros p. apply dry_run_traversal_reads_only.
  - change (scanBody config (scanDirectory config (S n)) dirPath dryRunOptions w
            = scanBody config (scanDirectory config n) dirPath dryRunOptions w).
    apply (agree_scanBody (fs w)); auto.
    + intros item Hdir w1 Hw1. apply IH. rewrite Hw1.
      pose proof (heightAt_subdirectory (fs w) dirPath item Hdir). lia.
    + intros p. apply dry_run_traversal_reads_only.
Qed.

End DryRun.

(** C2 fails on the code: a dry run still sweeps the backups.  With the
    shipped configuration, on 2024-01-20, the dry run removes the
    partition of 2024-01-01 with the backup it holds, and then prints the
    dry-run notice. *)
Theorem dry_run_prunes_backups (engineDateParse : string -> option Z) :
  let w := freshWorld scenarioBackupTree noon in
  let w' := exec (runCleanup engineDateParse getDefaultConfig 8 dryRunOptions) w in
  dryRun dryRunOptions = true
  /\ Fs.isFile (fs w) [".file-backup"; "2024-01-01"; "src"; "x.log"] = true
  /\ Fs.lookup (fs w') [".file-backup"; "2024-01-01"] = None
  /\ fsReaddir (fs w') [".file-backup"] = Ok ["2024-01-20"]
  /\ console w'
     = [ MsgStarting true;
         MsgScanning ["src"]; MsgDirectoryMissing ["src"];
         MsgScanning ["backend"]; MsgDirectoryMissing ["backend"];
         MsgScanning ["database"]; MsgDirectoryMissing ["database"];
         MsgScanning ["public"]; MsgDirectoryMissing ["public"];
         MsgRemovedOldBackup "2024-01-01";
         MsgDryRunNotice; MsgRunWithDelete ].
Proof. intros w w'. subst w w'. evaluate. Qed.

(** ** Errors on one entry *)

(** C3 fails on the code: [statSync] on a dangling link throws inside the
    loop of [scanDirectory], whose only [try] is around the whole loop, so
    the entries listed after the link are never looked at.  [readdirSync]
    lists [src/a-link] before the stale [src/debug.log], which is then not
    proposed; it is proposed when the link is [src/link], listed after it.
    The analyzer, whose loop has a [try] of its own for each entry, counts
    the file in both cases. *)
Theorem stat_error_aborts_directory_scan :
  ordered brokenLinkTree = true
  /\ fsReaddir brokenLinkTree ["src"] = Ok ["a-link"; "debug.log"]
  /\ console (exec (scanDirectory getDefaultConfig 8 ["src"] dryRunOptions)
                (freshWorld brokenLinkTree noon))
     = [ ErrScanning ["src"] ENOENT ]
  /\ ordered brokenLinkLastTree = true
  /\ console (exec (scanDirectory getDefaultConfig 8 ["src"] dryRunOptions)
                   (freshWorld brokenLinkLastTree noon))
     = [ MsgWouldDelete ["src"; "debug.log"] "Build artifact";
         ErrScanning ["src"] ENOENT ]
  /\ result (analyzeDirectory toyDigest 8 ["src"] ["src"])
            (freshAnalyzer brokenLinkTree noon)
     = Ok {| size := 1; fileCount := 1; directoryCount := 0 |}
  /\ result (analyzeDirectory toyDigest 8 ["src"] ["src"])
            (freshAnalyzer brokenLinkLastTree noon)
     = Ok {| size := 1; fileCount := 1; directoryCount := 0 |}.
Proof. evaluate. Qed.

(** ** Classifying one file *)

Lemma statSync_file p w a c r :
  Fs.lookup (fs w) p = Some (File a c r) ->
  statSync p w = (Ok (StatFile a (Z.of_nat (String.length c))), w).
Proof. intros H. unfold statSync, fsStat. now rewrite H. Qed.

Lemma isRecentlyAccessed_file config p w a c r :
  Fs.lookup (fs w) p = Some (File a c r) ->
  isRecentlyAccessed config p w =
    (Ok (Date.daysLt (clock w - a) (accessThresholdDays config)), w).
Proof.
  intros H. unfold isRecentlyAccessed, tryCatch, mbind, M_bind, bind.
  now rewrite (statSync_file _ _ _ _ _ H).
Qed.

(** C4: with threshold 30 and [".log"] among the artifact extensions, a
    non-essential [debug.log] last accessed 40 days ago is stale and an
    artifact, and the loop hands it to [handleFileDeletion] with the reason
    "Build artifact", which a dry run prints as [MsgWouldDelete]. *)
Theorem artifact_wins_over_staleness
  (config : Config) (self : path -> RunOptions -> M World unit)
  (dirPath : path) (opts : RunOptions) (w : World) (c : string) (r : bool) :
  let itemPath := Path.join dirPath "debug.log" in
  accessThresholdDays config = 30%Z ->
  Js.includes (artifactExtensions config) ".log" = true ->
  isEssentialFile config itemPath = false ->
  Fs.lookup (fs w) itemPath = Some (File (clock w - 40 * Date.msPerDay) c r) ->
  result (isRecentlyAccessed config itemPath) w = Ok false
  /\ isBuildArtifact config itemPath = true
  /\ scanItem config self dirPath opts "debug.log" w
     = handleFileDeletion config itemPath "Build artifact" opts w
  /\ (dryRun opts = true ->
      scanItem config self dirPath opts "debug.log" w
      = (Ok tt, logged (MsgWouldDelete itemPath "Build artifact") w)).
Proof.
  intros itemPath Hdays Hlog Hess Hfile.
  assert (Hart : isBuildArtifact config itemPath = true).
  { unfold isBuildArtifact, itemPath. rewrite extname_join. exact Hlog. }
  assert (Hscan : scanItem config self dirPath opts "debug.log" w
                  = handleFileDeletion config itemPath "Build artifact" opts w).
  { unfold scanItem, mbind, M_bind, bind. fold itemPath.
    rewrite (statSync_file _ _ _ _ _ Hfile). cbn [isDirectory isFile].
    now rewrite Hess, Hart. }
  repeat split; auto.
  - unfold result. rewrite (isRecentlyAccessed_file _ _ _ _ _ _ Hfile). cbn [fst].
    rewrite Hdays. unfold Date.daysLt. f_equal. apply Z.ltb_ge.
    unfold Date.msPerDay. lia.
  - intros Hdry. rewrite Hscan. unfold handleFileDeletion. now rewrite Hdry.
Qed.

(** C4 on the scenario itself. *)
Lemma artifact_wins_over_staleness_witness :
  accessThresholdDays scenarioConfig = 30%Z
  /\ Js.includes (artifactExtensions scenarioConfig) ".log" = true
  /\ isEssentialFile scenarioConfig ["src"; "debug.log"] = false
  /\ scanItem scenarioConfig (scanDirectory scenarioConfig 8) ["src"] dryRunOptions
       "debug.log" (freshWorld projectTree noon)
     = (Ok tt, logged (MsgWouldDelete ["src"; "debug.log"] "Build artifact")
                 (freshWorld projectTree noon)).
Proof.
  assert (H1 : accessThresholdDays scenarioConfig = 30%Z) by reflexivity.
  assert (H2 : Js.includes (artifactExtensions scenarioConfig) ".log" = true)
    by reflexivity.
  assert (H3 : isEssentialFile scenarioConfig (Path.join ["src"] "debug.log") = false)
    by (vm_compute; reflexivity).
  assert (H4 : Fs.lookup (fs (freshWorld projectTree noon)) (Path.join ["src"] "debug.log")
               = Some (File (clock (freshWorld projectTree noon) - 40 * Date.msPerDay)
                         "x" true)) by (vm_compute; reflexivity).
  split; [exact H1|]. split; [exact H2|]. split; [exact H3|].
  exact (proj2 (proj2 (proj2
    (artifact_wins_over_staleness scenarioConfig (scanDirectory scenarioConfig 8)
       ["src"] dryRunOptions (freshWorld projectTree noon) "x" true H1 H2 H3 H4)))
    eq_refl).
Defined.

(** C5 (as amended): for a file whose metadata can be read and that is
    neither essential nor an artifact, the traversal proposes deletion
    with the reason "Not recently accessed" exactly when its age is at
    least [accessThresholdDays] days; a file aged exactly the threshold is
    stale. *)
Theorem stale_from_threshold_on
  (config : Config) (self : path -> RunOptions -> M World unit)
  (dirPath : path) (opts : RunOptions) (item : string) (w : World)
  (atime : Z) (c : string) (r : bool) :
  let itemPath := Path.join dirPath item in
  Fs.lookup (fs w) itemPath = Some (File atime c r) ->
  isEssentialFile config itemPath = false ->
  isBuildArtifact config itemPath = false ->
  scanItem config self dirPath opts item w =
    if bool_decide (accessThresholdDays config * Date.msPerDay <= clock w - atime)%Z
    then handleFileDeletion config itemPath "Not recently accessed" opts w
    else (Ok tt, w).
Proof.
  intros itemPath Hfile Hess Hart.
  unfold scanItem, mbind, M_bind, bind. fold itemPath.
  rewrite (statSync_file _ _ _ _ _ Hfile). cbn [isDirectory isFile].
  rewrite Hess, Hart, (isRecentlyAccessed_file _ _ _ _ _ _ Hfile).
  unfold Date.daysLt.
  destruct (Z.ltb_spec (clock w - atime) (accessThresholdDays config * Date.msPerDay)).
  - rewrite bool_decide_false by lia. reflexivity.
  - rewrite bool_decide_true by lia. reflexivity.
Qed.

(** C5 at the boundary: one millisecond short of 30 days nothing is
    proposed. *)
Lemma stale_from_threshold_on_witness :
  Fs.lookup boundaryTree ["src"; "notes.txt"]
  = Some (File (noon - 30 * Date.msPerDay) "x" true)
  /\ isEssentialFile getDefaultConfig ["src"; "notes.txt"] = false
  /\ isBuildArtifact getDefaultConfig ["src"; "notes.txt"] = false
  /\ scanItem getDefaultConfig (scanDirectory getDefaultConfig 8) ["src"] dryRunOptions
       "notes.txt" (freshWorld boundaryTree (noon - 1))
     = (Ok tt, freshWorld boundaryTree (noon - 1)).
Proof.
  assert (H1 : Fs.lookup (fs (freshWorld boundaryTree (noon - 1))) (Path.join ["src"] "notes.txt")
               = Some (File (noon - 30 * Date.msPerDay) "x" true))
    by (vm_compute; reflexivity).
  assert (H2 : isEssentialFile getDefaultConfig (Path.join ["src"] "notes.txt") = false)
    by (vm_compute; reflexivity).
  assert (H3 : isBuildArtifact getDefaultConfig (Path.join ["src"] "notes.txt") = false)
    by (vm_compute; reflexivity).
  split; [exact H1|]. split; [exact H2|]. split; [exact H3|].
  exact (stale_from_threshold_on getDefaultConfig (scanDirectory getDefaultConfig 8)
           ["src"] dryRunOptions "notes.txt" (freshWorld boundaryTree (noon - 1))
           _ "x" true H1 H2 H3).
Defined.

(** C5 as stated fails: a file aged exactly 30 days under threshold 30 is
    proposed for deletion as not recently accessed. *)
Lemma stale_at_exact_threshold :
  accessThresholdDays getDefaultConfig = 30%Z
  /\ Fs.lookup boundaryTree ["src"; "notes.txt"]
     = Some (File (noon - 30 * Date.msPerDay) "x" true)
  /\ result (isRecentlyAccessed getDefaultConfig ["src"; "notes.txt"])
            (freshWorld boundaryTree noon) = Ok false
  /\ scanItem getDefaultConfig (scanDirectory getDefaultConfig 8) ["src"] dryRunOptions
       "notes.txt" (freshWorld boundaryTree noon)
     = (Ok tt, logged (MsgWouldDelete ["src"; "notes.txt"] "Not recently accessed")
                 (freshWorld boundaryTree noon)).
Proof. evaluate. Qed.

(** C7 fails on the code: only the file's extension is lowered before the
    look-up, so a configured entry with a capital letter matches nothing.
    Under the shipped configuration [".DS_Store"] is listed, yet no file
    with that extension, nor the file [.DS_Store] (whose extension is
    empty), nor [Thumbs.db] (whose extension is [".db"]) is classified as an
    artifact; [TRACE.LOG] is. *)
Theorem mixed_case_entries_never_match :
  Js.includes (artifactExtensions getDefaultConfig) ".DS_Store" = true
  /\ Path.extname ["src"; "cache.DS_Store"] = ".DS_Store"
  /\ isBuildArtifact getDefaultConfig ["src"; "cache.DS_Store"] = false
  /\ isBuildArtifact getDefaultConfig ["src"; "cache.ds_store"] = false
  /\ isBuildArtifact getDefaultConfig ["src"; ".DS_Store"] = false
  /\ isBuildArtifact getDefaultConfig ["src"; "Thumbs.db"] = false
  /\ isBuildArtifact getDefaultConfig ["src"; "TRACE.LOG"] = true.
Proof. evaluate. Qed.

(** ** Removing a directory *)

Lemma rmdirSync_nonempty p w l e es :
  Fs.lookup (fs w) p = Some (Dir l (e :: es)) ->
  exists err, rmdirSync p w = (Throw err, w).
Proof.
  intros H. unfold rmdirSync. rewrite H. destruct (isRoot p); eexists; reflexivity.
Qed.

(** C10: [deleteDirectory] on a directory that holds an entry fails, logs
    the error and leaves the tree as it was; so do the callback of the
    confirmation question, whatever the answer, and
    [handleDirectoryDeletion] in delete mode. *)
Theorem rmdir_spares_nonempty
  (config : Config) (dirPath : path) (reason answer : string) (w : World)
  (l : bool) (e : string * node) (es : list (string * node)) :
  Fs.lookup (fs w) dirPath = Some (Dir l (e :: es)) ->
  (exists err,
     deleteDirectory config dirPath reason w
     = (Ok tt, logged (ErrDeletingDirectory dirPath err) w))
  /\ fs (exec (deleteDirectory config dirPath reason) w) = fs w
  /\ fs (exec (answerQuestion config (AskDirectory dirPath reason) answer) w) = fs w
  /\ fs (exec (handleDirectoryDeletion config dirPath reason deleteOptions) w) = fs w.
Proof.
  intros Hdir.
  assert (Hdel : exists err,
     deleteDirectory config dirPath reason w
     = (Ok tt, logged (ErrDeletingDirectory dirPath err) w)).
  { destruct (rmdirSync_nonempty _ _ _ _ _ Hdir) as [err Herr]. exists err.
    unfold deleteDirectory, tryCatch, mbind, M_bind, bind. now rewrite Herr. }
  assert (Hfs : fs (exec (deleteDirectory config dirPath reason) w) = fs w).
  { destruct Hdel as [err Herr]. unfold exec. now rewrite Herr. }
  repeat split; auto.
  - unfold answerQuestion. destruct (String.eqb (Js.toLowerCase answer) "y"); auto.
  - unfold handleDirectoryDeletion. cbn [dryRun deleteOptions].
    destruct (promptBeforeDeletion (options config)); auto.
Qed.

(** C10 on [src/stuff], which still holds [keep.txt]. *)
Lemma rmdir_spares_nonempty_witness :
  Fs.lookup occupiedTree ["src"; "stuff"]
  = Some (Dir true [("keep.txt", aged noon 1)])
  /\ fs (exec (answerQuestion getDefaultConfig
                 (AskDirectory ["src"; "stuff"] "Empty directory") "y")
              (freshWorld occupiedTree noon))
     = occupiedTree.
Proof.
  assert (H : Fs.lookup (fs (freshWorld occupiedTree noon)) ["src"; "stuff"]
              = Some (Dir true [("keep.txt", aged noon 1)])) by reflexivity.
  split; [exact H|].
  exact (proj1 (proj2 (proj2
    (rmdir_spares_nonempty getDefaultConfig ["src"; "stuff"] "Empty directory" "y"
       (freshWorld occupiedTree noon) true ("keep.txt", aged noon 1) [] H)))).
Defined.

(** ** The retention sweep *)

Section Sweep.
Variable engineDateParse : string -> option Z.
Variable config : Config.

Lemma rmdirSyncRecursive_run p w :
  p ≠ [] ->
  rmdirSyncRecursive p w =
    if Fs.isDir (fs w) p then (Ok tt, setFs (Fs.remove p (fs w)) w)
    else (Throw (match Fs.lookup (fs w) p with
                 | Some Dangling | None => ENOENT
                 | _ => ENOTDIR
                 end), w).
Proof.
  intros Hp. unfold rmdirSyncRecursive, Fs.isDir.
  destruct p; [congruence|]. cbn [isRoot].
  destruct (Fs.lookup (fs w) (s :: p)) as [[]|]; reflexivity.
Qed.

(** One turn of the loop. *)
Lemma sweepBackup_run B t d w :
  exists new,
    sweepBackup engineDateParse config B t d w =
      (Ok tt,
       {| fs := if expired engineDateParse config t d && Fs.isDir (fs w) (Path.join B d)
                then Fs.remove (Path.join B d) (fs w) else fs w;
          clock := clock w; atimeOnRead := atimeOnRead w;
          console := console w ++ new;
          pending := pending w; rlOpen := rlOpen w |})
    /\ (expired engineDateParse config t d = false -> new = [])
    /\ (forall m, In m new -> m = MsgRemovedOldBackup d \/ isSweepError d m).
Proof.
  unfold sweepBackup, expired, tryCatch, mbind, M_bind, bind.
  destruct (Date.parse engineDateParse d) as [b|]; simpl.
  2:{ exists []. rewrite app_nil_r. destruct w; repeat split; auto. intros m []. }
  destruct (Date.daysGt (t - b) (backupRetentionDays config)); simpl.
  2:{ exists []. rewrite app_nil_r. destruct w; repeat split; auto. intros m []. }
  rewrite rmdirSyncRecursive_run by apply join_not_nil.
  destruct (Fs.isDir (fs w) (Path.join B d)); simpl.
  - exists [MsgRemovedOldBackup d]. repeat split; auto; try discriminate.
    intros m [<-|[]]. now left.
  - eexists [ErrProcessingBackup d _]. repeat split; auto; try discriminate.
    intros m [<-|[]]. right. eexists; eauto.
Qed.

(** The whole loop: a partition is gone exactly when its name is listed
    and past retention; nothing else under the backup root moves. *)
Lemma sweep_loop B t names : forall w,
  exists w' new,
    forOf names (sweepBackup engineDateParse config B t) w = (Ok tt, w')
    /\ clock w' = clock w
    /\ console w' = console w ++ new
    /\ (forall d, Fs.lookup (fs w') (Path.join B d) =
          if bool_decide (d ∈ names) && expired engineDateParse config t d
             && Fs.isDir (fs w) (Path.join B d)
          then None else Fs.lookup (fs w) (Path.join B d))
    /\ (forall m, In m new ->
          exists d, d ∈ names /\ expired engineDateParse config t d = true
                    /\ (m = MsgRemovedOldBackup d \/ isSweepError d m)).
Proof.
  induction names as [|x names IH]; intros w.
  - exists w, []. simpl. rewrite app_nil_r. repeat split; auto. intros m [].
  - destruct (sweepBackup_run B t x w) as (new1 & Hrun & Hnone & Hnew1).
    cbn [forOf]. unfold bind. rewrite Hrun.
    set (w1 := {| fs := _ |}) in *.
    destruct (IH w1) as (w' & new2 & Hloop & Hclock & Hcons & Hfs & Hnew2).
    exists w', (new1 ++ new2). rewrite Hloop. repeat split; auto.
    + rewrite Hcons. simpl. now rewrite app_assoc.
    + intros d. rewrite Hfs. subst w1. cbn [fs].
      destruct (decide (x = d)) as [->|Hne].
      * rewrite (bool_decide_true (d ∈ d :: names)) by apply list_elem_of_here.
        cbn [andb].
        destruct (expired engineDateParse config t d) eqn:He; cbn [andb].
        -- destruct (Fs.isDir (fs w) (Path.join B d)) eqn:Hd.
           ++ unfold Fs.isDir. rewrite lookup_remove_same by apply join_not_nil.
              now rewrite !andb_false_r.
           ++ rewrite Hd. now rewrite !andb_false_r.
        -- now rewrite !andb_false_r.
      * assert (Hin : bool_decide (d ∈ x :: names) = bool_decide (d ∈ names)).
        { apply bool_decide_ext. rewrite elem_of_cons.
          split; [intros [->|?]; [congruence|assumption] | auto]. }
        rewrite Hin.
        assert (Hsame : Fs.lookup
                  (if expired engineDateParse config t x && Fs.isDir (fs w) (Path.join B x)
                   then Fs.remove (Path.join B x) (fs w) else fs w) (Path.join B d)
                = Fs.lookup (fs w) (Path.join B d)).
        { destruct (expired engineDateParse config t x && Fs.isDir (fs w) (Path.join B x));
            auto.
          destruct (join_apart B x d Hne). now apply lookup_remove_apart. }
        unfold Fs.isDir at 1. now rewrite Hsame.
    + intros m Hm. apply in_app_or in Hm. destruct Hm as [Hm|Hm].
      * exists x. split; [apply list_elem_of_here|].
        destruct (expired engineDateParse config t x) eqn:He; [split; auto|].
        rewrite Hnone in Hm by reflexivity. destruct Hm.
      * destruct (Hnew2 m Hm) as (d & Hd & He & Hk).
        exists d. split; [now apply list_elem_of_further|]. auto.
Qed.

End Sweep.

(** C8: when the sweep runs over a listable backup root, a partition is
    removed exactly when its name parses as a date and now minus that date
    is strictly more than [backupRetentionDays] days; a partition that
    stays is untouched; a name that is no date raises no error. *)
Theorem retention_sweep_removes_exactly_the_expired
  (engineDateParse : string -> option Z) (config : Config) (w : World)
  (names : list string) (dateDir : string) :
  let partition := Path.join (backupDir config) dateDir in
  let w' := exec (cleanupOldBackups engineDateParse config) w in
  createBackups (options config) = true ->
  fsReaddir (fs w) (backupDir config) = Ok names ->
  In dateDir names ->
  Fs.isDir (fs w) partition = true ->
  (Fs.lookup (fs w') partition = None <->
     exists backupDate,
       Date.parse engineDateParse dateDir = Some backupDate
       /\ (backupRetentionDays config * Date.msPerDay < clock w - backupDate)%Z)
  /\ (Fs.lookup (fs w') partition <> None ->
      Fs.lookup (fs w') partition = Fs.lookup (fs w) partition)
  /\ (Date.parse engineDateParse dateDir = None ->
      forall err, In (ErrProcessingBackup dateDir err) (console w') ->
                  In (ErrProcessingBackup dateDir err) (console w)).
Proof.
  intros partition w' Hon Hlist Hin Hdir.
  destruct (sweep_loop engineDateParse config (backupDir config) (clock w) names w)
    as (w1 & new & Hloop & _ & Hcons & Hfs & Hnew).
  assert (Hw' : w' = w1).
  { subst w'. unfold exec, cleanupOldBackups. rewrite Hon. cbn [negb].
    cbv beta iota delta [tryCatch mbind M_bind bind existsSync gets readdirSync now].
    rewrite (readdir_exists _ _ _ Hlist). cbn [negb]. cbv beta iota.
    rewrite Hlist. cbv beta iota. now rewrite Hloop. }
  rewrite Hw'. specialize (Hfs dateDir). fold partition in Hfs.
  rewrite Hdir, andb_true_r in Hfs.
  rewrite bool_decide_true in Hfs by (now apply list_elem_of_In).
  cbn [andb] in Hfs.
  assert (Hsome : Fs.lookup (fs w) partition <> None).
  { unfold Fs.isDir in Hdir. destruct (Fs.lookup (fs w) partition); congruence. }
  unfold expired, Date.daysGt in Hfs.
  repeat split.
  - intros Hgone. rewrite Hgone in Hfs.
    destruct (Date.parse engineDateParse dateDir) as [b|]; [|congruence].
    destruct (Z.ltb_spec (backupRetentionDays config * Date.msPerDay) (clock w - b));
      [eauto | congruence].
  - intros (b & Hb & Hlt). rewrite Hb in Hfs.
    apply Z.ltb_lt in Hlt. now rewrite Hlt in Hfs.
  - intros Hkept. rewrite Hfs in *.
    destruct (Date.parse engineDateParse dateDir) as [b|]; auto.
    destruct (_ <? _)%Z; congruence.
  - intros Hnan err Herr. rewrite Hcons in Herr. apply in_app_or in Herr.
    destruct Herr as [Herr|Herr]; auto.
    destruct (Hnew _ Herr) as (d & _ & He & [Hm|[err' Hm]]); [discriminate|].
    inversion Hm; subst d. unfold expired in He. now rewrite Hnan in He.
Qed.

(** C8 on the scenario and at the boundary: with retention 14 and the
    clock at 2024-01-20T00:00Z, the partitions of 2024-01-01 and of
    2024-01-05 (15 days) go; the one of 2024-01-06, aged 14 days to the
    millisecond, and the one of 2024-01-20 stay. *)
Lemma retention_sweep_witness :
  createBackups (options getDefaultConfig) = true
  /\ fsReaddir backupTree [".file-backup"]
     = Ok ["2024-01-01"; "2024-01-05"; "2024-01-06"; "2024-01-20"; "notes"]
  /\ Fs.lookup (fs (exec (cleanupOldBackups noEngineDates getDefaultConfig)
                         (freshWorld backupTree midnight)))
               [".file-backup"; "2024-01-01"] = None
  /\ Fs.lookup (fs (exec (cleanupOldBackups noEngineDates getDefaultConfig)
                         (freshWorld backupTree midnight)))
               [".file-backup"; "2024-01-05"] = None
  /\ Fs.lookup (fs (exec (cleanupOldBackups noEngineDates getDefaultConfig)
                         (freshWorld backupTree midnight)))
               [".file-backup"; "2024-01-06"] <> None
  /\ Fs.lookup (fs (exec (cleanupOldBackups noEngineDates getDefaultConfig)
                         (freshWorld backupTree midnight)))
               [".file-backup"; "2024-01-20"] <> None.
Proof.
  pose (w := freshWorld backupTree midnight).
  pose (names := ["2024-01-01"; "2024-01-05"; "2024-01-06"; "2024-01-20"; "notes"]).
  assert (H1 : createBackups (options getDefaultConfig) = true) by reflexivity.
  assert (H2 : fsReaddir (fs w) (backupDir getDefaultConfig) = Ok names)
    by (vm_compute; reflexivity).
  assert (H3 : In "2024-01-01" names) by (simpl; auto).
  assert (H4 : Fs.isDir (fs w) (Path.join (backupDir getDefaultConfig) "2024-01-01") = true)
    by (vm_compute; reflexivity).
  assert (H5 : In "2024-01-06" names) by (simpl; auto).
  assert (H6 : Fs.isDir (fs w) (Path.join (backupDir getDefaultConfig) "2024-01-06") = true)
    by (vm_compute; reflexivity).
  assert (H7 : In "2024-01-05" names) by (simpl; auto).
  assert (H8 : Fs.isDir (fs w) (Path.join (backupDir getDefaultConfig) "2024-01-05") = true)
    by (vm_compute; reflexivity).
  assert (H9 : In "2024-01-20" names) by (simpl; auto 6).
  assert (H10 : Fs.isDir (fs w) (Path.join (backupDir getDefaultConfig) "2024-01-20") = true)
    by (vm_compute; reflexivity).
  split; [exact H1|]. split; [exact H2|]. split; [|split; [|split]].
  - apply (proj2 (proj1 (retention_sweep_removes_exactly_the_expired
             noEngineDates getDefaultConfig w names "2024-01-01" H1 H2 H3 H4))).
    exists 1704067200000%Z. split; [vm_compute; reflexivity | vm_compute; reflexivity].
  - apply (proj2 (proj1 (retention_sweep_removes_exactly_the_expired
             noEngineDates getDefaultConfig w names "2024-01-05" H1 H2 H7 H8))).
    exists 1704412800000%Z. split; [vm_compute; reflexivity | vm_compute; reflexivity].
  - intros Hgone.
    destruct (proj1 (proj1 (retention_sweep_removes_exactly_the_expired
                noEngineDates getDefaultConfig w names "2024-01-06" H1 H2 H5 H6)) Hgone)
      as (b & Hb & Hlt).
    vm_compute in Hb. inversion Hb; subst b. vm_compute in Hlt. discriminate.
  - intros Hgone.
    destruct (proj1 (proj1 (retention_sweep_removes_exactly_the_expired
                noEngineDates getDefaultConfig w names "2024-01-20" H1 H2 H9 H10)) Hgone)
      as (b & Hb & Hlt).
    vm_compute in Hb. inversion Hb; subst b. vm_compute in Hlt. discriminate.
Defined.

(** ** Runs that let no exception escape *)

Lemma returns_scanDirectory config stack dirPath opts :
  returns (scanDirectory config stack dirPath opts).
Proof.
  destruct stack; apply returns_tryCatch; intros e; apply returns_print.
Qed.

Lemma returns_cleanupOldBackups engine config :
  returns (cleanupOldBackups engine config).
Proof.
  unfold cleanupOldBackups. destruct (negb _); [apply returns_ret|].
  apply returns_tryCatch; intros e; apply returns_print.
Qed.

Lemma returns_runCleanup engine config stack opts :
  returns (runCleanup engine config stack opts).
Proof.
  unfold runCleanup.
  apply returns_bind; [apply returns_print|intros _].
  apply returns_bind.
  { apply returns_forOf. intros dir.
    apply returns_bind; [apply returns_print|intros _]. apply returns_scanDirectory. }
  intros _. apply returns_bind.
  { apply returns_when, returns_tryCatch. intros e. apply returns_print. }
  intros _. apply returns_bind; [apply returns_cleanupOldBackups|intros _].
  apply returns_when.
  apply returns_bind; [apply returns_print|intros _].
  apply returns_bind; [apply returns_print|intros _].
  apply returns_modify.
Qed.

Lemma returns_analyzeDirectory sha256 stack dirPath relativePath :
  returns (analyzeDirectory sha256 stack dirPath relativePath).
Proof.
  destruct stack; apply returns_tryCatch; intros e;
    (apply returns_bind; [apply returns_say | intros _; apply returns_ret]).
Qed.

Lemma returns_analyzerMain sha256 stack roots :
  returns (analyzerMain sha256 stack roots).
Proof.
  unfold analyzerMain. apply returns_forOf. intros [key dirPath].
  apply returns_bind; [apply returns_gets|intros ex].
  destruct ex; [|apply returns_say].
  apply returns_bind; [apply returns_say|intros _].
  apply returns_bind; [apply returns_analyzeDirectory|intros _; apply returns_ret].
Qed.

(** ** Loading the configuration *)

Section Fallback.
Variable jsonParse : string -> option ConfigDocument.
Variable compileRegExp : string -> option RegExp.t.

Lemma loadConfig_missing scriptDir w :
  fsExists scriptDir configPath = false ->
  loadConfig jsonParse compileRegExp scriptDir w
  = (Ok getDefaultConfig, logged MsgConfigNotFound w).
Proof.
  intros H. unfold loadConfig, tryCatch. now rewrite H.
Qed.

Lemma loadConfig_unparsable scriptDir w :
  unparsable jsonParse scriptDir ->
  exists err,
    loadConfig jsonParse compileRegExp scriptDir w
    = (Ok getDefaultConfig, logged MsgUsingDefault (logged (ErrLoadingConfig err) w)).
Proof.
  intros [Hex Hbad]. unfold loadConfig, tryCatch. rewrite Hex.
  cbv beta iota delta [mbind M_bind bind].
  destruct (fsReadFile scriptDir configPath) as [data|e] eqn:E.
  - rewrite (Hbad data eq_refl). eexists. reflexivity.
  - eexists. reflexivity.
Qed.

Lemma loadConfig_returns scriptDir : returns (loadConfig jsonParse compileRegExp scriptDir).
Proof.
  apply returns_tryCatch. intros e.
  apply returns_bind; [apply returns_print|intros _].
  apply returns_bind; [apply returns_print|intros _]. apply returns_ret.
Qed.

Lemma loadAnalyzerConfig_missing scriptDir s :
  fsExists scriptDir configPath = false ->
  loadAnalyzerConfig jsonParse scriptDir s
  = (Ok (inl analyzerDefaults),
     said NoteConfigShown (said NoteConfigNotFound (said NoteLookingForConfig s))).
Proof.
  intros H. unfold loadAnalyzerConfig, tryCatch.
  cbv beta iota delta [mbind M_bind bind say modify]. now rewrite H.
Qed.

Lemma loadAnalyzerConfig_unparsable scriptDir s :
  unparsable jsonParse scriptDir ->
  exists err,
    loadAnalyzerConfig jsonParse scriptDir s
    = (Ok (inr 1%Z),
       said (NoteErrLoadingConfig err)
         (said NoteConfigExists (said NoteLookingForConfig s))).
Proof.
  intros [Hex Hbad]. unfold loadAnalyzerConfig, tryCatch.
  cbv beta iota delta [mbind M_bind bind say modify]. rewrite Hex.
  cbv beta iota.
  destruct (fsReadFile scriptDir configPath) as [data|e] eqn:E.
  - rewrite (Hbad data eq_refl). eexists. reflexivity.
  - eexists. reflexivity.
Qed.

End Fallback.

(** C9 (as amended): when the configuration file is absent, the cleanup
    script runs under the built-in default configuration and the analyzer
    under its own built-in defaults, ending with status 0.  When the file
    is there but cannot be read or parsed, the cleanup script logs the
    error and runs under the built-in default configuration, whereas the
    analyzer logs the error and exits with status 1.  The cleanup script
    lets no exception escape whatever the file holds. *)
Theorem configuration_fallback
  (jsonParse : string -> option ConfigDocument)
  (compileRegExp : string -> option RegExp.t)
  (engineDateParse : string -> option Z) (sha256 : string -> string)
  (scriptDir : node) (args : list string) (stack : nat) :
  let opts := {| dryRun := negb (Js.includes args "--delete") |} in
  let cleanup :=
    cleanupScript jsonParse compileRegExp engineDateParse scriptDir args stack in
  let analyzer := analyzerScript jsonParse sha256 scriptDir stack in
  (fsExists scriptDir configPath = false ->
     (forall w, cleanup w
        = runCleanup engineDateParse getDefaultConfig stack opts
            (logged MsgConfigNotFound w))
     /\ (forall s, analyzer s
        = (analyzerMain sha256 stack (analyzerDirectories analyzerDefaults);; mret 0%Z)
            (said NoteConfigShown (said NoteConfigNotFound (said NoteLookingForConfig s))))
     /\ (forall s, result analyzer s = Ok 0%Z))
  /\ (unparsable jsonParse scriptDir ->
     (forall w, exists err, cleanup w
        = runCleanup engineDateParse getDefaultConfig stack opts
            (logged MsgUsingDefault (logged (ErrLoadingConfig err) w)))
     /\ (forall s, exists err, analyzer s
        = (Ok 1%Z, said (NoteErrLoadingConfig err)
                     (said NoteConfigExists (said NoteLookingForConfig s)))))
  /\ (forall w, exists w', cleanup w = (Ok tt, w')).
Proof.
  intros opts cleanup analyzer. split; [|split].
  - intros Hmissing. split; [|split].
    + intros w. subst cleanup. unfold cleanupScript.
      cbv beta iota delta [mbind M_bind bind]. now rewrite loadConfig_missing.
    + intros s. subst analyzer. unfold analyzerScript.
      cbv beta iota delta [mbind M_bind bind]. now rewrite loadAnalyzerConfig_missing.
    + intros s. subst analyzer. unfold result, analyzerScript.
      cbv beta iota delta [mbind M_bind bind]. rewrite loadAnalyzerConfig_missing by auto.
      destruct (returns_run
                  (analyzerMain sha256 stack (analyzerDirectories analyzerDefaults))
                  (said NoteConfigShown
                     (said NoteConfigNotFound (said NoteLookingForConfig s)))
                  (returns_analyzerMain _ _ _)) as ([] & s' & ->).
      reflexivity.
  - intros Hbad. split.
    + intros w. subst cleanup. unfold cleanupScript.
      destruct (loadConfig_unparsable jsonParse compileRegExp scriptDir w Hbad)
        as [err Herr]. exists err.
      cbv beta iota delta [mbind M_bind bind]. now rewrite Herr.
    + intros s. subst analyzer. unfold analyzerScript.
      destruct (loadAnalyzerConfig_unparsable jsonParse scriptDir s Hbad) as [err Herr].
      exists err. cbv beta iota delta [mbind M_bind bind]. now rewrite Herr.
  - intros w. subst cleanup. unfold cleanupScript.
    cbv beta iota delta [mbind M_bind bind].
    destruct (returns_run _ w (loadConfig_returns jsonParse compileRegExp scriptDir))
      as (config & w1 & ->).
    destruct (returns_run _ w1 (returns_runCleanup engineDateParse config stack opts))
      as ([] & w' & Hrun). eauto.
Qed.

(** C9 on a script directory without configuration file. *)
Lemma configuration_fallback_witness :
  fsExists noConfigDir configPath = false
  /\ (forall w,
        cleanupScript rejectingParser noRegExp noEngineDates noConfigDir [] 8 w
        = runCleanup noEngineDates getDefaultConfig 8 dryRunOptions
            (logged MsgConfigNotFound w))
  /\ (forall s, result (analyzerScript rejectingParser toyDigest noConfigDir 8) s = Ok 0%Z).
Proof.
  assert (H : fsExists noConfigDir configPath = false) by reflexivity.
  split; [exact H|].
  pose proof (proj1 (configuration_fallback rejectingParser noRegExp noEngineDates
                       toyDigest noConfigDir [] 8) H) as (Hc & _ & Ha).
  split; [exact Hc | exact Ha].
Defined.

(** C9 as stated fails: the configuration file is not JSON, the roots of
    the built-in defaults are there to analyze, and still the analyzer
    exits with status 1 having analyzed nothing. *)
Lemma analyzer_exits_on_unparsable_config :
  fsExists brokenConfigDir configPath = true
  /\ fsExists copiesTree ["src"] = true
  /\ analyzerScript rejectingParser toyDigest brokenConfigDir 8
       (freshAnalyzer copiesTree noon)
     = (Ok 1%Z,
        said (NoteErrLoadingConfig SyntaxError)
          (said NoteConfigExists (said NoteLookingForConfig
             (freshAnalyzer copiesTree noon)))).
Proof. repeat match goal with |- _ /\ _ => split end; reflexivity. Qed.

(** ** Duplicate groups *)

Lemma checkDuplicate_track h p s :
  exists s', checkDuplicate h p s = (Ok tt, s')
             /\ disk s' = disk s /\ dupState s' = track (dupState s) (p, h).
Proof.
  unfold checkDuplicate, track, dupState.
  cbv beta iota delta [mbind M_bind bind gets when setAnalysis setFileHash modify].
  cbn [fst snd]. destruct (fileHashes s !! h) as [first|]; cbv beta iota.
  - destruct (alreadyPaired h first p (potentialDuplicates (analysis s))); cbn [negb];
      eexists; repeat split; reflexivity.
  - eexists; repeat split; reflexivity.
Qed.

Lemma groupsAfter_app seen a b :
  groupsAfter seen (a ++ b) = groupsAfter seen a ++ groupsAfter (seen ++ a) b.
Proof.
  revert seen. induction a as [|[p h] a IH]; intros seen; simpl.
  - now rewrite app_nil_r.
  - rewrite IH, <- !app_assoc. reflexivity.
Qed.

Lemma firstWith_app h seen more :
  firstWith h (seen ++ more) =
  match firstWith h seen with Some f => Some f | None => firstWith h more end.
Proof.
  unfold firstWith. induction seen as [|[p k] seen IH]; simpl; auto.
  destruct (String.eqb k h); auto.
Qed.

Lemma firstWith_in h seen f : firstWith h seen = Some f -> f ∈ map fst seen.
Proof.
  unfold firstWith. destruct (find _ seen) as [[p k]|] eqn:E; [|discriminate].
  intros [= <-]. apply find_some in E. destruct E as [E _].
  apply list_elem_of_In. apply (in_map fst) in E. exact E.
Qed.


Lemma alreadyPaired_fresh h first p dups :
  (forall g, g ∈ dups -> p ∉ files g) -> alreadyPaired h first p dups = false.
Proof.
  intros H. unfold alreadyPaired. apply not_true_is_false. intros E.
  apply existsb_exists in E. destruct E as (g & Hg & E).
  apply andb_true_iff in E. destruct E as [_ E].
  unfold includesPath in E. apply bool_decide_eq_true in E.
  apply (H g); auto. now apply list_elem_of_In.
Qed.

Lemma bookkeeping_step seen st p h :
  bookkeeping seen st -> p ∉ map fst seen ->
  bookkeeping (seen ++ [(p, h)]) (track st (p, h)).
Proof.
  intros (Hh & Hd & Hf) Hp. unfold track. cbn [fst snd].
  rewrite Hh. destruct (firstWith h seen) as [first|] eqn:E.
  - rewrite alreadyPaired_fresh by (intros g Hg Hin; apply Hp; eauto).
    repeat split; cbn [fst snd].
    + intros k. rewrite firstWith_app, Hh.
      destruct (firstWith k seen) eqn:Ek; auto.
      unfold firstWith. simpl. destruct (String.eqb h k) eqn:Ehk; auto.
      apply String.eqb_eq in Ehk. congruence.
    + rewrite groupsAfter_app, <- Hd. simpl. now rewrite E.
    + intros g q Hg Hq. rewrite map_app. apply elem_of_app.
      apply elem_of_app in Hg. destruct Hg as [Hg|Hg]; [left; eauto|].
      apply list_elem_of_singleton in Hg. subst g. cbn [files] in Hq.
      apply elem_of_cons in Hq. destruct Hq as [->|Hq].
      * left. eapply firstWith_in; eauto.
      * apply list_elem_of_singleton in Hq. subst q. right. simpl. apply list_elem_of_here.
  - repeat split; cbn [fst snd].
    + intros k. rewrite firstWith_app.
      destruct (decide (h = k)) as [<-|Hne].
      * rewrite lookup_insert_eq, E. unfold firstWith. simpl. now rewrite String.eqb_refl.
      * rewrite lookup_insert_ne by auto. rewrite Hh.
        destruct (firstWith k seen); auto.
        unfold firstWith. simpl. apply String.eqb_neq in Hne. now rewrite Hne.
    + rewrite groupsAfter_app, <- Hd. simpl. now rewrite E, app_nil_r.
    + intros g q Hg Hq. rewrite map_app. apply elem_of_app. left. eauto.
Qed.

Lemma bookkeeping_fold visited : forall seen st,
  bookkeeping seen st ->
  NoDup (map fst (seen ++ visited)) ->
  bookkeeping (seen ++ visited) (fold_left track visited st).
Proof.
  induction visited as [|[p h] visited IH]; intros seen st Hst Hnd; simpl.
  - now rewrite app_nil_r.
  - replace (seen ++ (p, h) :: visited) with ((seen ++ [(p, h)]) ++ visited) in *
      by now rewrite <- app_assoc.
    apply IH; auto. apply bookkeeping_step; auto.
    rewrite !map_app in Hnd. apply NoDup_app in Hnd. destruct Hnd as [Hnd _].
    apply NoDup_app in Hnd. destruct Hnd as (_ & Hx & _).
    intros Hin. refine (Hx p Hin _). simpl. apply list_elem_of_here.
Qed.

Lemma bookkeeping_empty : bookkeeping [] (∅, []).
Proof.
  repeat split; cbn [fst snd]. intros g p Hg. inversion Hg.
Qed.

Lemma quiet_refl s : quiet s s.
Proof. split; reflexivity. Qed.

Lemma quiet_trans a b c : quiet a b -> quiet b c -> quiet a c.
Proof. intros [H1 H2] [H3 H4]. split; congruence. Qed.

Lemma quiet_say n : steps quiet (say n).
Proof. intros s. split; reflexivity. Qed.

Lemma quiet_setAnalysis f :
  (forall a, potentialDuplicates (f a) = potentialDuplicates a) ->
  steps quiet (setAnalysis f).
Proof. intros H s. split; [reflexivity|]. unfold dupState. simpl. now rewrite H. Qed.

Lemma quiet_statOf p : steps quiet (statOf p).
Proof. intros s. split; reflexivity. Qed.

Lemma quiet_readOf p : steps quiet (readOf p).
Proof. intros s. split; reflexivity. Qed.

Lemma quiet_listOf p : steps quiet (listOf p).
Proof. intros s. split; reflexivity. Qed.

#[export] Hint Resolve quiet_refl quiet_trans quiet_say quiet_statOf quiet_readOf
  quiet_listOf : steps.
#[export] Hint Extern 1 (steps quiet (setAnalysis _)) =>
  apply quiet_setAnalysis; intros; reflexivity : steps.

Lemma quiet_isLargeFile p : steps quiet (isLargeFile p).
Proof. unfold isLargeFile. msteps. Qed.

Lemma quiet_isLikelyUnused p : steps quiet (isLikelyUnused p).
Proof. unfold isLikelyUnused. msteps. Qed.

Lemma returns_isLargeFile p : returns (isLargeFile p).
Proof.
  apply returns_tryCatch. intros e.
  apply returns_bind; [apply returns_say | intros _; apply returns_ret].
Qed.

Lemma returns_isLikelyUnused p : returns (isLikelyUnused p).
Proof.
  apply returns_tryCatch. intros e.
  apply returns_bind; [apply returns_say | intros _; apply returns_ret].
Qed.

#[export] Hint Resolve quiet_isLargeFile quiet_isLikelyUnused : steps.


Section Tracking.
Variable t : node.

Lemma tracking_quiet {A} (m : M Analyzer A) :
  steps quiet m -> returns m -> tracking t [] m.
Proof.
  intros Hq Hr s Hs. destruct (returns_run m s Hr) as (a & s' & E).
  destruct (Hq s) as [Hd Hk]. unfold exec in *. rewrite E in *. simpl in *.
  exists a, s'. repeat split; congruence.
Qed.

Lemma tracking_ret {A} (a : A) : tracking t [] (mret a).
Proof. intros s Hs. exists a, s. auto. Qed.

Lemma tracking_bind {A B} F G (m : M Analyzer A) (k : A -> M Analyzer B) :
  tracking t F m -> (forall a, tracking t G (k a)) -> tracking t (F ++ G) (m ≫= k).
Proof.
  intros Hm Hk s Hs. destruct (Hm s Hs) as (a & s1 & E1 & Hd1 & Hk1).
  destruct (Hk a s1 Hd1) as (b & s2 & E2 & Hd2 & Hk2).
  exists b, s2. cbv beta iota delta [mbind M_bind bind]. rewrite E1.
  repeat split; auto. now rewrite fold_left_app, <- Hk1.
Qed.

Lemma tracking_first {A B} G (m : M Analyzer A) (k : A -> M Analyzer B) :
  tracking t [] m -> (forall a, tracking t G (k a)) -> tracking t G (m ≫= k).
Proof. intros Hm Hk. now apply (tracking_bind [] G). Qed.

Lemma tracking_last {A B} F (m : M Analyzer A) (k : A -> M Analyzer B) :
  tracking t F m -> (forall a, tracking t [] (k a)) -> tracking t F (m ≫= k).
Proof. intros Hm Hk. rewrite <- (app_nil_r F). now apply tracking_bind. Qed.

Lemma tracking_tryCatch {A} F (body : M Analyzer A) h :
  tracking t F body -> tracking t F (tryCatch body h).
Proof.
  intros Hb s Hs. destruct (Hb s Hs) as (a & s' & E & H).
  exists a, s'. unfold tryCatch. now rewrite E.
Qed.

Lemma tracking_when b (m : M Analyzer unit) :
  tracking t [] m -> tracking t [] (when b m).
Proof. destruct b; simpl; auto. intros _. apply tracking_ret. Qed.

Lemma tracking_say n : tracking t [] (say n).
Proof. apply tracking_quiet; [apply quiet_say | apply returns_say]. Qed.

Lemma tracking_setAnalysis f :
  (forall a, potentialDuplicates (f a) = potentialDuplicates a) ->
  tracking t [] (setAnalysis f).
Proof.
  intros H. apply tracking_quiet; [now apply quiet_setAnalysis | apply returns_modify].
Qed.

Lemma tracking_checkDuplicate h p : tracking t [(p, h)] (checkDuplicate h p).
Proof.
  intros s Hs. destruct (checkDuplicate_track h p s) as (s' & E & Hd & Hk).
  exists tt, s'. repeat split; auto. congruence.
Qed.

Lemma tracking_forOfAcc {A B} F (items : list A) (body : B -> A -> M Analyzer B) :
  (forall acc item, tracking t (F item) (body acc item)) ->
  forall acc, tracking t (flat_map F items) (forOfAcc items acc body).
Proof.
  intros H. induction items as [|x xs IH]; intros acc; simpl.
  - apply tracking_ret.
  - apply (tracking_bind (F x) (flat_map F xs) (body acc x)
             (fun acc' => forOfAcc xs acc' body)); auto.
Qed.

Lemma tracking_forOf {A} F (items : list A) (body : A -> M Analyzer unit) :
  (forall item, tracking t (F item) (body item)) ->
  tracking t (flat_map F items) (forOf items body).
Proof.
  intros H. induction items as [|x xs IH]; simpl.
  - apply tracking_ret.
  - apply (tracking_bind (F x) (flat_map F xs) (body x) (fun _ => forOf xs body)); auto.
Qed.

End Tracking.

Section Linking.
Variable sha256 : string -> string.
Variable t : node.

Lemma tracking_isLargeFile p : tracking t [] (isLargeFile p).
Proof. apply tracking_quiet; [apply quiet_isLargeFile | apply returns_isLargeFile]. Qed.

Lemma tracking_isLikelyUnused p : tracking t [] (isLikelyUnused p).
Proof. apply tracking_quiet; [apply quiet_isLikelyUnused | apply returns_isLikelyUnused]. Qed.

Lemma statOf_run p s : statOf p s = (fsStat (disk s) p, s).
Proof. reflexivity. Qed.

(** Hashing a file and recording it. *)
Lemma tracking_hash_and_check itemPath itemRelPath {B} (rest : M Analyzer B) :
  tracking t [] rest ->
  tracking t
    (match fsReadFile t itemPath with
     | Ok content => if String.eqb (sha256 content) "" then []
                     else [(itemRelPath, sha256 content)]
     | Throw _ => []
     end)
    (fileHash ← calculateFileHash sha256 itemPath;
     match fileHash with
     | Some h => when (negb (String.eqb h "")) (checkDuplicate h itemRelPath)
     | None => mret tt
     end;;
     rest).
Proof.
  intros Hrest s Hs.
  unfold calculateFileHash, readOf.
  cbv beta iota delta [mbind M_bind bind tryCatch]. rewrite Hs.
  destruct (fsReadFile t itemPath) as [content|e]; cbv beta iota.
  - cbv beta iota delta [mret M_ret ret].
    destruct (String.eqb (sha256 content) ""); cbn [negb when].
    + cbv beta iota delta [ret]. apply (Hrest s Hs).
    + destruct (tracking_checkDuplicate t (sha256 content) itemRelPath s Hs)
        as ([] & s1 & E1 & Hd1 & Hk1).
      rewrite E1. destruct (Hrest s1 Hd1) as (b & s2 & E2 & Hd2 & Hk2).
      exists b, s2. repeat split; auto. simpl in *. congruence.
  - cbv beta iota delta [say modify mret M_ret ret].
    match goal with |- context [rest ?s1] => destruct (Hrest s1 Hs) as (b & s2 & E2 & H2) end.
    exists b, s2. rewrite E2. auto.
Qed.

Lemma tracking_value {A B} (m : M Analyzer A) (v : A) (k : A -> M Analyzer B) G :
  (forall s, disk s = t -> m s = (Ok v, s)) ->
  tracking t G (k v) -> tracking t G (m ≫= k).
Proof.
  intros Hm Hk s Hs. cbv beta iota delta [mbind M_bind bind].
  rewrite (Hm s Hs). apply (Hk s Hs).
Qed.

Lemma tracking_caught {A B} (m : M Analyzer A) (e : error) (k : A -> M Analyzer B) h G :
  (forall s, disk s = t -> m s = (Throw e, s)) ->
  tracking t G (h e) -> tracking t G (tryCatch (m ≫= k) h).
Proof.
  intros Hm Hh s Hs. cbv beta iota delta [tryCatch mbind M_bind bind].
  rewrite (Hm s Hs). apply (Hh s Hs).
Qed.

Lemma tracking_analyzeItem self visit dirPath relativePath stats item :
  nests t visit self ->
  tracking t (hashedItem sha256 visit t dirPath relativePath item)
    (analyzeItem sha256 self dirPath relativePath stats item).
Proof.
  intros Hself. unfold analyzeItem, hashedItem.
  set (itemPath := Path.join dirPath item).
  set (itemRelPath := Path.join relativePath item).
  destruct (fsStat t itemPath) as [[atime sz| |]|e] eqn:Est.
  - (* a file *)
    apply tracking_tryCatch.
    eapply tracking_value; [intros s Hs; now rewrite statOf_run, Hs, Est|].
    cbn [isDirectory isFile].
    apply tracking_first; [apply tracking_when, tracking_say|intros _].
    apply tracking_first; [apply tracking_setAnalysis; reflexivity|intros _].
    apply tracking_first; [apply tracking_when, tracking_setAnalysis; reflexivity|intros _].
    apply tracking_first; [apply tracking_isLargeFile|intros large].
    apply tracking_first; [apply tracking_when, tracking_setAnalysis; reflexivity|intros _].
    apply tracking_hash_and_check.
    apply tracking_first; [apply tracking_isLikelyUnused|intros unused].
    apply tracking_first; [|intros _; apply tracking_ret].
    destruct unused; [|apply tracking_ret].
    eapply tracking_value; [intros s Hs; now rewrite statOf_run, Hs, Est|].
    apply tracking_setAnalysis; reflexivity.
  - (* a directory *)
    destruct (String.eqb item "node_modules").
    + apply tracking_tryCatch.
      eapply tracking_value; [intros s Hs; now rewrite statOf_run, Hs, Est|].
      cbn [isDirectory].
      apply tracking_first; [apply tracking_say|intros _; apply tracking_ret].
    + destruct Hself as [Hself|Hself].
      * apply tracking_tryCatch.
        eapply tracking_value; [intros s Hs; now rewrite statOf_run, Hs, Est|].
        cbn [isDirectory].
        apply tracking_first; [apply tracking_say|intros _].
        apply tracking_last; [apply Hself|intros dirStats; apply tracking_ret].
      * destruct (Hself itemPath itemRelPath) as [-> Hthrow].
        intros s Hs.
        cbv beta iota delta [tryCatch mbind M_bind bind].
        rewrite statOf_run, Hs, Est. cbn [isDirectory]. rewrite Hthrow.
        cbv beta iota delta [say modify throw mret M_ret ret].
        eexists _, _. repeat split; auto.
  - (* neither *)
    apply tracking_tryCatch.
    eapply tracking_value; [intros s Hs; now rewrite statOf_run, Hs, Est|].
    cbn [isDirectory isFile]. apply tracking_ret.
  - (* stat failed *)
    eapply tracking_caught; [intros s Hs; now rewrite statOf_run, Hs, Est|].
    apply tracking_first; [apply tracking_say|intros _; apply tracking_ret].
Qed.

Lemma tracking_analyzeBody self visit dirPath relativePath :
  nests t visit self ->
  tracking t (hashedIn sha256 visit t dirPath relativePath)
    (analyzeBody sha256 self dirPath relativePath).
Proof.
  intros Hself. unfold analyzeBody, hashedIn.
  destruct (fsReaddir t dirPath) as [items|e] eqn:Els.
  - apply tracking_tryCatch.
    apply tracking_first; [apply tracking_say|intros _].
    eapply tracking_value; [intros s Hs; unfold gets; now rewrite Hs|].
    destruct (fsExists t dirPath); cbn [negb].
    2:{ apply tracking_first; [apply tracking_say|intros _; apply tracking_ret]. }
    eapply tracking_value; [intros s Hs; unfold listOf; now rewrite Hs, Els|].
    apply tracking_first; [apply tracking_say|intros _].
    apply tracking_last.
    { apply tracking_forOfAcc. intros acc item. now apply tracking_analyzeItem. }
    intros stats.
    apply tracking_first; [apply tracking_setAnalysis; reflexivity|intros _].
    apply tracking_first; [apply tracking_say|intros _; apply tracking_ret].
  - intros s Hs.
    cbv beta iota delta [tryCatch mbind M_bind bind say modify gets listOf].
    cbn [disk]. rewrite Hs.
    destruct (fsExists t dirPath); cbn [negb]; cbv beta iota.
    + cbn [disk]. rewrite ?Hs, Els. eexists _, _. cbv beta iota delta [mret M_ret ret]. repeat split; auto.
    + eexists _, _. cbv beta iota delta [mret M_ret ret]. repeat split; auto.
Qed.

Lemma tracking_analyzeDirectory stack : forall dirPath relativePath,
  tracking t (hashedFiles sha256 stack t dirPath relativePath)
    (analyzeDirectory sha256 stack dirPath relativePath).
Proof.
  induction stack as [|stack IH]; intros dirPath relativePath;
    apply tracking_analyzeBody.
  - right. intros p r. split; reflexivity.
  - left. exact IH.
Qed.

Lemma tracking_analyzerMain stack roots :
  tracking t (hashedInPass sha256 stack t roots) (analyzerMain sha256 stack roots).
Proof.
  unfold analyzerMain, hashedInPass. apply tracking_forOf. intros [key dirPath].
  eapply tracking_value; [intros s Hs; unfold gets; now rewrite Hs|].
  cbn [snd]. destruct (fsExists t dirPath).
  - apply tracking_first; [apply tracking_say|intros _].
    apply tracking_last; [apply tracking_analyzeDirectory|intros _; apply tracking_ret].
  - apply tracking_say.
Qed.

End Linking.

(** *** With stack to spare, the bound does not matter *)

Lemma hashedIn_agree sha256 visit1 visit2 t dirPath relativePath :
  (forall item,
     fsStat t (Path.join dirPath item) = Ok StatDirectory ->
     visit1 (Path.join dirPath item) (Path.join relativePath item)
     = visit2 (Path.join dirPath item) (Path.join relativePath item)) ->
  hashedIn sha256 visit1 t dirPath relativePath
  = hashedIn sha256 visit2 t dirPath relativePath.
Proof.
  intros H. unfold hashedIn. destruct (fsExists t dirPath); auto.
  destruct (fsReaddir t dirPath) as [items|]; auto.
  induction items as [|item items IH]; cbn [flat_map]; auto.
  rewrite IH. f_equal. unfold hashedItem.
  destruct (fsStat t (Path.join dirPath item)) as [[]|] eqn:E; auto.
  destruct (String.eqb item "node_modules"); auto.
Qed.

(** A pass visits the same files under every bound that is at least the
    depth of the tree below the directory. *)
Lemma hashedFiles_stable sha256 t stack : forall dirPath relativePath,
  heightAt t dirPath <= stack ->
  hashedFiles sha256 (S stack) t dirPath relativePath
  = hashedFiles sha256 stack t dirPath relativePath.
Proof.
  induction stack as [|stack IH]; intros dirPath relativePath Hdeep;
    cbn [hashedFiles]; apply hashedIn_agree; intros item Hdir;
    pose proof (heightAt_subdirectory t dirPath item Hdir) as Hlt.
  - lia.
  - apply IH. lia.
Qed.

(** C6 (as amended): in one analysis pass from a fresh state over files
    with distinct paths, every file whose digest was already seen is
    reported in exactly one group, made of the first path visited with that
    digest and of the file's own path, and nothing else is reported.  So
    two files with the same content form one group whatever the order;
    a third copy adds a second group for the same digest. *)
Theorem duplicates_pair_with_first_seen
  (sha256 : string -> string) (stack : nat) (roots : list (string * path))
  (s : Analyzer) :
  let visited := hashedInPass sha256 stack (disk s) roots in
  fileHashes s = ∅ ->
  potentialDuplicates (analysis s) = [] ->
  NoDup (map fst visited) ->
  potentialDuplicates (analysis (exec (analyzerMain sha256 stack roots) s))
  = expectedGroups visited.
Proof.
  intros visited Hh Hd Hnd.
  destruct (tracking_analyzerMain sha256 (disk s) stack roots s eq_refl)
    as ([] & s' & E & _ & Hk).
  unfold exec. rewrite E. cbn [snd].
  change (potentialDuplicates (analysis s')) with (dupState s').2.
  rewrite Hk. unfold dupState. rewrite Hh, Hd.
  destruct (bookkeeping_fold visited [] (∅, []) bookkeeping_empty Hnd) as (_ & Hg & _).
  exact Hg.
Qed.

(** C6 on two copies: one group, in either order of the listing. *)
Lemma duplicates_pair_with_first_seen_witness :
  NoDup (map fst (hashedInPass toyDigest 8
           (Dir true [("src", Dir true [("b.txt", File noon "same" true);
                                        ("a.txt", File noon "same" true)])])
           [("frontend", ["src"])]))
  /\ potentialDuplicates (analysis (exec
       (analyzerMain toyDigest 8 [("frontend", ["src"])])
       (freshAnalyzer
          (Dir true [("src", Dir true [("b.txt", File noon "same" true);
                                       ("a.txt", File noon "same" true)])])
          noon)))
     = [ {| hash := "sha:same"; files := [["src"; "b.txt"]; ["src"; "a.txt"]] |} ].
Proof.
  pose (t := Dir true [("src", Dir true [("b.txt", File noon "same" true);
                                         ("a.txt", File noon "same" true)])]).
  assert (Hnd : NoDup (map fst (hashedInPass toyDigest 8 (disk (freshAnalyzer t noon))
                                  [("frontend", ["src"])]))).
  { apply (bool_decide_unpack _). vm_compute. exact I. }
  split; [exact Hnd|].
  exact (duplicates_pair_with_first_seen toyDigest 8 [("frontend", ["src"])]
           (freshAnalyzer t noon) eq_refl eq_refl Hnd).
Defined.

(** C6 as stated fails: three files with the same content yield two
    groups for the one digest, not a single merged group. *)
Lemma three_copies_two_groups :
  potentialDuplicates (analysis (exec
    (analyzerMain toyDigest 8 [("frontend", ["src"])])
    (freshAnalyzer copiesTree noon)))
  = [ {| hash := "sha:same"; files := [["src"; "a.txt"]; ["src"; "b.txt"]] |};
      {| hash := "sha:same"; files := [["src"; "a.txt"]; ["src"; "c.txt"]] |} ].
Proof. vm_compute. reflexivity. Qed.

(** * Answers to the prompts *)

Lemma lowerChar_y c : Js.lowerChar c = "y"%char <-> c = "y"%char \/ c = "Y"%char.
Proof.
  destruct c as [[] [] [] [] [] [] [] []]; vm_compute;
    (split; [ intros H; first [discriminate H | auto]
            | intros [H|H]; first [discriminate H | reflexivity] ]).
Qed.

Lemma toLowerCase_y answer :
  Js.toLowerCase answer = "y" <-> answer = "y" \/ answer = "Y".
Proof.
  destruct answer as [|c [|c' rest]]; cbn [Js.toLowerCase].
  - split; [discriminate | intros [|]; discriminate].
  - split.
    + intros [= H]. apply lowerChar_y in H. destruct H; subst; auto.
    + intros [[= ->]|[= ->]]; reflexivity.
  - split; [discriminate | intros [|]; discriminate].
Qed.

(** X1: only the answers [y] and [Y] confirm a deletion; every other
    answer, [yes] and the empty one included, keeps the item and does
    nothing but print that it is kept. *)
Theorem only_y_confirms (config : Config) (q : question) (answer : string) (w : World) :
  answerQuestion config q answer w =
  if bool_decide (answer = "y" \/ answer = "Y")
  then match q with
       | AskDirectory dirPath reason => deleteDirectory config dirPath reason w
       | AskFile filePath reason => deleteFile config filePath reason w
       end
  else (Ok tt, logged (match q with
                       | AskDirectory dirPath _ => MsgKeepingDirectory dirPath
                       | AskFile filePath _ => MsgKeepingFile filePath
                       end) w).
Proof.
  unfold answerQuestion.
  destruct (String.eqb (Js.toLowerCase answer) "y") eqn:E.
  - apply String.eqb_eq, toLowerCase_y in E.
    rewrite bool_decide_eq_true_2 by exact E. now destruct q.
  - rewrite bool_decide_eq_false_2.
    + now destruct q.
    + intros H. apply toLowerCase_y in H. apply String.eqb_neq in E. contradiction.
Qed.

(** * The dry run as a preview of the prompted run *)

Lemma held_nothing before : held before [] = before.
Proof. now destruct before. Qed.

(** Readline keeps the first of the questions put to it, whether they come
    at once or one after the other. *)
Lemma held_held before asked more :
  held (held before asked) more = held before (asked ++ more).
Proof. destruct before; [|reflexivity]. now destruct asked. Qed.

Lemma advance_nothing w : advance (fs w) [] [] w = w.
Proof. destruct w. unfold advance. cbn. now rewrite app_nil_r, held_nothing. Qed.

Lemma advance_advance t1 l1 a1 t2 l2 a2 w :
  advance t2 l2 a2 (advance t1 l1 a1 w) = advance t2 (l1 ++ l2) (a1 ++ a2) w.
Proof. unfold advance. cbn. now rewrite app_assoc, held_held. Qed.

Section Previews.

Lemma previews_reads {A} (f : node -> Z -> outcome A) :
  previews (fun w => (f (fs w) (clock w), w)) (fun w => (f (fs w) (clock w), w)).
Proof.
  intros wd wa Hfs Hck. exists (f (fs wd) (clock wd)), (fs wd), []. split.
  - now rewrite advance_nothing.
  - cbn. rewrite Hfs at 2. rewrite advance_nothing. now rewrite Hfs, Hck.
Qed.

Lemma previews_ret {A} (a : A) : previews (mret a) (mret a).
Proof. apply (previews_reads (fun _ _ => Ok a)). Qed.

Lemma previews_throw {A} e : previews (@throw World A e) (throw e).
Proof. apply (previews_reads (fun _ _ => Throw e)). Qed.

Lemma previews_stat p : previews (statSync p) (statSync p).
Proof. apply (previews_reads (fun t _ => fsStat t p)). Qed.

Lemma previews_exists p : previews (existsSync p) (existsSync p).
Proof. apply (previews_reads (fun t _ => Ok (fsExists t p))). Qed.

Lemma previews_readdir p : previews (readdirSync p) (readdirSync p).
Proof. apply (previews_reads (fun t _ => fsReaddir t p)). Qed.

Lemma previews_now : previews now now.
Proof. apply (previews_reads (fun _ c => Ok c)). Qed.

Lemma previews_print m : proposal m = None -> previews (print m) (print m).
Proof.
  intros Hm wd wa Hfs Hck. exists (Ok tt), (fs wd), [m]. split.
  - unfold print, modify, advance. now rewrite held_nothing.
  - unfold isProposal. cbn. rewrite Hm. cbn. unfold print, modify, advance.
    now rewrite held_nothing, Hfs.
Qed.

Lemma previews_propose_file p reason :
  previews (print (MsgWouldDelete p reason)) (rlQuestion (AskFile p reason)).
Proof.
  intros wd wa Hfs Hck. exists (Ok tt), (fs wd), [MsgWouldDelete p reason]. split.
  - unfold print, modify, advance. now rewrite held_nothing.
  - cbn. unfold rlQuestion, modify, advance. now rewrite app_nil_r, Hfs.
Qed.

Lemma previews_propose_directory p reason :
  previews (print (MsgWouldDeleteDirectory p reason)) (rlQuestion (AskDirectory p reason)).
Proof.
  intros wd wa Hfs Hck. exists (Ok tt), (fs wd), [MsgWouldDeleteDirectory p reason]. split.
  - unfold print, modify, advance. now rewrite held_nothing.
  - cbn. unfold rlQuestion, modify, advance. now rewrite app_nil_r, Hfs.
Qed.

Lemma previews_bind {A B} (d a : M World A) (kd ka : A -> M World B) :
  previews d a -> (forall x, previews (kd x) (ka x)) -> previews (d ≫= kd) (a ≫= ka).
Proof.
  intros H K wd wa Hfs Hck.
  destruct (H wd wa Hfs Hck) as (r & t & lines & Hd & Ha).
  unfold mbind, M_bind, bind. rewrite Hd, Ha.
  destruct r as [x|e].
  - destruct (K x (advance t lines [] wd)
                (advance t (List.filter (fun m => negb (isProposal m)) lines)
                   (omap proposal lines) wa))
      as (r' & t' & lines' & Hd' & Ha'); [reflexivity | exact Hck |].
    exists r', t', (lines ++ lines').
    rewrite Hd', Ha', !advance_advance, List.filter_app, omap_app. split; reflexivity.
  - exists (Throw e), t, lines. split; reflexivity.
Qed.

Lemma previews_tryCatch {A} (d a : M World A) (hd ha : error -> M World A) :
  previews d a -> (forall e, previews (hd e) (ha e)) ->
  previews (tryCatch d hd) (tryCatch a ha).
Proof.
  intros H K wd wa Hfs Hck.
  destruct (H wd wa Hfs Hck) as (r & t & lines & Hd & Ha).
  unfold tryCatch. rewrite Hd, Ha.
  destruct r as [x|e].
  - exists (Ok x), t, lines. split; reflexivity.
  - destruct (K e (advance t lines [] wd)
                (advance t (List.filter (fun m => negb (isProposal m)) lines)
                   (omap proposal lines) wa))
      as (r' & t' & lines' & Hd' & Ha'); [reflexivity | exact Hck |].
    exists r', t', (lines ++ lines').
    rewrite Hd', Ha', !advance_advance, List.filter_app, omap_app. split; reflexivity.
Qed.

Lemma previews_forOf {A} (items : list A) (d a : A -> M World unit) :
  (forall x, previews (d x) (a x)) -> previews (forOf items d) (forOf items a).
Proof.
  intros H. induction items as [|x xs IH]; cbn [forOf].
  - apply previews_ret.
  - apply (previews_bind (d x) (a x)); auto.
Qed.

Lemma previews_when (b : bool) (d a : M World unit) :
  previews d a -> previews (when b d) (when b a).
Proof. intros H. destruct b; cbn [when]; [exact H | apply previews_ret]. Qed.

End Previews.

Ltac pstep :=
  lazymatch goal with
  | |- previews (mbind _ _) (mbind _ _) => apply previews_bind; [ | intros ?]
  | |- previews (tryCatch _ _) (tryCatch _ _) => apply previews_tryCatch; [ | intros ?]
  | |- previews (when ?b _) (when ?b _) => apply previews_when
  | |- previews (mret _) (mret _) => apply previews_ret
  | |- previews (throw _) (throw _) => apply previews_throw
  | |- previews (forOf _ _) (forOf _ _) => apply previews_forOf; intros ?
  | |- previews (statSync _) _ => apply previews_stat
  | |- previews (existsSync _) _ => apply previews_exists
  | |- previews (readdirSync _) _ => apply previews_readdir
  | |- previews now _ => apply previews_now
  | |- previews (print _) (print _) => apply previews_print; reflexivity
  | |- previews (if negb ?b then _ else _) _ => destruct b; cbn [negb]
  | |- previews (if ?b then _ else _) _ => destruct b eqn:?
  | |- previews (match ?x with _ => _ end) _ => destruct x eqn:?
  end.

Section Preview.
Variable config : Config.
Hypothesis prompting : promptBeforeDeletion (options config) = true.

Lemma previews_isRecentlyAccessed p :
  previews (isRecentlyAccessed config p) (isRecentlyAccessed config p).
Proof. unfold isRecentlyAccessed. repeat pstep. Qed.

Lemma previews_isEmptyDir p : previews (isEmptyDir p) (isEmptyDir p).
Proof. unfold isEmptyDir. repeat pstep. Qed.

Lemma previews_handleFileDeletion p reason :
  previews (handleFileDeletion config p reason dryRunOptions)
           (handleFileDeletion config p reason deleteOptions).
Proof.
  unfold handleFileDeletion. cbn [dryRun dryRunOptions deleteOptions].
  rewrite prompting. apply previews_propose_file.
Qed.

Lemma previews_handleDirectoryDeletion p reason :
  previews (handleDirectoryDeletion config p reason dryRunOptions)
           (handleDirectoryDeletion config p reason deleteOptions).
Proof.
  unfold handleDirectoryDeletion. cbn [dryRun dryRunOptions deleteOptions].
  rewrite prompting. apply previews_propose_directory.
Qed.

Lemma previews_scanItem selfd selfa dirPath item :
  (forall p, previews (selfd p dryRunOptions) (selfa p deleteOptions)) ->
  previews (scanItem config selfd dirPath dryRunOptions item)
           (scanItem config selfa dirPath deleteOptions item).
Proof.
  intros Hself. unfold scanItem.
  repeat first [ apply Hself | apply previews_isRecentlyAccessed
               | apply previews_isEmptyDir | apply previews_handleFileDeletion
               | apply previews_handleDirectoryDeletion | pstep ].
Qed.

Lemma previews_scanBody selfd selfa dirPath :
  (forall p, previews (selfd p dryRunOptions) (selfa p deleteOptions)) ->
  previews (scanBody config selfd dirPath dryRunOptions)
           (scanBody config selfa dirPath deleteOptions).
Proof.
  intros Hself. unfold scanBody.
  repeat first [ apply previews_scanItem; assumption | pstep ].
Qed.

Lemma previews_scanDirectory stack : forall dirPath,
  previews (scanDirectory config stack dirPath dryRunOptions)
           (scanDirectory config stack dirPath deleteOptions).
Proof.
  induction stack as [|n IH]; intros dirPath; cbn [scanDirectory];
    apply previews_scanBody; intros p; [apply previews_throw | apply IH].
Qed.

End Preview.

(** X2: with prompting on, the traversal in delete mode leaves the tree as
    it is and prints the lines of the dry run that propose nothing.  Of the
    deletions that the dry run proposes, only the first becomes a question
    that readline holds, and only when readline holds none yet: the calls
    of [rl.question] for all the others leave no callback, so that no
    answer can confirm them. *)
Theorem prompted_run_asks_only_the_first_proposal
  (config : Config) (stack : nat) (dirPath : path) (w : World) :
  promptBeforeDeletion (options config) = true ->
  exists lines,
    exec (scanDirectory config stack dirPath dryRunOptions) w
    = advance (fs w) lines [] w
    /\ exec (scanDirectory config stack dirPath deleteOptions) w
       = advance (fs w) (List.filter (fun m => negb (isProposal m)) lines)
           (omap proposal lines) w
    /\ pending (exec (scanDirectory config stack dirPath deleteOptions) w)
       = match pending w with
         | [] => take 1 (omap proposal lines)
         | _ :: _ => pending w
         end.
Proof.
  intros Hprompt.
  destruct (previews_scanDirectory config Hprompt stack dirPath w w eq_refl eq_refl)
    as (r & t & lines & Hd & Ha).
  pose proof (dry_run_traversal_reads_only config stack dirPath w) as [Hfs _].
  unfold exec in *. rewrite Hd in Hfs. cbn in Hfs. subst t.
  exists lines. rewrite Hd, Ha. repeat split.
Qed.

Lemma prompted_run_asks_only_the_first_proposal_witness :
  promptBeforeDeletion (options getDefaultConfig) = true
  /\ exists lines,
       exec (scanDirectory getDefaultConfig 8 ["src"] dryRunOptions)
            (freshWorld twoArtifactsTree noon)
       = advance twoArtifactsTree lines [] (freshWorld twoArtifactsTree noon)
       /\ exec (scanDirectory getDefaultConfig 8 ["src"] deleteOptions)
               (freshWorld twoArtifactsTree noon)
          = advance twoArtifactsTree (List.filter (fun m => negb (isProposal m)) lines)
              (omap proposal lines) (freshWorld twoArtifactsTree noon)
       /\ pending (exec (scanDirectory getDefaultConfig 8 ["src"] deleteOptions)
                     (freshWorld twoArtifactsTree noon))
          = take 1 (omap proposal lines).
Proof.
  split; [reflexivity|].
  exact (prompted_run_asks_only_the_first_proposal getDefaultConfig 8 ["src"]
           (freshWorld twoArtifactsTree noon) eq_refl).
Defined.

(** Two artifacts: the dry run proposes both, the prompted run asks about
    the first and leaves the tree as it is. *)
Example second_artifact_is_never_asked :
  console (exec (scanDirectory getDefaultConfig 8 ["src"] dryRunOptions)
             (freshWorld twoArtifactsTree noon))
  = [ MsgWouldDelete ["src"; "a.log"] "Build artifact";
      MsgWouldDelete ["src"; "b.tmp"] "Build artifact" ]
  /\ pending (exec (scanDirectory getDefaultConfig 8 ["src"] deleteOptions)
                (freshWorld twoArtifactsTree noon))
     = [ AskFile ["src"; "a.log"] "Build artifact" ]
  /\ fs (exec (scanDirectory getDefaultConfig 8 ["src"] deleteOptions)
           (freshWorld twoArtifactsTree noon))
     = twoArtifactsTree.
Proof. evaluate. Qed.

(** * What a dry run changes *)

Lemma steps_weaken {S A} (R R' : S -> S -> Prop) (m : M S A) :
  (forall s s', R s s' -> R' s s') -> steps R m -> steps R' m.
Proof. intros H Hm s. apply H, Hm. Qed.

Lemma keptOutside_refl B w : keptOutside B w w.
Proof. intros p _. split; auto. Qed.

Lemma keptOutside_trans B a b c :
  keptOutside B a b -> keptOutside B b c -> keptOutside B a c.
Proof.
  intros H1 H2 p Hp. destruct (H1 p Hp) as [K1 F1], (H2 p Hp) as [K2 F2].
  split; [congruence | eauto].
Qed.

Lemma keptOutside_untouched B w w' : untouched w w' -> keptOutside B w w'.
Proof. intros [Hfs _] p _. rewrite Hfs. split; auto. Qed.

#[export] Hint Resolve keptOutside_refl keptOutside_trans : steps.

Lemma untouched_rlClose : steps untouched rlClose.
Proof. intros w. split; reflexivity. Qed.

Lemma keptOutside_rmdirRecursive B d :
  steps (keptOutside B) (rmdirSyncRecursive (Path.join B d)).
Proof.
  intros w. unfold exec, rmdirSyncRecursive.
  destruct (isRoot (Path.join B d)); [apply keptOutside_refl|].
  assert (Hrm : keptOutside B w (setFs (Fs.remove (Path.join B d) (fs w)) w)).
  { intros p Hp.
    assert (Hq : ¬ Path.join B d `prefix_of` p).
    { intros H. apply Hp. etrans; [|exact H]. now apply prefix_app_r. }
    split; [now apply kindAt_remove | intros a c r Hf; now apply lookup_remove_file]. }
  destruct (Fs.lookup (fs w) (Path.join B d)) as [[]|]; cbn [snd];
    first [exact Hrm | apply keptOutside_refl].
Qed.

Section OnlyBackups.
Variable engineDateParse : string -> option Z.
Variable config : Config.
Local Abbreviation kept := (steps (keptOutside (backupDir config))).

Lemma kept_reading {A} (m : M World A) : steps untouched m -> kept m.
Proof. apply steps_weaken, keptOutside_untouched. Qed.

Hint Resolve kept_reading : steps.

Lemma kept_sweepBackup t d : kept (sweepBackup engineDateParse config (backupDir config) t d).
Proof.
  unfold sweepBackup.
  repeat first [ apply keptOutside_rmdirRecursive
               | solve [apply kept_reading; eauto with steps] | mstep ].
Qed.

Lemma kept_cleanupOldBackups : kept (cleanupOldBackups engineDateParse config).
Proof.
  unfold cleanupOldBackups.
  repeat first [ apply kept_sweepBackup
               | solve [apply kept_reading; eauto with steps] | mstep ].
Qed.

Lemma untouched_frontend :
  steps untouched
    (tryCatch
       (let frontendDir := ["frontend"] in
        ex ← existsSync frontendDir;
        empty ← (if ex then isEmptyDir frontendDir else mret false);
        when (ex && empty)
          (if dryRun dryRunOptions then print (MsgWouldDeleteEmptyFrontend frontendDir)
           else handleDirectoryDeletion config frontendDir "Empty directory" dryRunOptions))
       (fun err => print (ErrFrontend err))).
Proof.
  cbn [dryRun dryRunOptions].
  repeat first [ apply untouched_isEmptyDir | solve [eauto with steps] | mstep ].
Qed.

Lemma kept_runCleanup stack :
  kept (runCleanup engineDateParse config stack dryRunOptions).
Proof.
  unfold runCleanup.
  repeat first [ apply kept_cleanupOldBackups
               | apply kept_reading, untouched_frontend
               | apply kept_reading, dry_run_traversal_reads_only
               | apply kept_reading, untouched_rlClose
               | solve [apply kept_reading; eauto with steps] | mstep ].
Qed.

Lemma untouched_runCleanup stack :
  createBackups (options config) = false ->
  steps untouched (runCleanup engineDateParse config stack dryRunOptions).
Proof.
  intros Hoff. unfold runCleanup, cleanupOldBackups. rewrite Hoff. cbn [negb].
  repeat first [ apply untouched_frontend
               | apply dry_run_traversal_reads_only
               | apply untouched_rlClose
               | solve [eauto with steps] | mstep ].
Qed.

End OnlyBackups.

(** X3: a dry run changes nothing outside the backup directory, where
    nothing appears, disappears or changes kind and every file keeps its
    content and access time; with backups switched off it changes nothing
    at all. *)
Theorem dry_run_changes_only_backups
  (engineDateParse : string -> option Z) (config : Config) (stack : nat)
  (w : World) (p : path) :
  let w' := exec (runCleanup engineDateParse config stack dryRunOptions) w in
  ¬ backupDir config `prefix_of` p ->
  kindAt (fs w') p = kindAt (fs w) p
  /\ (forall a c r, Fs.lookup (fs w) p = Some (File a c r) ->
                    Fs.lookup (fs w') p = Some (File a c r))
  /\ (createBackups (options config) = false -> fs w' = fs w).
Proof.
  intros w' Hp.
  destruct (kept_runCleanup engineDateParse config stack w p Hp) as [Hk Hf].
  split; [exact Hk|]. split; [exact Hf|].
  intros Hoff. now destruct (untouched_runCleanup engineDateParse config stack Hoff w).
Qed.

Lemma dry_run_changes_only_backups_witness :
  ¬ backupDir getDefaultConfig `prefix_of` ["src"; "debug.log"]
  /\ Fs.lookup (fs (exec (runCleanup noEngineDates getDefaultConfig 8 dryRunOptions)
                         (freshWorld projectWithBackups noon)))
               ["src"; "debug.log"]
     = Some (aged noon 40)
  /\ Fs.lookup (fs (exec (runCleanup noEngineDates getDefaultConfig 8 dryRunOptions)
                         (freshWorld projectWithBackups noon)))
               [".file-backup"; "2024-01-01"]
     = None.
Proof.
  assert (H : ¬ backupDir getDefaultConfig `prefix_of` ["src"; "debug.log"]).
  { intros [k Hk]. discriminate Hk. }
  split; [exact H|]. split.
  - exact (proj1 (proj2 (dry_run_changes_only_backups noEngineDates getDefaultConfig 8
                           (freshWorld projectWithBackups noon) ["src"; "debug.log"] H))
                 _ _ _ eq_refl).
  - vm_compute. reflexivity.
Defined.

(** * When the readline interface is closed *)

Lemma keepsReadline_refl w : keepsReadline w w.
Proof. reflexivity. Qed.

Lemma keepsReadline_trans a b c :
  keepsReadline a b -> keepsReadline b c -> keepsReadline a c.
Proof. unfold keepsReadline. congruence. Qed.

#[export] Hint Resolve keepsReadline_refl keepsReadline_trans : steps.

Ltac readline_primitive :=
  intros w; unfold exec, keepsReadline;
  repeat match goal with
         | |- context [match ?x with _ => _ end] => destruct x; cbn
         end; reflexivity.

Lemma keepsReadline_print m : steps keepsReadline (print m).
Proof. intros w. reflexivity. Qed.
Lemma keepsReadline_question q : steps keepsReadline (rlQuestion q).
Proof. intros w. reflexivity. Qed.
Lemma keepsReadline_exists p : steps keepsReadline (existsSync p).
Proof. intros w. reflexivity. Qed.
Lemma keepsReadline_now : steps keepsReadline now.
Proof. intros w. reflexivity. Qed.
Lemma keepsReadline_stat p : steps keepsReadline (statSync p).
Proof. intros w. reflexivity. Qed.
Lemma keepsReadline_readdir p : steps keepsReadline (readdirSync p).
Proof. intros w. reflexivity. Qed.
Lemma keepsReadline_unlink p : steps keepsReadline (unlinkSync p).
Proof. unfold unlinkSync. readline_primitive. Qed.
Lemma keepsReadline_rmdir p : steps keepsReadline (rmdirSync p).
Proof. unfold rmdirSync. readline_primitive. Qed.
Lemma keepsReadline_rmdirRecursive p : steps keepsReadline (rmdirSyncRecursive p).
Proof. unfold rmdirSyncRecursive. readline_primitive. Qed.
Lemma keepsReadline_mkdir p : steps keepsReadline (mkdirSync p).
Proof. unfold mkdirSync. readline_primitive. Qed.
Lemma keepsReadline_copy src dst : steps keepsReadline (copyFileSync src dst).
Proof. unfold copyFileSync. readline_primitive. Qed.
Lemma keepsReadline_append p text : steps keepsReadline (appendFileSync p text).
Proof. unfold appendFileSync. readline_primitive. Qed.

#[export] Hint Resolve keepsReadline_print keepsReadline_question keepsReadline_exists
  keepsReadline_now keepsReadline_stat keepsReadline_readdir keepsReadline_unlink
  keepsReadline_rmdir keepsReadline_rmdirRecursive keepsReadline_mkdir
  keepsReadline_copy keepsReadline_append : steps.

Section Readline.
Variable engineDateParse : string -> option Z.
Variable config : Config.
Local Abbreviation open := (steps keepsReadline).

Lemma open_isRecentlyAccessed p : open (isRecentlyAccessed config p).
Proof. unfold isRecentlyAccessed. msteps. Qed.
Lemma open_isEmptyDir p : open (isEmptyDir p).
Proof. unfold isEmptyDir. msteps. Qed.
Lemma open_backupFile p : open (backupFile config p).
Proof. unfold backupFile. msteps. Qed.
Lemma open_logDeletion p reason b : open (logDeletion config p reason b).
Proof. unfold logDeletion. msteps. Qed.
Hint Resolve open_isRecentlyAccessed open_isEmptyDir open_backupFile
  open_logDeletion : steps.
Lemma open_deleteDirectory p reason : open (deleteDirectory config p reason).
Proof. unfold deleteDirectory. msteps. Qed.
Lemma open_deleteFile p reason : open (deleteFile config p reason).
Proof. unfold deleteFile. msteps. Qed.
Hint Resolve open_deleteDirectory open_deleteFile : steps.
Lemma open_handleDirectoryDeletion p reason opts :
  open (handleDirectoryDeletion config p reason opts).
Proof. unfold handleDirectoryDeletion. msteps. Qed.
Lemma open_handleFileDeletion p reason opts :
  open (handleFileDeletion config p reason opts).
Proof. unfold handleFileDeletion. msteps. Qed.
Hint Resolve open_handleDirectoryDeletion open_handleFileDeletion : steps.
Lemma open_answerQuestion q answer : open (answerQuestion config q answer).
Proof. unfold answerQuestion. msteps. Qed.
Lemma open_scanItem self dirPath opts item :
  (forall p o, open (self p o)) -> open (scanItem config self dirPath opts item).
Proof. intros Hself. unfold scanItem. msteps. Qed.
Lemma open_scanBody self dirPath opts :
  (forall p o, open (self p o)) -> open (scanBody config self dirPath opts).
Proof.
  intros Hself. unfold scanBody.
  repeat first [ apply open_scanItem; assumption | solve [eauto with steps] | mstep ].
Qed.
Lemma open_scanDirectory stack : forall dirPath opts,
  open (scanDirectory config stack dirPath opts).
Proof.
  induction stack as [|n IH]; intros dirPath opts; cbn [scanDirectory];
    apply open_scanBody; intros p o; [apply steps_throw; eauto with steps | apply IH].
Qed.
Lemma open_sweepBackup B t d : open (sweepBackup engineDateParse config B t d).
Proof. unfold sweepBackup. msteps. Qed.
Lemma open_cleanupOldBackups : open (cleanupOldBackups engineDateParse config).
Proof.
  unfold cleanupOldBackups.
  repeat first [ apply open_sweepBackup | solve [eauto with steps] | mstep ].
Qed.

End Readline.

Lemma run_then {S A B} (R : S -> S -> Prop) (m : M S A) (k : A -> M S B) s :
  returns m -> steps R m ->
  exists a s1, R s s1 /\ (m ≫= k) s = k a s1.
Proof.
  intros Hret Hstep. destruct (Hret s) as [a Ha]. specialize (Hstep s).
  unfold result, exec in *. unfold mbind, M_bind, bind.
  destruct (m s) as [r s1]. cbn in *. subst r. now exists a, s1.
Qed.

(** X4: [runCleanup] closes the readline interface in a dry run and only
    then; in delete mode the interface is as open after the run, and after
    any answer to a question, as it was before. *)
Theorem readline_closes_only_after_a_dry_run
  (engineDateParse : string -> option Z) (config : Config) (stack : nat)
  (opts : RunOptions) (w : World) (q : question) (answer : string) :
  rlOpen (exec (runCleanup engineDateParse config stack opts) w)
  = rlOpen w && negb (dryRun opts)
  /\ rlOpen (exec (answerQuestion config q answer) w) = rlOpen w.
Proof.
  split; [|apply open_answerQuestion].
  unfold exec, runCleanup.
  match goal with |- context [(?m ≫= ?k) w] =>
    destruct (run_then keepsReadline m k w) as (a1 & w1 & H1 & ->) end;
    [apply returns_print | eauto with steps |].
  match goal with |- context [(?m ≫= ?k) w1] =>
    destruct (run_then keepsReadline m k w1) as (a2 & w2 & H2 & ->) end.
  { apply returns_forOf. intros dir.
    apply returns_bind; [apply returns_print|intros _]. apply returns_scanDirectory. }
  { apply steps_forOf; eauto with steps. intros dir.
    apply steps_bind; eauto with steps. intros _. apply open_scanDirectory. }
  match goal with |- context [(?m ≫= ?k) w2] =>
    destruct (run_then keepsReadline m k w2) as (a3 & w3 & H3 & ->) end.
  { apply returns_when, returns_tryCatch. intros e. apply returns_print. }
  { repeat first [ apply open_isEmptyDir | apply open_handleDirectoryDeletion
                 | solve [eauto with steps] | mstep ]. }
  match goal with |- context [(?m ≫= ?k) w3] =>
    destruct (run_then keepsReadline m k w3) as (a4 & w4 & H4 & ->) end.
  { apply returns_cleanupOldBackups. }
  { apply open_cleanupOldBackups. }
  unfold keepsReadline in *.
  destruct (dryRun opts);
    cbv [when mbind M_bind bind print rlClose modify mret M_ret ret snd negb];
    cbn [rlOpen]; rewrite ?andb_true_r, ?andb_false_r; congruence.
Qed.

(** * Backups, deletions and the log *)

Lemma bind_ok {S A B} (m : M S A) (k : A -> M S B) s b s' :
  (m ≫= k) s = (Ok b, s') -> exists a s1, m s = (Ok a, s1) /\ k a s1 = (Ok b, s').
Proof.
  unfold mbind, M_bind, bind. destruct (m s) as [[a|e] s1]; [eauto|discriminate].
Qed.

Lemma writable_ok t p :
  writable t p = None ->
  p ≠ [] /\ Fs.isDir t (Path.dirname p) = true
  /\ forall l es, Fs.lookup t p ≠ Some (Dir l es).
Proof.
  unfold writable. destruct (Fs.isDir t (Path.dirname p)); [|discriminate]. cbn [negb].
  destruct p as [|n p]; [discriminate|]. cbn [isRoot].
  destruct (Fs.lookup t (n :: p)) as [[]|]; try discriminate;
    repeat split; congruence.
Qed.

Lemma dirsAdded_refl w : dirsAdded w w.
Proof. repeat split; auto. Qed.

Lemma dirsAdded_trans a b c : dirsAdded a b -> dirsAdded b c -> dirsAdded a c.
Proof.
  intros (C1 & A1 & L1 & F1) (C2 & A2 & L2 & F2). repeat split; try congruence.
  - intros H. now apply F1, F2.
  - intros H. now apply F2, F1.
Qed.

Lemma mkdir_dirsAdded (b : bool) d w w1 :
  when b (mkdirSync d) w = (Ok tt, w1) -> dirsAdded w w1.
Proof.
  destruct b; cbn [when].
  - unfold mkdirSync. destruct (Fs.mkdirp d (fs w)) as [t|] eqn:E; [|discriminate].
    intros [= <-]. split; [reflexivity|]. split; [reflexivity|]. split; [reflexivity|].
    intros p a c r. cbn [fs setFs]. eapply lookup_mkdirp_file; eauto.
  - intros [= <-]. apply dirsAdded_refl.
Qed.

(** The tree after a copy: the file read, then the file written. *)
Lemma copy_ok src dst w w' :
  copyFileSync src dst w = (Ok tt, w') ->
  exists a c, Fs.lookup (fs w) src = Some (File a c true)
              /\ writable (fs w) dst = None
              /\ w' = setFs (Fs.put dst (File (clock w) c true)
                               (Fs.put src (File (atimeOnRead w src a (clock w)) c true)
                                  (fs w))) w.
Proof.
  unfold copyFileSync.
  destruct (Fs.lookup (fs w) src) as [[a c [] | | |]|]; try discriminate.
  destruct (writable (fs w) dst) eqn:E; [discriminate|].
  intros [= <-]. eauto.
Qed.

(** What a copy leaves: the copy, the source with the access time of the
    read, and every other file as it was. *)
Lemma copied t src dst a c a1 a2 :
  Fs.lookup t src = Some (File a c true) ->
  writable t dst = None ->
  let t' := Fs.put dst (File a2 c true) (Fs.put src (File a1 c true) t) in
  Fs.lookup t' dst = Some (File a2 c true)
  /\ (src ≠ dst -> Fs.lookup t' src = Some (File a1 c true))
  /\ (forall p a0 c0 r0, p ≠ src -> p ≠ dst ->
        Fs.lookup t p = Some (File a0 c0 r0) -> Fs.lookup t' p = Some (File a0 c0 r0)).
Proof.
  intros Hsrc Hw t'.
  assert (Hne : src ≠ []).
  { intros ->. cbn in Hsrc. injection Hsrc as ->. unfold writable, Fs.isDir in Hw.
    destruct (Path.dirname dst); discriminate. }
  pose proof (isDir_dirname _ _ _ Hsrc Hne) as Hd.
  assert (Hnd : forall l es, Fs.lookup t src ≠ Some (Dir l es)) by (rewrite Hsrc; discriminate).
  assert (H1 : Fs.lookup (Fs.put src (File a1 c true) t) src = Some (File a1 c true))
    by now apply lookup_put_same.
  rewrite <- (writable_put_file t src a c true a1 c true dst Hsrc) in Hw.
  destruct (writable_ok _ _ Hw) as (Hdst & Hdir & Hnd').
  split; [|split].
  - now apply lookup_put_same.
  - intros Hsd. now apply lookup_put_file.
  - intros p a0 c0 r0 Hps Hpd Hp. apply lookup_put_file; auto.
    now apply lookup_put_file.
Qed.

(** How [backupFile] can end when backups are on: with the path of a copy
    made after some directories were added, or with [null] after an error
    was printed. *)
Lemma backupFile_outcome config p w x w' :
  createBackups (options config) = true ->
  backupFile config p w = (Ok x, w') ->
  (exists b w3, x = Some b
                /\ b = Path.join (backupDir config) (todayOf (clock w)) ++ p
                /\ dirsAdded w w3 /\ copyFileSync p b w3 = (Ok tt, w'))
  \/ (x = None /\ exists err w2, w' = logged (ErrBackingUp p err) w2).
Proof.
  intros Hon. unfold backupFile. rewrite Hon. cbn [negb]. unfold tryCatch.
  match goal with |- context [match ?body w with _ => _ end] =>
    destruct (body w) as [[y|e] w2] eqn:Hb end.
  2: { cbv [mbind M_bind bind print modify mret M_ret ret].
       intros [= <- <-]. right. split; [reflexivity|]. now exists e, w2. }
  intros [= -> ->]. left. cbv zeta in Hb.
  apply bind_ok in Hb as (ex1 & s1 & E1 & Hb). injection E1 as _ <-.
  apply bind_ok in Hb as ([] & s2 & E2 & Hb). apply mkdir_dirsAdded in E2.
  apply bind_ok in Hb as (t & s3 & E3 & Hb). injection E3 as <- <-.
  apply bind_ok in Hb as (ex2 & s4 & E4 & Hb). injection E4 as _ <-.
  apply bind_ok in Hb as ([] & s5 & E5 & Hb). apply mkdir_dirsAdded in E5.
  apply bind_ok in Hb as (ex3 & s6 & E6 & Hb). injection E6 as _ <-.
  apply bind_ok in Hb as ([] & s7 & E7 & Hb). apply mkdir_dirsAdded in E7.
  apply bind_ok in Hb as ([] & s8 & E8 & Hb). injection Hb as <- <-.
  pose proof E2 as (C2 & _). unfold todayOf. rewrite <- C2.
  eexists _, s7. split; [reflexivity|]. split; [reflexivity|]. split; [|exact E8].
  eapply dirsAdded_trans; [|exact E7]. eapply dirsAdded_trans; [|exact E5]. exact E2.
Qed.

Lemma backupFile_ok config p w b w' :
  backupFile config p w = (Ok (Some b), w') ->
  b = Path.join (backupDir config) (todayOf (clock w)) ++ p
  /\ exists w3, dirsAdded w w3 /\ copyFileSync p b w3 = (Ok tt, w').
Proof.
  intros H. destruct (createBackups (options config)) eqn:Hon.
  - destruct (backupFile_outcome config p w _ _ Hon H)
      as [(b' & w3 & [= <-] & Hb & Hd & Hc)|[[=] _]]. eauto.
  - unfold backupFile in H. rewrite Hon in H. discriminate H.
Qed.

Lemma backupFile_returns config p : returns (backupFile config p).
Proof.
  unfold backupFile. destruct (negb _); [apply returns_ret|].
  apply returns_tryCatch. intros e.
  apply returns_bind; [apply returns_print | intros _; apply returns_ret].
Qed.

Lemma logDeletion_returns config p reason b : returns (logDeletion config p reason b).
Proof. apply returns_tryCatch. intros e. apply returns_print. Qed.

Lemma backup_differs B today (p : path) : p ≠ Path.join B today ++ p.
Proof.
  intros E. apply (f_equal (@length _)) in E.
  unfold Path.join in E. rewrite !length_app in E. cbn in E. lia.
Qed.

Lemma backup_copy config filePath w w' b :
  backupFile config filePath w = (Ok (Some b), w') ->
  b = backupDir config ++ todayOf (clock w) :: filePath
  /\ exists a c,
       Fs.lookup (fs w) filePath = Some (File a c true)
       /\ Fs.lookup (fs w') filePath
          = Some (File (atimeOnRead w filePath a (clock w)) c true)
       /\ Fs.lookup (fs w') b = Some (File (clock w) c true).
Proof.
  intros H. apply backupFile_ok in H as (Hb & w3 & (C3 & A3 & _ & F3) & Hcopy).
  split. { rewrite Hb. unfold Path.join. now rewrite <- app_assoc. }
  apply copy_ok in Hcopy as (a & c & Hsrc & Hw & ->).
  destruct (copied _ _ _ _ _ (atimeOnRead w3 filePath a (clock w3)) (clock w3) Hsrc Hw)
    as (Hcopy & Horig & _).
  exists a, c. cbn [fs setFs]. split; [now apply F3|].
  rewrite <- C3, <- A3. split; [|exact Hcopy].
  apply Horig. rewrite Hb. apply backup_differs.
Qed.

(** X5: when [backupFile] returns a path, it is
    [backupDir/<today>/<file path>], the file there is readable and holds
    the content of the original, and the original still holds it too; the
    access time of the original is the one the mount gives a file read at
    the time of the backup. *)
Theorem backup_holds_a_copy
  (config : Config) (filePath : path) (w w' : World) (b : path) :
  backupFile config filePath w = (Ok (Some b), w') ->
  b = backupDir config ++ todayOf (clock w) :: filePath
  /\ exists a c,
       Fs.lookup (fs w) filePath = Some (File a c true)
       /\ Fs.lookup (fs w') filePath
          = Some (File (atimeOnRead w filePath a (clock w)) c true)
       /\ Fs.lookup (fs w') b = Some (File (clock w) c true).
Proof. apply backup_copy. Qed.

Lemma backup_holds_a_copy_witness :
  backupFile getDefaultConfig ["src"; "debug.log"] (freshWorld projectTree noon)
  = (Ok (Some [".file-backup"; "2024-01-20"; "src"; "debug.log"]),
     exec (backupFile getDefaultConfig ["src"; "debug.log"]) (freshWorld projectTree noon))
  /\ exists a c,
       Fs.lookup projectTree ["src"; "debug.log"] = Some (File a c true)
       /\ Fs.lookup (fs (exec (backupFile getDefaultConfig ["src"; "debug.log"])
                           (freshWorld projectTree noon)))
            ["src"; "debug.log"]
          = Some (File noon c true)
       /\ Fs.lookup (fs (exec (backupFile getDefaultConfig ["src"; "debug.log"])
                           (freshWorld projectTree noon)))
            [".file-backup"; "2024-01-20"; "src"; "debug.log"]
          = Some (File noon c true).
Proof.
  assert (H : backupFile getDefaultConfig ["src"; "debug.log"] (freshWorld projectTree noon)
    = (Ok (Some [".file-backup"; "2024-01-20"; "src"; "debug.log"]),
       exec (backupFile getDefaultConfig ["src"; "debug.log"])
         (freshWorld projectTree noon))) by (vm_compute; reflexivity).
  split; [exact H|].
  destruct (backup_holds_a_copy _ _ _ _ _ H) as (_ & a & c & H1 & H2 & H3).
  exists a, c. split; [exact H1|]. split; [exact H2 | exact H3].
Defined.

(** ** Files that stay, paths that stay free *)

Lemma keepsFile_refl p w : keepsFile p w w.
Proof. intros a c r H. exact H. Qed.

Lemma keepsFile_trans p a b c : keepsFile p a b -> keepsFile p b c -> keepsFile p a c.
Proof. intros H1 H2 x y z H. eauto. Qed.

Lemma keepsAbsent_refl p w : keepsAbsent p w w.
Proof. intros H. exact H. Qed.

Lemma keepsAbsent_trans p a b c :
  keepsAbsent p a b -> keepsAbsent p b c -> keepsAbsent p a c.
Proof. intros H1 H2 H. eauto. Qed.

#[export] Hint Resolve keepsFile_refl keepsFile_trans keepsAbsent_refl
  keepsAbsent_trans : steps.

Lemma keepsFile_untouched p {A} (m : M World A) :
  steps untouched m -> steps (keepsFile p) m.
Proof. intros H w a c r. destruct (H w) as [-> _]. auto. Qed.

Lemma keepsAbsent_untouched p {A} (m : M World A) :
  steps untouched m -> steps (keepsAbsent p) m.
Proof. intros H w. destruct (H w) as [E _]. unfold keepsAbsent. now rewrite E. Qed.

Lemma keepsFile_mkdir p d : steps (keepsFile p) (mkdirSync d).
Proof.
  intros w a c r H. unfold exec, mkdirSync.
  destruct (Fs.mkdirp d (fs w)) as [t|] eqn:E; cbn; [|exact H].
  eapply lookup_mkdirp_file; eauto.
Qed.

Lemma keepsContent_refl p w : keepsContent p w w.
Proof. intros a c r H. eauto. Qed.

Lemma keepsContent_trans p a b c :
  keepsContent p a b -> keepsContent p b c -> keepsContent p a c.
Proof. intros H1 H2 x y z H. destruct (H1 _ _ _ H) as [x' H']. eauto. Qed.

#[export] Hint Resolve keepsContent_refl keepsContent_trans : steps.

Lemma keepsContent_keepsFile p {A} (m : M World A) :
  steps (keepsFile p) m -> steps (keepsContent p) m.
Proof. intros H w a c r Hp. exists a. now apply H. Qed.

(** A copy leaves every file but its target its content, the source with
    the access time of the read. *)
Lemma keepsContent_copy p src dst : p ≠ dst -> steps (keepsContent p) (copyFileSync src dst).
Proof.
  intros Hne w a c r H. unfold exec, copyFileSync.
  destruct (Fs.lookup (fs w) src) as [[a' c' [] | | |]|] eqn:Hsrc; cbn; eauto.
  destruct (writable (fs w) dst) eqn:E; cbn; eauto.
  destruct (copied _ _ _ _ _ (atimeOnRead w src a' (clock w)) (clock w) Hsrc E)
    as (_ & Horig & Hrest).
  destruct (decide (p = src)) as [->|Hps].
  - rewrite Hsrc in H. injection H as <- <- <-. eexists. now apply Horig.
  - exists a. now apply Hrest.
Qed.

Lemma keepsFile_append p q text : p ≠ q -> steps (keepsFile p) (appendFileSync q text).
Proof.
  intros Hne w a c r H. unfold exec, appendFileSync.
  destruct (writable (fs w) q) eqn:E; cbn; auto.
  destruct (writable_ok _ _ E) as (_ & Hdir & Hnd). now apply lookup_put_file.
Qed.

Lemma keepsFile_unlink p q : ¬ q `prefix_of` p -> steps (keepsFile p) (unlinkSync q).
Proof.
  intros Hqp w a c r H. unfold exec, unlinkSync.
  destruct (isRoot q); cbn; auto.
  destruct (Fs.lookup (fs w) q) as [[]|]; cbn; auto; now apply lookup_remove_file.
Qed.

Lemma keepsAbsent_mkdir p d : ¬ p `prefix_of` d -> steps (keepsAbsent p) (mkdirSync d).
Proof.
  intros Hpd w H. unfold exec, mkdirSync.
  destruct (Fs.mkdirp d (fs w)) as [t|] eqn:E; cbn; [|exact H].
  eapply lookup_mkdirp_none; eauto.
Qed.

Lemma keepsAbsent_append p q text :
  ¬ p `prefix_of` q -> steps (keepsAbsent p) (appendFileSync q text).
Proof.
  intros Hpq w H. unfold exec, appendFileSync.
  destruct (writable (fs w) q) eqn:E; cbn; auto.
  destruct (writable_ok _ _ E) as (Hq & Hdir & Hnd).
  match goal with |- Fs.lookup (Fs.put q ?x _) p = None => set (new := x) end.
  destruct (decide (q `prefix_of` p)) as [[k ->]|Hqp].
  - rewrite lookup_app, lookup_put_same by auto.
    destruct k as [|n k]; [exfalso; apply Hpq; now rewrite app_nil_r|].
    subst new. now destruct (Fs.lookup (fs w) q) as [[]|].
  - now rewrite lookup_put_apart.
Qed.

Section Deleting.
Variable config : Config.

Lemma keepsContent_backupFile p : steps (keepsContent p) (backupFile config p).
Proof.
  unfold backupFile.
  repeat first [ apply keepsContent_copy, backup_differs
               | solve [apply keepsContent_keepsFile;
                        first [ apply keepsFile_mkdir
                              | apply keepsFile_untouched; eauto with steps ]]
               | mstep ].
Qed.

Lemma keepsFile_logDeletion b p reason bp :
  b ≠ logFile config -> steps (keepsFile b) (logDeletion config p reason bp).
Proof.
  intros Hne. unfold logDeletion.
  repeat first [ apply keepsFile_mkdir | apply keepsFile_append; assumption
               | solve [apply keepsFile_untouched; eauto with steps] | mstep ].
Qed.

Lemma keepsAbsent_logDeletion q p reason bp :
  ¬ q `prefix_of` logFile config ->
  steps (keepsAbsent q) (logDeletion config p reason bp).
Proof.
  intros Hq. unfold logDeletion.
  assert (Hd : ¬ q `prefix_of` Path.dirname (logFile config)).
  { intros [k Hk]. apply Hq. unfold Path.dirname in Hk.
    destruct (logFile config) as [|n l] eqn:El using rev_ind.
    - cbn in Hk. destruct q; [apply prefix_nil | discriminate].
    - rewrite removelast_last in Hk. rewrite Hk, <- app_assoc. now apply prefix_app_r. }
  repeat first [ apply keepsAbsent_mkdir; assumption
               | apply keepsAbsent_append; assumption
               | solve [apply keepsAbsent_untouched; eauto with steps] | mstep ].
Qed.

(** [deleteFile] on a file that is there: the backup attempt, the unlink
    and the log entry, in this order, whatever the backup attempt gave. *)
Lemma deleteFile_run p reason w a c r :
  p ≠ [] -> Fs.lookup (fs w) p = Some (File a c r) ->
  exists bp w1 w3,
    backupFile config p (logged (MsgDeletingFile p) w) = (Ok bp, w1)
    /\ (exists a', Fs.lookup (fs w1) p = Some (File a' c r))
    /\ logDeletion config p reason bp (setFs (Fs.remove p (fs w1)) w1) = (Ok tt, w3)
    /\ fs (exec (deleteFile config p reason) w) = fs w3
    /\ exists more, console (exec (deleteFile config p reason) w)
                     = console w3 ++ MsgDeletedFile p :: more.
Proof.
  intros Hne Hp.
  destruct (returns_run (backupFile config p) (logged (MsgDeletingFile p) w)
              (backupFile_returns config p)) as (bp & w1 & Hb).
  assert (Hp1 : exists a', Fs.lookup (fs w1) p = Some (File a' c r)).
  { pose proof (keepsContent_backupFile p (logged (MsgDeletingFile p) w) a c r Hp) as K.
    unfold exec in K. now rewrite Hb in K. }
  destruct (returns_run (logDeletion config p reason bp)
              (setFs (Fs.remove p (fs w1)) w1) (logDeletion_returns config p reason bp))
    as ([] & w3 & Hl).
  exists bp, w1, w3. split; [exact Hb|]. split; [exact Hp1|]. split; [exact Hl|].
  unfold exec, deleteFile.
  cbv beta iota delta [mbind M_bind bind print modify tryCatch].
  change {| fs := fs w; clock := clock w; atimeOnRead := atimeOnRead w;
            console := console w ++ [MsgDeletingFile p];
            pending := pending w; rlOpen := rlOpen w |}
    with (logged (MsgDeletingFile p) w).
  rewrite Hb. unfold unlinkSync.
  destruct Hp1 as [a' Hp1].
  destruct p as [|n p']; [congruence|]. cbn [isRoot]. rewrite Hp1, Hl.
  destruct bp; cbn; (split; [reflexivity|]); eexists;
    rewrite <- ?app_assoc; reflexivity.
Qed.

End Deleting.

(** X6: [deleteFile] unlinks a file that is there whether or not a backup
    of it could be made, unless the path is the log file or leads to it; a
    file that cannot be read is deleted although its backup failed, after
    the failure was printed. *)
Theorem delete_goes_ahead_without_backup
  (config : Config) (filePath : path) (reason : string) (w : World)
  (a : Z) (c : string) (r : bool) :
  let w' := exec (deleteFile config filePath reason) w in
  Fs.lookup (fs w) filePath = Some (File a c r) ->
  ¬ filePath `prefix_of` logFile config ->
  Fs.lookup (fs w') filePath = None
  /\ In (MsgDeletedFile filePath) (console w')
  /\ (createBackups (options config) = true -> r = false ->
      exists err, In (ErrBackingUp filePath err) (console w')).
Proof.
  intros w' Hp Hlog.
  assert (Hne : filePath ≠ []) by (intros ->; apply Hlog, prefix_nil).
  destruct (deleteFile_run config filePath reason w a c r Hne Hp)
    as (bp & w1 & w3 & Hb & Hp1 & Hl & Hfs & more & Hcon).
  fold w' in Hfs, Hcon.
  pose proof (keepsAbsent_logDeletion config filePath filePath reason bp Hlog
                (setFs (Fs.remove filePath (fs w1)) w1)) as Habs.
  unfold keepsAbsent, exec in Habs. rewrite Hl in Habs. cbn [snd fs setFs] in Habs.
  split; [rewrite Hfs; apply Habs; now apply lookup_remove_same|].
  split; [rewrite Hcon; apply in_or_app; right; now left|].
  intros Hon ->.
  destruct (backupFile_outcome config filePath _ _ _ Hon Hb)
    as [(b & s3 & _ & _ & (_ & _ & _ & F3) & Hcopy)|[_ (err & w2 & ->)]].
  - apply copy_ok in Hcopy as (a' & c' & Hsrc & _). apply F3 in Hsrc.
    cbn [fs logged] in Hsrc. congruence.
  - exists err. rewrite Hcon.
    destruct (spared_logDeletion noEngineDates config filePath reason bp
                (setFs (Fs.remove filePath (fs (logged (ErrBackingUp filePath err) w2)))
                   (logged (ErrBackingUp filePath err) w2)))
      as ((new & Hnew & _) & _).
    unfold exec in Hnew. rewrite Hl in Hnew. cbn [snd] in Hnew. rewrite Hnew.
    cbn [console setFs logged]. rewrite !in_app_iff. left. left. right. now left.
Qed.

Lemma delete_goes_ahead_without_backup_witness :
  Fs.lookup unreadableTree ["src"; "secret.tmp"]
  = Some (File (noon - 100 * Date.msPerDay) "k" false)
  /\ ¬ ["src"; "secret.tmp"] `prefix_of` logFile getDefaultConfig
  /\ Fs.lookup (fs (exec (deleteFile getDefaultConfig ["src"; "secret.tmp"] "Build artifact")
                         (freshWorld unreadableTree noon)))
               ["src"; "secret.tmp"] = None
  /\ exists err,
       In (ErrBackingUp ["src"; "secret.tmp"] err)
          (console (exec (deleteFile getDefaultConfig ["src"; "secret.tmp"] "Build artifact")
                         (freshWorld unreadableTree noon))).
Proof.
  assert (H : ¬ ["src"; "secret.tmp"] `prefix_of` logFile getDefaultConfig).
  { intros [k Hk]. discriminate Hk. }
  split; [reflexivity|]. split; [exact H|].
  destruct (delete_goes_ahead_without_backup getDefaultConfig ["src"; "secret.tmp"]
              "Build artifact" (freshWorld unreadableTree noon) _ _ _ eq_refl H)
    as (H1 & _ & H3).
  split; [exact H1 | exact (H3 eq_refl eq_refl)].
Defined.

(** X7: when the backup step of [deleteFile] returns a path other than the
    log file, then after [deleteFile] the file at that path still holds
    the content the deleted file had. *)
Theorem deleted_file_is_recoverable
  (config : Config) (filePath : path) (reason : string) (w w1 : World) (b : path) :
  let w' := exec (deleteFile config filePath reason) w in
  backupFile config filePath (logged (MsgDeletingFile filePath) w) = (Ok (Some b), w1) ->
  b ≠ logFile config ->
  exists a c,
    Fs.lookup (fs w) filePath = Some (File a c true)
    /\ Fs.lookup (fs w') b = Some (File (clock w) c true).
Proof.
  intros w' Hb Hlog.
  destruct (backup_copy config filePath _ _ _ Hb) as (Hbp & a & c & Hp & Hp1 & Hb1).
  cbn [fs clock logged] in Hp, Hb1.
  assert (Hapart : ¬ filePath `prefix_of` b).
  { intros [k ->]. destruct k as [|n k].
    - rewrite app_nil_r in Hbp. apply (f_equal (@length _)) in Hbp.
      rewrite length_app in Hbp. cbn in Hbp. lia.
    - rewrite (lookup_file_below _ _ _ _ _ (n :: k) Hp1) in Hb1; discriminate. }
  assert (Hne : filePath ≠ []) by (intros ->; apply Hapart, prefix_nil).
  destruct (deleteFile_run config filePath reason w a c true Hne Hp)
    as (bp & w1' & w3 & Hb' & _ & Hl & Hfs & _).
  rewrite Hb in Hb'. injection Hb' as <- <-.
  exists a, c. split; [exact Hp|]. fold w' in Hfs. rewrite Hfs.
  pose proof (keepsFile_logDeletion config b filePath reason (Some b) Hlog
                (setFs (Fs.remove filePath (fs w1)) w1)) as K.
  unfold keepsFile, exec in K. rewrite Hl in K. cbn [snd fs setFs] in K.
  apply K. now apply lookup_remove_file.
Qed.

Lemma deleted_file_is_recoverable_witness :
  [".file-backup"; "2024-01-20"; "src"; "debug.log"] ≠ logFile getDefaultConfig
  /\ exists a c,
       Fs.lookup projectTree ["src"; "debug.log"] = Some (File a c true)
       /\ Fs.lookup (fs (exec (deleteFile getDefaultConfig ["src"; "debug.log"] "Build artifact")
                              (freshWorld projectTree noon)))
                    [".file-backup"; "2024-01-20"; "src"; "debug.log"]
          = Some (File noon c true).
Proof.
  assert (H : [".file-backup"; "2024-01-20"; "src"; "debug.log"] ≠ logFile getDefaultConfig)
    by discriminate.
  split; [exact H|].
  refine (deleted_file_is_recoverable getDefaultConfig ["src"; "debug.log"] "Build artifact"
            (freshWorld projectTree noon) _ _ _ H).
  vm_compute. reflexivity.
Defined.

(** X8: [logDeletion] appends: when the log file is there, its content
    afterwards is the content before followed by the one new line. *)
Theorem log_grows_by_one_line
  (config : Config) (filePath : path) (reason : string) (backupPath : option path)
  (w : World) (a : Z) (c : string) (r : bool) :
  let line := logEntry (clock w) filePath reason backupPath in
  logFile config ≠ [] ->
  Fs.lookup (fs w) (logFile config) = Some (File a c r) ->
  logDeletion config filePath reason backupPath w
  = (Ok tt, setFs (Fs.put (logFile config) (File a (c +:+ line) r) (fs w)) w)
  /\ Fs.lookup (fs (exec (logDeletion config filePath reason backupPath) w))
               (logFile config)
     = Some (File a (c +:+ line) r).
Proof.
  intros line Hne Hlog.
  pose proof (isDir_dirname _ _ _ Hlog Hne) as Hdir.
  assert (Hrun : logDeletion config filePath reason backupPath w
    = (Ok tt, setFs (Fs.put (logFile config) (File a (c +:+ line) r) (fs w)) w)).
  { unfold logDeletion, tryCatch.
    cbv beta iota zeta delta [mbind M_bind bind existsSync gets now appendFileSync].
    assert (Hex : fsExists (fs w) (Path.dirname (logFile config)) = true).
    { unfold fsExists. unfold Fs.isDir in Hdir.
      destruct (Fs.lookup (fs w) (Path.dirname (logFile config))) as [[]|]; congruence. }
    rewrite Hex. cbn [negb andb when]. cbv [mret M_ret ret].
    unfold writable. rewrite Hdir. cbn [negb].
    destruct (logFile config) as [|n l] eqn:El; [congruence|]. cbn [isRoot].
    rewrite Hlog. reflexivity. }
  split; [exact Hrun|].
  unfold exec. rewrite Hrun. cbn [snd fs setFs]. now apply lookup_put_same.
Qed.

Lemma log_grows_by_one_line_witness :
  logFile getDefaultConfig ≠ []
  /\ Fs.lookup (Dir true [("cleanup-log.txt", File noon "earlier line" true)])
               (logFile getDefaultConfig)
     = Some (File noon "earlier line" true)
  /\ Fs.lookup (fs (exec (logDeletion getDefaultConfig ["src"; "debug.log"] "Build artifact" None)
                         (freshWorld (Dir true [("cleanup-log.txt",
                                                 File noon "earlier line" true)]) noon)))
               (logFile getDefaultConfig)
     = Some (File noon ("earlier line"
                        +:+ logEntry noon ["src"; "debug.log"] "Build artifact" None) true).
Proof.
  assert (H : logFile getDefaultConfig ≠ []) by discriminate.
  split; [exact H|]. split; [reflexivity|].
  exact (proj2 (log_grows_by_one_line getDefaultConfig ["src"; "debug.log"] "Build artifact"
                  None (freshWorld (Dir true [("cleanup-log.txt",
                                               File noon "earlier line" true)]) noon)
                  noon "earlier line" true H eq_refl)).
Defined.

(** * Dates: the name of today's partition read back *)

Section Calendar.
Local Open Scope Z_scope.

Lemma upto_spec n f : forall i,
  upto n f i = true -> forall j, i <= j < i + Z.of_nat n -> f j = true.
Proof.
  induction n as [|n IH]; intros i H j Hj; [lia|].
  cbn [upto] in H. apply andb_prop in H as [H1 H2].
  destruct (decide (j = i)) as [->|Hne]; [exact H1|].
  apply (IH (i + 1)); [exact H2 | lia].
Qed.

Lemma yearCheck_all : upto 400 yearCheck 0 = true.
Proof. vm_compute. reflexivity. Qed.

Lemma dayCheck_all : upto 366 dayCheck 0 = true.
Proof. vm_compute. reflexivity. Qed.

Lemma spread_step x : 0 <= x < 146096 -> spread x <= spread (x + 1).
Proof. intros H. unfold spread. Z.div_mod_to_equations. lia. Qed.

Lemma spread_mono x y : 0 <= x <= y -> y <= 146096 -> spread x <= spread y.
Proof.
  intros Hxy Hy. replace y with (x + Z.of_nat (Z.to_nat (y - x))) in * by lia.
  induction (Z.to_nat (y - x)) as [|n IH]; [rewrite Z.add_0_r; lia|].
  etrans; [apply IH; lia|].
  replace (x + Z.of_nat (S n)) with (x + Z.of_nat n + 1) by lia.
  apply spread_step. lia.
Qed.

Lemma find_year (n : nat) : forall doe,
  0 <= doe < yearStart (Z.of_nat n) ->
  exists Y, 0 <= Y < Z.of_nat n /\ yearStart Y <= doe < yearStart (Y + 1).
Proof.
  induction n as [|n IH]; intros doe H.
  - change (yearStart (Z.of_nat 0)) with 0 in H. lia.
  - destruct (Z_lt_le_dec doe (yearStart (Z.of_nat n))) as [Hlt|Hge].
    + destruct (IH doe) as (Y & HY & Hd); [lia|]. exists Y. split; [lia|exact Hd].
    + exists (Z.of_nat n). replace (Z.of_nat n + 1) with (Z.of_nat (S n)) by lia.
      split; lia.
Qed.

Lemma year_of_day doe :
  0 <= doe < 146097 ->
  exists Y, 0 <= Y < 400 /\ yearStart Y <= doe < yearEnd Y.
Proof.
  intros H. destruct (Z_lt_le_dec doe (yearStart 399)) as [Hlt|Hge].
  - destruct (find_year 399 doe) as (Y & HY & Hd); [split; [lia|exact Hlt]|].
    exists Y. split; [lia|]. unfold yearEnd.
    destruct (Y =? 399) eqn:E; [lia|exact Hd].
  - exists 399. split; [lia|]. change (yearEnd 399) with 146097. lia.
Qed.

Lemma daysInMonth_other y y' m : m <> 2 -> Date.daysInMonth y m = Date.daysInMonth y' m.
Proof.
  intros H. unfold Date.daysInMonth. apply Z.eqb_neq in H. now rewrite H.
Qed.

(** The civil date of a day of an era. *)
Lemma civilInEra_ok doe yoe m d :
  0 <= doe < 146097 ->
  civilInEra doe = (yoe, m, d) ->
  let y := if m <=? 2 then yoe + 1 else yoe in
  let mp := if 2 <? m then m - 3 else m + 9 in
  0 <= yoe < 400 /\ 1 <= m <= 12 /\ 1 <= d <= Date.daysInMonth y m
  /\ yoe * 365 + yoe / 4 - yoe / 100 + ((153 * mp + 2) / 5 + d - 1) = doe
  /\ (doe < 146037 -> y <= 399).
Proof.
  intros Hdoe Hc.
  destruct (year_of_day doe Hdoe) as (Y & HY & Hin).
  pose proof (upto_spec _ _ _ yearCheck_all Y) as CY.
  specialize (CY ltac:(lia)). unfold yearCheck in CY.
  apply andb_prop in CY as [CY Hlen]. apply andb_prop in CY as [Hs He].
  apply Z.eqb_eq in Hs, He, Hlen.
  assert (Hend : yearEnd Y <= 146097).
  { unfold yearEnd. destruct (Y =? 399) eqn:E; [lia|].
    apply Z.eqb_neq in E. unfold yearStart. Z.div_mod_to_equations. lia. }
  assert (Hstart : 0 <= yearStart Y).
  { unfold yearStart. Z.div_mod_to_equations. lia. }
  assert (Hyoe : spread doe / 365 = Y).
  { apply Z.le_antisymm.
    - rewrite <- He. apply Z.div_le_mono; [lia|]. apply spread_mono; lia.
    - rewrite <- Hs at 1. apply Z.div_le_mono; [lia|]. apply spread_mono; lia. }
  unfold civilInEra in Hc. fold (spread doe) in Hc. rewrite Hyoe in Hc.
  fold (yearStart Y) in Hc.
  set (doy := doe - yearStart Y) in *.
  assert (Hdoy : 0 <= doy < 366).
  { subst doy. destruct (Date.isLeapYear (Y + 1)); lia. }
  pose proof (upto_spec _ _ _ dayCheck_all doy) as CD.
  specialize (CD ltac:(lia)). unfold dayCheck in CD.
  set (mp0 := (5 * doy + 2) / 153) in *.
  set (d0 := doy - (153 * mp0 + 2) / 5 + 1) in *.
  injection Hc as <- <- <-.
  apply andb_prop in CD as [CD Hjan]. apply andb_prop in CD as [CD Hmonth].
  apply andb_prop in CD as [Hmp Hd1].
  assert (Hmp0 : 0 <= mp0 <= 11).
  { split; [subst mp0; apply Z.div_pos; lia | lia]. }
  cbv zeta.
  assert (Hm : (if 2 <? (if mp0 <? 10 then mp0 + 3 else mp0 - 9)
                then (if mp0 <? 10 then mp0 + 3 else mp0 - 9) - 3
                else (if mp0 <? 10 then mp0 + 3 else mp0 - 9) + 9) = mp0).
  { destruct (mp0 <? 10) eqn:E.
    - apply Z.ltb_lt in E. replace (2 <? mp0 + 3) with true by lia. lia.
    - apply Z.ltb_ge in E. replace (2 <? mp0 - 9) with false by lia. lia. }
  rewrite Hm.
  split; [lia|]. split; [destruct (mp0 <? 10) eqn:E; lia|]. split.
  - split; [lia|].
    destruct (mp0 <? 10) eqn:E.
    + apply Z.ltb_lt in E.
      replace (mp0 + 3 =? 2) with false in Hmonth by lia.
      apply Z.leb_le in Hmonth.
      rewrite (daysInMonth_other _ 1) by lia. exact Hmonth.
    + apply Z.ltb_ge in E.
      destruct (mp0 - 9 =? 2) eqn:F.
      * apply Z.eqb_eq in F. replace (mp0 - 9 <=? 2) with true by lia.
        unfold Date.daysInMonth. rewrite F. change (2 =? 2) with true. cbv iota.
        subst doy. destruct (Date.isLeapYear (Y + 1)); lia.
      * apply Z.eqb_neq in F. apply Z.leb_le in Hmonth.
        rewrite (daysInMonth_other _ 1) by lia. exact Hmonth.
  - split.
    + subst d0 doy. unfold yearStart. lia.
    + intros Hjan1. destruct (doy <? 306) eqn:E.
      * rewrite Hjan. replace (mp0 + 3 <=? 2) with false by lia. lia.
      * apply Z.ltb_ge in E.
        assert (Y <> 399).
        { intros ->. change (yearStart 399) with 145731 in *. lia. }
        destruct (_ <=? 2); lia.
Qed.

Lemma isLeapYear_era y era : Date.isLeapYear (y + era * 400) = Date.isLeapYear y.
Proof.
  unfold Date.isLeapYear.
  replace (y + era * 400) with (y + (era * 100) * 4) at 1 by lia.
  replace (y + era * 400) with (y + (era * 4) * 100) at 1 by lia.
  now rewrite !Z.mod_add by lia.
Qed.

Lemma daysInMonth_era y era m :
  Date.daysInMonth (y + era * 400) m = Date.daysInMonth y m.
Proof. unfold Date.daysInMonth. now rewrite isLeapYear_era. Qed.

Lemma civilFromDays_era z :
  Date.civilFromDays z =
  let era := (z + 719468) / 146097 in
  let '(yoe, m, d) := civilInEra (z + 719468 - era * 146097) in
  ((if m <=? 2 then yoe + era * 400 + 1 else yoe + era * 400), m, d).
Proof. reflexivity. Qed.

(** The civil date of a day is a date of the calendar, the day is found
    again from it, and from 1970 to 9999 the year has four digits. *)
Lemma civil_round_trip z y m d :
  Date.civilFromDays z = (y, m, d) ->
  1 <= m <= 12 /\ 1 <= d <= Date.daysInMonth y m /\ Date.daysFromCivil y m d = z
  /\ (0 <= z < 2932897 -> 0 <= y <= 9999).
Proof.
  rewrite civilFromDays_era. cbv zeta.
  set (era := (z + 719468) / 146097).
  set (doe := z + 719468 - era * 146097).
  assert (Hdoe : 0 <= doe < 146097).
  { subst doe era. pose proof (Z.div_mod (z + 719468) 146097).
    pose proof (Z.mod_pos_bound (z + 719468) 146097). lia. }
  destruct (civilInEra doe) as [[yoe m'] d'] eqn:Hc.
  destruct (civilInEra_ok doe yoe m' d' Hdoe Hc) as (Hyoe & Hm & Hd & Hinv & Hjan).
  cbv zeta in Hd, Hinv, Hjan.
  intros [= <- <- <-].
  assert (Hy : (if m' <=? 2 then yoe + era * 400 + 1 else yoe + era * 400)
               = (if m' <=? 2 then yoe + 1 else yoe) + era * 400)
    by (destruct (m' <=? 2); lia).
  rewrite Hy, daysInMonth_era.
  split; [lia|]. split; [lia|]. split.
  - unfold Date.daysFromCivil.
    assert (Hy' : (if m' <=? 2
                   then (if m' <=? 2 then yoe + 1 else yoe) + era * 400 - 1
                   else (if m' <=? 2 then yoe + 1 else yoe) + era * 400)
                  = yoe + era * 400) by (destruct (m' <=? 2); lia).
    rewrite Hy'.
    assert (Hera : (yoe + era * 400) / 400 = era).
    { rewrite Z.div_add by lia. rewrite Z.div_small by lia. lia. }
    rewrite Hera.
    replace (yoe + era * 400 - era * 400) with yoe by lia.
    subst doe. lia.
  - intros Hz.
    assert (Hera : 4 <= era <= 24).
    { subst era. split.
      - apply Z.div_le_lower_bound; lia.
      - apply Z.lt_succ_r. apply Z.div_lt_upper_bound; lia. }
    destruct (decide (era = 24)) as [E|E].
    + assert (Hlast : doe < 146037) by (subst doe; lia).
      specialize (Hjan Hlast). destruct (m' <=? 2); lia.
    + destruct (m' <=? 2); lia.
Qed.

End Calendar.

Section PartitionNames.
Local Open Scope Z_scope.

Lemma digit_cases d : 0 <= d < 10 ->
  d = 0 \/ d = 1 \/ d = 2 \/ d = 3 \/ d = 4 \/ d = 5 \/ d = 6 \/ d = 7 \/ d = 8 \/ d = 9.
Proof. lia. Qed.

Lemma digit_digitChar d : 0 <= d < 10 -> Date.digit (Date.digitChar d) = Some d.
Proof.
  intros H. destruct (digit_cases d H) as [->|[->|[->|[->|[->|[->|[->|[->|[->| ->]]]]]]]]];
    reflexivity.
Qed.

Lemma digitChar_not_T d : 0 <= d < 10 -> Ascii.eqb (Date.digitChar d) "T" = false.
Proof.
  intros H. destruct (digit_cases d H) as [->|[->|[->|[->|[->|[->|[->|[->|[->| ->]]]]]]]]];
    reflexivity.
Qed.

Lemma split_not_nil sep s : Js.split sep s ≠ [].
Proof.
  induction s as [|c s IH]; cbn [Js.split]; [discriminate|].
  destruct (Ascii.eqb c sep); [discriminate|]. now destruct (Js.split sep s).
Qed.

Lemma hd_split_other sep c s :
  Ascii.eqb c sep = false ->
  hd "" (Js.split sep (String c s)) = String c (hd "" (Js.split sep s)).
Proof.
  intros H. cbn [Js.split]. rewrite H.
  pose proof (split_not_nil sep s). now destruct (Js.split sep s).
Qed.

Lemma hd_split_sep sep s : hd "" (Js.split sep (String sep s)) = "".
Proof. cbn [Js.split]. now rewrite Ascii.eqb_refl. Qed.

Lemma mod10 x : 0 <= x mod 10 < 10.
Proof. apply Z.mod_pos_bound. lia. Qed.

(** The date part of [toISOString] in a year of four digits. *)
Lemma todayOf_digits t y m d :
  Date.civilFromDays (t / Date.msPerDay) = (y, m, d) -> 0 <= y <= 9999 ->
  todayOf t = Date.padded 4 y +:+ "-" +:+ Date.padded 2 m +:+ "-" +:+ Date.padded 2 d.
Proof.
  intros Hc Hy. unfold todayOf, Date.toISOString. rewrite Hc.
  replace ((0 <=? y) && (y <=? 9999)) with true by lia.
  cbv beta iota zeta delta [Date.padded String.append].
  repeat first [ rewrite hd_split_other by first [apply digitChar_not_T, mod10 | reflexivity]
               | rewrite hd_split_sep ].
  reflexivity.
Qed.

Lemma parse_digits y m d :
  0 <= y <= 9999 -> 1 <= m <= 12 -> 1 <= d <= Date.daysInMonth y m ->
  Date.parseISODate (Date.padded 4 y +:+ "-" +:+ Date.padded 2 m +:+ "-" +:+ Date.padded 2 d)
  = Some (Date.daysFromCivil y m d * Date.msPerDay).
Proof.
  intros Hy Hm Hd.
  assert (Hd31 : d <= 31).
  { unfold Date.daysInMonth in Hd.
    repeat match type of Hd with context [if ?b then _ else _] => destruct b end; lia. }
  unfold Date.parseISODate.
  cbv beta iota zeta delta [Date.padded String.append list_ascii_of_string Date.number].
  rewrite !digit_digitChar by apply mod10.
  replace ((((0 * 10 + y / 10 / 10 / 10 mod 10) * 10 + y / 10 / 10 mod 10) * 10
            + y / 10 mod 10) * 10 + y mod 10) with y
    by (Z.div_mod_to_equations; lia).
  replace ((0 * 10 + m / 10 mod 10) * 10 + m mod 10) with m
    by (Z.div_mod_to_equations; lia).
  replace ((0 * 10 + d / 10 mod 10) * 10 + d mod 10) with d
    by (Z.div_mod_to_equations; lia).
  replace ((1 <=? m) && (m <=? 12) && (1 <=? d) && (d <=? Date.daysInMonth y m))
    with true by lia.
  reflexivity.
Qed.

(** The name of today's partition, read back as a date, is the midnight
    that started today. *)
Lemma partition_name_parses legacy t :
  0 <= t < endOfYear9999 ->
  Date.parse legacy (todayOf t) = Some (t - t mod Date.msPerDay).
Proof.
  intros Ht.
  destruct (Date.civilFromDays (t / Date.msPerDay)) as [[y m] d] eqn:Hc.
  destruct (civil_round_trip _ _ _ _ Hc) as (Hm & Hd & Hinv & Hy).
  assert (Hz : 0 <= t / Date.msPerDay < 2932897).
  { unfold endOfYear9999, Date.msPerDay in *. split.
    - apply Z.div_pos; lia.
    - apply Z.div_lt_upper_bound; lia. }
  specialize (Hy Hz).
  rewrite (todayOf_digits t y m d Hc Hy).
  unfold Date.parse. rewrite (parse_digits y m d Hy Hm Hd), Hinv.
  f_equal. pose proof (Z.div_mod t Date.msPerDay). unfold Date.msPerDay in *. lia.
Qed.

End PartitionNames.

(** X9: the name [backupFile] gives today's partition, the date part of
    [toISOString], is read back by [new Date] as the midnight that started
    today, at every instant from 1970 to the end of the year 9999. *)
Theorem partition_name_reads_back (legacy : string -> option Z) (t : Z) :
  (0 <= t < endOfYear9999)%Z ->
  Date.parse legacy (hd "" (Js.split "T" (Date.toISOString t)))
  = Some (t - t mod Date.msPerDay)%Z.
Proof. apply partition_name_parses. Qed.

Lemma partition_name_reads_back_witness :
  (0 <= noon < endOfYear9999)%Z
  /\ hd "" (Js.split "T" (Date.toISOString noon)) = "2024-01-20"
  /\ Date.parse noEngineDates (hd "" (Js.split "T" (Date.toISOString noon)))
     = Some midnight.
Proof.
  assert (H : (0 <= noon < endOfYear9999)%Z) by (vm_compute; split; congruence).
  split; [exact H|]. split; [reflexivity|].
  exact (partition_name_reads_back noEngineDates noon H).
Defined.

Section TodaysPartition.
Variable engineDateParse : string -> option Z.
Variable config : Config.

Lemma expired_today t :
  (0 <= t < endOfYear9999)%Z ->
  expired engineDateParse config t (todayOf t)
  = (backupRetentionDays config * Date.msPerDay <? t mod Date.msPerDay)%Z.
Proof.
  intros Ht. unfold expired. rewrite (partition_name_parses engineDateParse t Ht).
  unfold Date.daysGt. f_equal. lia.
Qed.

Lemma cleanup_partition w d :
  Fs.lookup (fs (exec (cleanupOldBackups engineDateParse config) w))
            (Path.join (backupDir config) d)
  = match fsReaddir (fs w) (backupDir config) with
    | Ok names =>
        if createBackups (options config) && bool_decide (d ∈ names)
           && expired engineDateParse config (clock w) d
           && Fs.isDir (fs w) (Path.join (backupDir config) d)
        then None else Fs.lookup (fs w) (Path.join (backupDir config) d)
    | Throw _ => Fs.lookup (fs w) (Path.join (backupDir config) d)
    end.
Proof.
  unfold exec, cleanupOldBackups.
  destruct (createBackups (options config)).
  2: { cbn [negb andb]. now destruct (fsReaddir (fs w) (backupDir config)). }
  cbn [negb andb].
  cbv beta iota delta [tryCatch mbind M_bind bind existsSync gets readdirSync now].
  destruct (fsReaddir (fs w) (backupDir config)) as [names|err] eqn:Hlist.
  - rewrite (readdir_exists _ _ _ Hlist). cbn [negb]. cbv beta iota.
    destruct (sweep_loop engineDateParse config (backupDir config) (clock w) names w)
      as (w1 & new & Hloop & _ & _ & Hfs & _).
    cbv beta iota. rewrite Hlist. cbv beta iota. rewrite Hloop. cbn [snd]. now rewrite Hfs.
  - destruct (fsExists (fs w) (backupDir config)); cbn [negb]; cbv beta iota;
      rewrite ?Hlist; reflexivity.
Qed.

Lemma listed t B d x names :
  Fs.lookup t (Path.join B d) = Some x -> fsReaddir t B = Ok names -> d ∈ names.
Proof.
  unfold Path.join, fsReaddir. rewrite lookup_app.
  destruct (Fs.lookup t B) as [[| [] es | |]|]; try discriminate.
  rewrite lookup_cons. intros H [= <-].
  destruct (Fs.entryGet d es) as [c|] eqn:E; [|discriminate]. clear H.
  induction es as [|[n y] es IH]; [discriminate|].
  cbn [Fs.entryGet] in E. cbn [map fst].
  destruct (String.eqb n d) eqn:F.
  - apply String.eqb_eq in F. subst. left.
  - right. auto.
Qed.

End TodaysPartition.

(** X10: with a retention of one day or more, the copy that [backupFile]
    has just made is still there after the sweep of the same run. *)
Theorem todays_backups_survive_the_sweep
  (engineDateParse : string -> option Z) (config : Config) (filePath : path)
  (w w1 : World) (b : path) :
  backupFile config filePath w = (Ok (Some b), w1) ->
  (1 <= backupRetentionDays config)%Z ->
  (0 <= clock w < endOfYear9999)%Z ->
  Fs.lookup (fs (exec (cleanupOldBackups engineDateParse config) w1)) b
  = Fs.lookup (fs w1) b.
Proof.
  intros Hb Hdays Ht.
  destruct (backupFile_ok _ _ _ _ _ Hb) as (-> & w3 & (C3 & _) & Hcopy).
  apply copy_ok in Hcopy as (a & c & _ & _ & ->).
  rewrite !lookup_app, cleanup_partition.
  cbn [clock setFs]. rewrite C3, (expired_today _ _ _ Ht).
  replace (backupRetentionDays config * Date.msPerDay <? clock w mod Date.msPerDay)%Z
    with false.
  - destruct (fsReaddir _ _); [|reflexivity]. now rewrite andb_false_r.
  - symmetry. apply Z.ltb_ge.
    pose proof (Z.mod_pos_bound (clock w) Date.msPerDay). unfold Date.msPerDay in *. nia.
Qed.

Lemma todays_backups_survive_the_sweep_witness :
  backupFile getDefaultConfig ["src"; "debug.log"] (freshWorld projectTree noon)
  = (Ok (Some [".file-backup"; "2024-01-20"; "src"; "debug.log"]),
     snd (backupFile getDefaultConfig ["src"; "debug.log"] (freshWorld projectTree noon)))
  /\ (1 <= backupRetentionDays getDefaultConfig)%Z
  /\ (0 <= noon < endOfYear9999)%Z
  /\ Fs.lookup (fs (exec (cleanupOldBackups noEngineDates getDefaultConfig)
                      (snd (backupFile getDefaultConfig ["src"; "debug.log"]
                              (freshWorld projectTree noon)))))
       [".file-backup"; "2024-01-20"; "src"; "debug.log"]
     = Some (File noon "x" true).
Proof.
  assert (H1 : backupFile getDefaultConfig ["src"; "debug.log"] (freshWorld projectTree noon)
    = (Ok (Some [".file-backup"; "2024-01-20"; "src"; "debug.log"]),
       snd (backupFile getDefaultConfig ["src"; "debug.log"] (freshWorld projectTree noon))))
    by (vm_compute; reflexivity).
  assert (H2 : (1 <= backupRetentionDays getDefaultConfig)%Z) by (vm_compute; congruence).
  assert (H3 : (0 <= noon < endOfYear9999)%Z) by (vm_compute; split; congruence).
  split; [exact H1|]. split; [exact H2|]. split; [exact H3|].
  rewrite (todays_backups_survive_the_sweep noEngineDates getDefaultConfig _ _ _ _ H1 H2 H3).
  vm_compute. reflexivity.
Defined.

(** X11: with a retention of zero days, the sweep of a run that is not at
    midnight to the millisecond removes today's partition, and with it
    the copy that [backupFile] has just made. *)
Theorem zero_retention_sweeps_todays_backups
  (engineDateParse : string -> option Z) (config : Config) (filePath : path)
  (w w1 : World) (b : path) (names : list string) :
  backupFile config filePath w = (Ok (Some b), w1) ->
  backupRetentionDays config = 0%Z ->
  (0 <= clock w < endOfYear9999)%Z ->
  (clock w mod Date.msPerDay <> 0)%Z ->
  fsReaddir (fs w1) (backupDir config) = Ok names ->
  Fs.lookup (fs (exec (cleanupOldBackups engineDateParse config) w1)) b = None.
Proof.
  intros Hb Hdays Ht Hday Hlist.
  assert (Hon : createBackups (options config) = true).
  { unfold backupFile in Hb. destruct (createBackups (options config)); [auto|discriminate]. }
  destruct (backup_copy _ _ _ _ _ Hb) as (_ & a & c & _ & Hp1 & Hb1).
  destruct (backupFile_ok _ _ _ _ _ Hb) as (-> & w3 & (C3 & _) & Hcopy).
  assert (Hc1 : clock w1 = clock w).
  { apply copy_ok in Hcopy as (? & ? & _ & _ & ->). exact C3. }
  destruct filePath as [|n rest].
  { exfalso. rewrite app_nil_r in Hb1.
    pose proof (lookup_file_below _ [] _ _ _ (Path.join (backupDir config)
                  (todayOf (clock w))) Hp1 (join_not_nil _ _)) as Hnone.
    cbn [app] in Hnone. congruence. }
  destruct (lookup_below _ _ _ _ _ Hb1) as (l & es & Hdir & _).
  rewrite lookup_app, cleanup_partition, Hlist, Hon, Hc1, (expired_today _ _ _ Ht).
  rewrite bool_decide_true by (eapply listed; eauto).
  unfold Fs.isDir. rewrite Hdir, Hdays. cbn [andb].
  replace (0 * Date.msPerDay <? clock w mod Date.msPerDay)%Z with true; [reflexivity|].
  symmetry. apply Z.ltb_lt.
  pose proof (Z.mod_pos_bound (clock w) Date.msPerDay). unfold Date.msPerDay in *. lia.
Qed.

Lemma zero_retention_sweeps_todays_backups_witness :
  backupFile hastyConfig ["src"; "debug.log"] (freshWorld projectTree noon)
  = (Ok (Some [".file-backup"; "2024-01-20"; "src"; "debug.log"]),
     snd (backupFile hastyConfig ["src"; "debug.log"] (freshWorld projectTree noon)))
  /\ backupRetentionDays hastyConfig = 0%Z
  /\ (0 <= noon < endOfYear9999)%Z
  /\ (noon mod Date.msPerDay <> 0)%Z
  /\ fsReaddir (fs (snd (backupFile hastyConfig ["src"; "debug.log"]
                           (freshWorld projectTree noon))))
               (backupDir hastyConfig) = Ok ["2024-01-20"]
  /\ Fs.lookup (fs (exec (cleanupOldBackups noEngineDates hastyConfig)
                      (snd (backupFile hastyConfig ["src"; "debug.log"]
                              (freshWorld projectTree noon)))))
       [".file-backup"; "2024-01-20"; "src"; "debug.log"]
     = None.
Proof.
  assert (H1 : backupFile hastyConfig ["src"; "debug.log"] (freshWorld projectTree noon)
    = (Ok (Some [".file-backup"; "2024-01-20"; "src"; "debug.log"]),
       snd (backupFile hastyConfig ["src"; "debug.log"] (freshWorld projectTree noon))))
    by (vm_compute; reflexivity).
  assert (H3 : (0 <= noon < endOfYear9999)%Z) by (vm_compute; split; congruence).
  assert (H4 : (noon mod Date.msPerDay <> 0)%Z) by (vm_compute; congruence).
  assert (H5 : fsReaddir (fs (snd (backupFile hastyConfig ["src"; "debug.log"]
                                     (freshWorld projectTree noon))))
                 (backupDir hastyConfig) = Ok ["2024-01-20"])
    by (vm_compute; reflexivity).
  split; [exact H1|]. split; [reflexivity|]. split; [exact H3|].
  split; [exact H4|]. split; [exact H5|].
  exact (zero_retention_sweeps_todays_backups noEngineDates hastyConfig _ _ _ _ _
           H1 eq_refl H3 H4 H5).
Defined.

(** * Sizes as the report shows them *)

Ltac q_to_z :=
  unfold Qle_bool, Qfloor, Qplus, Qdiv, Qmult, Qinv, inject_Z;
  cbn [Qnum Qden Pos.mul Z.to_pos].

Lemma Zleb_eq a b c d : (a <= b <-> c <= d)%Z -> (a <=? b)%Z = (c <=? d)%Z.
Proof. intros H. apply eq_true_iff_eq. now rewrite !Z.leb_le. Qed.

Lemma toFixed2_hundredths x n :
  Qfloor (x * 100 + (1 # 2))%Q = n ->
  toFixed2 x = decimal (n / 100) +:+ "." +:+ Date.padded 2 (n mod 100).
Proof. intros <-. reflexivity. Qed.

(** X12: [formatSize] shows a size in the largest unit, up to TB, that
    does not exceed it (in B below 1 KB), rounded to the nearest hundredth
    of the unit with halves rounded up; so it shows [1024.00 KB] for one
    byte less than 1 MB. *)
Theorem formatSize_scales_and_rounds (bytes : Z) (k : nat) :
  let unit := (1024 ^ Z.of_nat k)%Z in
  let n := ((200 * bytes + unit) / (2 * unit))%Z in
  (0 <= bytes < 2 ^ 53)%Z ->
  (k <= 4)%nat ->
  (k = 0%nat \/ unit <= bytes)%Z ->
  (k = 4%nat \/ bytes < 1024 * unit)%Z ->
  formatSize bytes
  = (decimal (n / 100) +:+ "." +:+ Date.padded 2 (n mod 100))
    +:+ " " +:+ nth k units "undefined".
Proof.
  intros unit n Hb Hk Hlo Hhi. subst n unit.
  assert (G0 : Qle_bool 1024 (inject_Z bytes) = (1024 <=? bytes)%Z)
    by (q_to_z; apply Zleb_eq; lia).
  assert (G1 : Qle_bool 1024 (inject_Z bytes / 1024) = (1024 ^ 2 <=? bytes)%Z)
    by (q_to_z; apply Zleb_eq; lia).
  assert (G2 : Qle_bool 1024 (inject_Z bytes / 1024 / 1024) = (1024 ^ 3 <=? bytes)%Z)
    by (q_to_z; apply Zleb_eq; lia).
  assert (G3 : Qle_bool 1024 (inject_Z bytes / 1024 / 1024 / 1024)
               = (1024 ^ 4 <=? bytes)%Z)
    by (q_to_z; apply Zleb_eq; lia).
  unfold formatSize. cbn [length units scaleLoop Nat.ltb Nat.leb Nat.sub andb].
  rewrite G0, G1, G2, G3, !andb_true_r, andb_false_r.
  destruct k as [|[|[|[|[|k]]]]]; [| | | | |lia];
    cbn [Z.of_nat Pos.of_succ_nat Pos.succ] in *.
  - replace (1024 <=? bytes)%Z with false by lia.
    rewrite (toFixed2_hundredths _ ((200 * bytes + 1024 ^ 0) / (2 * 1024 ^ 0))%Z);
      [reflexivity|]. q_to_z. f_equal; lia.
  - replace (1024 <=? bytes)%Z with true by lia.
    replace (1024 ^ 2 <=? bytes)%Z with false by lia.
    rewrite (toFixed2_hundredths _ ((200 * bytes + 1024 ^ 1) / (2 * 1024 ^ 1))%Z);
      [reflexivity|]. q_to_z. f_equal; lia.
  - replace (1024 <=? bytes)%Z with true by lia.
    replace (1024 ^ 2 <=? bytes)%Z with true by lia.
    replace (1024 ^ 3 <=? bytes)%Z with false by lia.
    rewrite (toFixed2_hundredths _ ((200 * bytes + 1024 ^ 2) / (2 * 1024 ^ 2))%Z);
      [reflexivity|]. q_to_z. f_equal; lia.
  - replace (1024 <=? bytes)%Z with true by lia.
    replace (1024 ^ 2 <=? bytes)%Z with true by lia.
    replace (1024 ^ 3 <=? bytes)%Z with true by lia.
    replace (1024 ^ 4 <=? bytes)%Z with false by lia.
    rewrite (toFixed2_hundredths _ ((200 * bytes + 1024 ^ 3) / (2 * 1024 ^ 3))%Z);
      [reflexivity|]. q_to_z. f_equal; lia.
  - replace (1024 <=? bytes)%Z with true by lia.
    replace (1024 ^ 2 <=? bytes)%Z with true by lia.
    replace (1024 ^ 3 <=? bytes)%Z with true by lia.
    replace (1024 ^ 4 <=? bytes)%Z with true by lia.
    rewrite (toFixed2_hundredths _ ((200 * bytes + 1024 ^ 4) / (2 * 1024 ^ 4))%Z);
      [reflexivity|]. q_to_z. f_equal; lia.
Qed.

Lemma formatSize_scales_and_rounds_witness :
  (0 <= 1048575 < 2 ^ 53)%Z
  /\ (1 <= 4)%nat
  /\ (1024 ^ Z.of_nat 1 <= 1048575)%Z
  /\ (1048575 < 1024 * 1024 ^ Z.of_nat 1)%Z
  /\ formatSize 1048575 = "1024.00 KB"
  /\ formatSize 1048576 = "1.00 MB"
  /\ formatSize 1152 = "1.13 KB"
  /\ formatSize 1023 = "1023.00 B".
Proof.
  assert (H1 : (0 <= 1048575 < 2 ^ 53)%Z) by (split; [discriminate | reflexivity]).
  assert (H2 : (1 <= 4)%nat) by lia.
  assert (H3 : (1024 ^ Z.of_nat 1 <= 1048575)%Z) by discriminate.
  assert (H4 : (1048575 < 1024 * 1024 ^ Z.of_nat 1)%Z) by reflexivity.
  split; [exact H1|]. split; [exact H2|]. split; [exact H3|]. split; [exact H4|].
  split; [|repeat split; vm_compute; reflexivity].
  rewrite (formatSize_scales_and_rounds 1048575 1 H1 H2 (or_intror H3) (or_intror H4)).
  vm_compute. reflexivity.
Defined.

(** * Naming conventions *)

Section NamingPatterns.
Import RegExp.

Lemma matches_Void s : matches Void s = false.
Proof. induction s; auto. Qed.

Lemma matches_rest g s :
  matches (Seq (Star (Sym g)) Eps) s = forallb g (list_ascii_of_string s).
Proof.
  induction s as [|c s IH]; [reflexivity|].
  cbn [matches deriv nullable list_ascii_of_string forallb].
  destruct (g c); cbn [seq' alt' andb]; [exact IH | apply matches_Void].
Qed.

(** [/^[f][g]*$/]: a first character in [f], then characters in [g] only. *)
Lemma test_first_rest f g s :
  test (mk true (Seq (Sym f) (Star (Sym g))) true) s
  = match s with
    | EmptyString => false
    | String c s' => f c && forallb g (list_ascii_of_string s')
    end.
Proof.
  unfold test. cbn [anchoredStart anchoredEnd body].
  destruct s as [|c s]; [reflexivity|].
  cbn [matches deriv nullable andb orb].
  destruct (f c); cbn [seq' alt' andb]; [apply matches_rest | apply matches_Void].
Qed.

Lemma test_rejects_stranger f g s c :
  f c = false -> g c = false -> In c (list_ascii_of_string s) ->
  test (mk true (Seq (Sym f) (Star (Sym g))) true) s = false.
Proof.
  intros Hf Hg Hin. rewrite test_first_rest.
  destruct s as [|a s]; [reflexivity|].
  cbn [list_ascii_of_string] in Hin. destruct Hin as [->|Hin].
  - now rewrite Hf.
  - apply andb_false_intro2. apply not_true_is_false. intros Hall.
    rewrite forallb_forall in Hall. specialize (Hall c Hin). congruence.
Qed.

End NamingPatterns.

(** X13: a file gets at most one naming issue. *)
Theorem naming_gives_at_most_one_issue (filePath : path) :
  (length (checkNamingConvention filePath) <= 1)%nat.
Proof.
  unfold checkNamingConvention.
  set (ext := Js.toLowerCase (Path.extname filePath)).
  destruct (String.eqb_spec ext ".jsx") as [E1|E1];
  destruct (String.eqb_spec ext ".tsx") as [E2|E2];
  destruct (String.eqb_spec ext ".js") as [E3|E3];
  destruct (String.eqb_spec ext ".ts") as [E4|E4];
  destruct (String.eqb_spec ext ".css") as [E5|E5];
  destruct (String.eqb_spec ext ".scss") as [E6|E6];
  try congruence; cbn [orb andb app length];
  repeat match goal with
         | |- context [if ?b then _ else _] => destruct b
         end; cbn [app length]; lia.
Qed.

(** X14: a file under one of the three rules whose base name, once the
    lower-cased extension is taken off, still holds a dot is reported
    whatever the rest of its name: test files and CSS modules, and files
    whose extension is in capitals, which [path.basename] leaves on. *)
Theorem dotted_base_names_are_flagged (filePath : path) :
  let fileName := Path.basename filePath in
  let ext := Js.toLowerCase (Path.extname filePath) in
  let shown := Path.show filePath in
  In "."%char (list_ascii_of_string (basenameWithout filePath ext)) ->
  (ext = ".css" \/ ext = ".scss" ->
   checkNamingConvention filePath
   = ["CSS file '" +:+ fileName +:+ "' should use kebab-case"])
  /\ (ext = ".jsx" \/ ext = ".tsx" ->
      Js.includesStr shown "/components/" = true ->
      checkNamingConvention filePath
      = ["Component file '" +:+ fileName +:+ "' should use PascalCase"])
  /\ (ext = ".js" \/ ext = ".ts" ->
      Js.includesStr shown "/utils/" || Js.includesStr shown "/hooks/" = true ->
      checkNamingConvention filePath
      = ["Utility file '" +:+ fileName +:+ "' should use camelCase"]).
Proof.
  intros fileName ext shown Hdot.
  assert (Hp : RegExp.test pascalCase (basenameWithout filePath ext) = false)
    by (eapply test_rejects_stranger; [| |exact Hdot]; reflexivity).
  assert (Hc : RegExp.test camelCase (basenameWithout filePath ext) = false)
    by (eapply test_rejects_stranger; [| |exact Hdot]; reflexivity).
  assert (Hk : RegExp.test kebabCase (basenameWithout filePath ext) = false)
    by (eapply test_rejects_stranger; [| |exact Hdot]; reflexivity).
  unfold checkNamingConvention. fold fileName ext shown. rewrite Hp, Hc, Hk.
  repeat split.
  - intros [E|E]; rewrite E; cbn [String.eqb Ascii.eqb Bool.eqb orb andb negb app];
      reflexivity.
  - intros [E|E] Hin; rewrite E, Hin;
      cbn [String.eqb Ascii.eqb Bool.eqb orb andb negb app]; reflexivity.
  - intros [E|E] Hin; rewrite E, Hin;
      cbn [String.eqb Ascii.eqb Bool.eqb orb andb negb app]; reflexivity.
Qed.

Lemma dotted_base_names_are_flagged_witness :
  In "."%char (list_ascii_of_string
                 (basenameWithout ["src"; "components"; "Button.test.tsx"] ".tsx"))
  /\ checkNamingConvention ["src"; "components"; "Button.test.tsx"]
     = ["Component file 'Button.test.tsx' should use PascalCase"]
  /\ checkNamingConvention ["src"; "styles"; "theme.module.css"]
     = ["CSS file 'theme.module.css' should use kebab-case"]
  /\ checkNamingConvention ["src"; "styles"; "main.CSS"]
     = ["CSS file 'main.CSS' should use kebab-case"]
  /\ checkNamingConvention ["src"; "styles"; "main.css"] = [].
Proof.
  assert (H : In "."%char (list_ascii_of_string
                 (basenameWithout ["src"; "components"; "Button.test.tsx"] ".tsx")))
    by (vm_compute; tauto).
  split; [exact H|]. split.
  - exact (proj1 (proj2 (dotted_base_names_are_flagged
                           ["src"; "components"; "Button.test.tsx"] H))
                 (or_intror eq_refl) eq_refl).
  - repeat split; vm_compute; reflexivity.
Defined.

(** * What an analysis pass counts and reports *)

Lemma typed_bump ext a : typed (bumpFileType ext a) = typed a + 1.
Proof.
  unfold typed, bumpFileType. cbn [fileTypes].
  assert (Hcomm : forall (m : gmap string nat) j1 j2 z1 z2 (y : nat),
             j1 ≠ j2 -> m !! j1 = Some z1 -> m !! j2 = Some z2 ->
             z1 + (z2 + y) = z2 + (z1 + y)) by (intros; lia).
  destruct (fileTypes a !! ext) as [n|] eqn:E; cbn [default from_option]; unfold id.
  - rewrite <- (insert_delete_eq (fileTypes a)).
    rewrite map_fold_insert_L; [|apply Hcomm|apply lookup_delete_eq].
    rewrite (map_fold_delete_L _ _ ext n (fileTypes a)); [lia|apply Hcomm|exact E].
  - rewrite map_fold_insert_L; [lia|apply Hcomm|exact E].
Qed.

Lemma grown_refl s : grown 0 s s.
Proof.
  split; [lia|]. split; exists []; rewrite app_nil_r; auto.
Qed.

Lemma grown_trans n m a b c :
  today b = today a -> grown n a b -> grown m b c -> grown (n + m) a c.
Proof.
  intros Ht (T1 & (l1 & L1 & F1) & (u1 & U1 & G1)) (T2 & (l2 & L2 & F2) & (u2 & U2 & G2)).
  split; [lia|]. split.
  - exists (l1 ++ l2). rewrite L2, L1, app_assoc. split; [reflexivity|].
    apply Forall_app; auto.
  - exists (u1 ++ u2). rewrite U2, U1, app_assoc. split; [reflexivity|].
    apply Forall_app. split; [auto|]. now rewrite <- Ht.
Qed.

Lemma grown_same s s' :
  analysis s' = analysis s -> grown 0 s s'.
Proof.
  intros E. unfold grown. rewrite E. split; [lia|].
  split; exists []; rewrite app_nil_r; auto.
Qed.

(** The outcome, the disk and the clock first; what is left is how the
    findings grew and what is returned. *)
Ltac framed :=
  split; [reflexivity|];
  split; [first [assumption | cbn [disk]; congruence]|];
  split; [first [assumption | cbn [today]; congruence]|];
  split.

Section Yields.
Variable t : node.
Variable t0 : Z.

Lemma yields_ret {A} (Q : A -> Prop) a : Q a -> yields t t0 0 Q (mret a).
Proof.
  intros Hq s Hd Ht. exists a, s. framed; [apply grown_refl | exact Hq].
Qed.

Lemma yields_bind {A B} n m (P : A -> Prop) (Q : B -> Prop)
  (f : M Analyzer A) (k : A -> M Analyzer B) :
  yields t t0 n P f -> (forall a, P a -> yields t t0 m Q (k a)) ->
  yields t t0 (n + m) Q (f ≫= k).
Proof.
  intros Hf Hk s Hd Ht.
  destruct (Hf s Hd Ht) as (a & s1 & E1 & Hd1 & Ht1 & G1 & Hp).
  destruct (Hk a Hp s1 Hd1 Ht1) as (b & s2 & E2 & Hd2 & Ht2 & G2 & Hq).
  exists b, s2. cbv beta iota delta [mbind M_bind bind]. rewrite E1, E2.
  split; [reflexivity|]. split; [exact Hd2|]. split; [exact Ht2|]. split; [|exact Hq].
  apply (grown_trans n m s s1 s2); [congruence | exact G1 | exact G2].
Qed.

Lemma yields_then {A B} m (P : A -> Prop) (Q : B -> Prop)
  (f : M Analyzer A) (k : A -> M Analyzer B) :
  yields t t0 0 P f -> (forall a, P a -> yields t t0 m Q (k a)) ->
  yields t t0 m Q (f ≫= k).
Proof. intros Hf Hk. change m with (0 + m). eapply yields_bind; eauto. Qed.

Lemma yields_weaken {A} n (P Q : A -> Prop) (f : M Analyzer A) :
  (forall a, P a -> Q a) -> yields t t0 n P f -> yields t t0 n Q f.
Proof.
  intros H Hf s Hd Ht. destruct (Hf s Hd Ht) as (a & s1 & E & ? & ? & ? & Hp).
  exists a, s1. rewrite E. framed; auto.
Qed.

Lemma yields_tryCatch {A} n (Q : A -> Prop) (body : M Analyzer A) h :
  yields t t0 n Q body -> yields t t0 n Q (tryCatch body h).
Proof.
  intros H s Hd Ht. destruct (H s Hd Ht) as (a & s1 & E & ?).
  exists a, s1. unfold tryCatch. rewrite E. auto.
Qed.

Lemma yields_value {A B} n (Q : B -> Prop) (f : M Analyzer A) (v : A)
  (k : A -> M Analyzer B) :
  (forall s, disk s = t -> f s = (Ok v, s)) ->
  yields t t0 n Q (k v) -> yields t t0 n Q (f ≫= k).
Proof.
  intros Hf Hk s Hd Ht. cbv beta iota delta [mbind M_bind bind].
  rewrite (Hf s Hd). apply (Hk s Hd Ht).
Qed.

Lemma yields_caught {A B} n (Q : B -> Prop) (f : M Analyzer A) (e : error)
  (k : A -> M Analyzer B) h :
  (forall s, disk s = t -> f s = (Throw e, s)) ->
  yields t t0 n Q (h e) -> yields t t0 n Q (tryCatch (f ≫= k) h).
Proof.
  intros Hf Hh s Hd Ht. cbv beta iota delta [tryCatch mbind M_bind bind].
  rewrite (Hf s Hd). apply (Hh s Hd Ht).
Qed.

Lemma yields_when b (f : M Analyzer unit) :
  yields t t0 0 (fun _ => True) f -> yields t t0 0 (fun _ => True) (when b f).
Proof. intros H. destruct b; cbn [when]; [exact H | now apply yields_ret]. Qed.

Lemma yields_say n : yields t t0 0 (fun _ => True) (say n).
Proof.
  intros s Hd Ht. eexists tt, _. framed; [now apply grown_same | exact I].
Qed.

(** An update of [analysis] that touches neither the counts by type nor
    the two lists. *)
Lemma yields_setAnalysis f :
  (forall a, fileTypes (f a) = fileTypes a /\ largeFiles (f a) = largeFiles a
             /\ unusedFiles (f a) = unusedFiles a) ->
  yields t t0 0 (fun _ => True) (setAnalysis f).
Proof.
  intros Hf s Hd Ht. eexists tt, _. framed; [|exact I].
  destruct (Hf (analysis s)) as (H1 & H2 & H3).
  split; [|split]; cbn [analysis].
  - unfold typed. rewrite H1. lia.
  - exists []. now rewrite app_nil_r, H2.
  - exists []. now rewrite app_nil_r, H3.
Qed.

Lemma yields_setFileHash h p : yields t t0 0 (fun _ => True) (setFileHash h p).
Proof.
  intros s Hd Ht. eexists tt, _. framed; [now apply grown_same | exact I].
Qed.

Lemma yields_bump ext : yields t t0 1 (fun _ => True) (setAnalysis (bumpFileType ext)).
Proof.
  intros s Hd Ht. eexists tt, _. framed; [|exact I].
  split; [|split]; cbn [analysis].
  - apply typed_bump.
  - exists []. now rewrite app_nil_r.
  - exists []. now rewrite app_nil_r.
Qed.

Lemma yields_pushLarge entry :
  isLarge entry -> yields t t0 0 (fun _ => True) (setAnalysis (pushLarge entry)).
Proof.
  intros He s Hd Ht. eexists tt, _. framed; [|exact I].
  split; [|split]; cbn [analysis].
  - unfold typed. cbn [fileTypes pushLarge]. lia.
  - exists [entry]. split; [reflexivity|]. now constructor.
  - exists []. now rewrite app_nil_r.
Qed.

Lemma yields_pushUnused entry :
  isStale t0 entry -> yields t t0 0 (fun _ => True) (setAnalysis (pushUnused entry)).
Proof.
  intros He s Hd Ht. eexists tt, _. framed; [|exact I].
  split; [|split]; cbn [analysis].
  - unfold typed. cbn [fileTypes pushUnused]. lia.
  - exists []. now rewrite app_nil_r.
  - exists [entry]. split; [reflexivity|]. rewrite Ht. now constructor.
Qed.

Lemma yields_checkDuplicate h p : yields t t0 0 (fun _ => True) (checkDuplicate h p).
Proof.
  unfold checkDuplicate.
  eapply yields_then with (P := fun _ => True).
  { intros s Hd Ht. eexists _, s. framed; [apply grown_refl | exact I]. }
  intros [first|] _; [|apply yields_setFileHash].
  eapply yields_then with (P := fun _ => True).
  { intros s Hd Ht. eexists _, s. framed; [apply grown_refl | exact I]. }
  intros dups _. apply yields_when, yields_setAnalysis. intros a. auto.
Qed.

Variable sha256 : string -> string.

Lemma yields_calculateFileHash p :
  yields t t0 0 (fun _ => True) (calculateFileHash sha256 p).
Proof.
  intros s Hd Ht. unfold calculateFileHash, tryCatch, readOf.
  cbv beta iota delta [mbind M_bind bind].
  destruct (fsReadFile (disk s) p) as [c|e].
  - eexists _, s. framed; [apply grown_refl | exact I].
  - eexists _, _. framed; [now apply grown_same | exact I].
Qed.

Lemma yields_isLargeFile p a sz :
  fsStat t p = Ok (StatFile a sz) ->
  yields t t0 0 (fun large => large = true -> (1024 * 1024 < sz)%Z) (isLargeFile p).
Proof.
  intros Est s Hd Ht. unfold isLargeFile, tryCatch, statOf.
  cbv beta iota delta [mbind M_bind bind]. rewrite Hd, Est.
  eexists _, s. framed; [apply grown_refl|].
  cbn [sizeOf]. intros H. now apply Z.ltb_lt in H.
Qed.

Lemma yields_isLikelyUnused p a sz :
  fsStat t p = Ok (StatFile a sz) ->
  yields t t0 0 (fun unused => unused = true -> (90 * Date.msPerDay < t0 - a)%Z)
    (isLikelyUnused p).
Proof.
  intros Est s Hd Ht. unfold isLikelyUnused, tryCatch, statOf.
  cbv beta iota delta [mbind M_bind bind]. rewrite Hd, Est.
  destruct (_ || _).
  - eexists _, s. framed; [apply grown_refl | discriminate].
  - eexists _, s. framed; [apply grown_refl|].
    cbn [atimeOf]. rewrite Ht. unfold Date.daysGt. intros H. now apply Z.ltb_lt in H.
Qed.

Lemma counts_of_yields n before (m : M Analyzer Totals) :
  yields t t0 n (fun r => fileCount r = before + n) m -> counts t t0 before m.
Proof.
  intros H s Hd Ht. destruct (H s Hd Ht) as (r & s1 & E & ? & ? & ? & ?).
  exists r, s1, n. auto.
Qed.

Lemma counts_forOfAcc {A} (items : list A) (body : Totals -> A -> M Analyzer Totals) :
  (forall acc item, counts t t0 (fileCount acc) (body acc item)) ->
  forall acc, counts t t0 (fileCount acc) (forOfAcc items acc body).
Proof.
  intros Hbody. induction items as [|x xs IH]; intros acc s Hd Ht.
  - exists acc, s, 0. framed; [apply grown_refl | lia].
  - destruct (Hbody acc x s Hd Ht) as (r1 & s1 & n1 & E1 & Hd1 & Ht1 & G1 & C1).
    destruct (IH r1 s1 Hd1 Ht1) as (r2 & s2 & n2 & E2 & Hd2 & Ht2 & G2 & C2).
    exists r2, s2, (n1 + n2). cbn [forOfAcc]. unfold bind. rewrite E1, E2.
    split; [reflexivity|]. split; [exact Hd2|]. split; [exact Ht2|]. split; [|lia].
    apply (grown_trans n1 n2 s s1 s2); [congruence | exact G1 | exact G2].
Qed.

Lemma statOf_at p s : disk s = t -> statOf p s = (fsStat t p, s).
Proof. intros <-. reflexivity. Qed.

Lemma counts_analyzeItem self dirPath relativePath stats item :
  recurs t t0 self ->
  counts t t0 (fileCount stats) (analyzeItem sha256 self dirPath relativePath stats item).
Proof.
  intros Hself. unfold analyzeItem.
  set (itemPath := Path.join dirPath item).
  set (itemRelPath := Path.join relativePath item).
  destruct (fsStat t itemPath) as [[atime sz| |]|e] eqn:Est.
  - (* a file *)
    apply (counts_of_yields 1).
    apply yields_tryCatch.
    eapply yields_value; [intros s Hs; now rewrite statOf_at, Est|].
    cbn [isDirectory isFile].
    eapply yields_then; [apply yields_when, yields_say|intros _ _].
    change 1 with (1 + 0).
    eapply yields_bind; [apply yields_bump|intros _ _].
    eapply yields_then;
      [apply yields_when, yields_setAnalysis; intros a; auto|intros _ _].
    eapply yields_then; [apply (yields_isLargeFile _ _ _ Est)|intros large Hlarge].
    eapply yields_then with (P := fun _ => True).
    { destruct large; cbn [when]; [|now apply yields_ret].
      apply yields_pushLarge. unfold isLarge. cbn [snd sizeOf]. auto. }
    intros _ _.
    eapply yields_then; [apply yields_calculateFileHash|intros fileHash _].
    eapply yields_then with (P := fun _ => True).
    { destruct fileHash as [h|]; [|now apply yields_ret].
      apply yields_when, yields_checkDuplicate. }
    intros _ _.
    eapply yields_then; [apply (yields_isLikelyUnused _ _ _ Est)|intros unused Hunused].
    eapply yields_then with (P := fun _ => True).
    { destruct unused; [|now apply yields_ret].
      eapply yields_value; [intros s Hs; now rewrite statOf_at, Est|].
      apply yields_pushUnused. unfold isStale. cbn [snd atimeOf]. auto. }
    intros _ _. apply yields_ret. cbn [fileCount]. lia.
  - (* a directory *)
    destruct (String.eqb item "node_modules").
    + apply (counts_of_yields 0).
      apply yields_tryCatch.
      eapply yields_value; [intros s Hs; now rewrite statOf_at, Est|].
      cbn [isDirectory].
      eapply yields_then; [apply yields_say|intros _ _].
      apply yields_ret. cbn [fileCount]. lia.
    + destruct Hself as [Hself|Hself].
      * intros s Hd Ht.
        cbv beta iota delta [tryCatch mbind M_bind bind].
        rewrite (statOf_at _ _ Hd), Est. cbn [isDirectory].
        cbv beta iota delta [say modify].
        match goal with |- context [self itemPath itemRelPath ?s1] =>
          destruct (Hself itemPath itemRelPath s1 Hd Ht)
            as (r & s2 & n & E & Hd2 & Ht2 & G & C) end.
        rewrite E. cbv beta iota delta [mret M_ret ret].
        eexists _, s2, n. framed; [|cbn [fileCount]; lia].
        destruct G as (G1 & G2 & G3). split; [exact G1|]. split; [exact G2 | exact G3].
      * intros s Hd Ht.
        cbv beta iota delta [tryCatch mbind M_bind bind].
        rewrite (statOf_at _ _ Hd), Est. cbn [isDirectory]. rewrite Hself.
        cbv beta iota delta [say modify throw mret M_ret ret].
        eexists _, _, 0. framed; [now apply grown_same | lia].
  - (* neither *)
    apply (counts_of_yields 0).
    apply yields_tryCatch.
    eapply yields_value; [intros s Hs; now rewrite statOf_at, Est|].
    cbn [isDirectory isFile]. apply yields_ret. lia.
  - (* stat failed *)
    apply (counts_of_yields 0).
    eapply yields_caught; [intros s Hs; now rewrite statOf_at, Est|].
    eapply yields_then; [apply yields_say|intros _ _]. apply yields_ret. lia.
Qed.

Lemma counts_analyzeBody self dirPath relativePath :
  recurs t t0 self ->
  counts t t0 0 (analyzeBody sha256 self dirPath relativePath).
Proof.
  intros Hself s Hd Ht. unfold analyzeBody.
  cbv beta iota delta [tryCatch mbind M_bind bind say modify gets listOf].
  cbn [disk]. rewrite Hd.
  destruct (fsExists t dirPath); cbn [negb]; cbv beta iota.
  2: { eexists _, _, 0. cbv beta iota delta [mret M_ret ret].
       framed; [now apply grown_same | reflexivity]. }
  cbn [disk]. rewrite ?Hd.
  destruct (fsReaddir t dirPath) as [items|e]; cbv beta iota.
  2: { eexists _, _, 0. cbv beta iota delta [mret M_ret ret].
       framed; [now apply grown_same | reflexivity]. }
  match goal with |- context [forOfAcc items noTotals ?body ?s1] =>
    assert (Hd1 : disk s1 = t) by reflexivity;
    assert (Ht1 : today s1 = t0) by exact Ht;
    destruct (counts_forOfAcc items body
                (fun acc item => counts_analyzeItem self dirPath relativePath acc item Hself)
                noTotals s1 Hd1 Ht1)
      as (r & s2 & n & E & Hd2 & Ht2 & G & C) end.
  rewrite E. cbv beta iota delta [setAnalysis modify mret M_ret ret].
  eexists _, _, n. framed; [|exact C].
  destruct G as (G1 & G2 & G3). split; [exact G1|]. split; [exact G2 | exact G3].
Qed.

Lemma counts_analyzeDirectory stack : forall dirPath relativePath,
  counts t t0 0 (analyzeDirectory sha256 stack dirPath relativePath).
Proof.
  induction stack as [|n IH]; intros dirPath relativePath; cbn [analyzeDirectory];
    apply counts_analyzeBody; [right | left]; auto.
Qed.

Lemma grows_root stack (key : string) (dirPath : path) : forall s,
  disk s = t -> today s = t0 ->
  exists s' files,
    (ex ← gets (fun s => fsExists (disk s) dirPath);
     if (ex : bool) then
       say (NoteRoot key dirPath);;
       analyzeDirectory sha256 stack dirPath dirPath;;
       mret tt
     else say (NoteMissing dirPath)) s = (Ok tt, s')
    /\ disk s' = t /\ today s' = t0 /\ grown files s s'.
Proof.
  intros s Hd Ht.
  cbv beta iota delta [mbind M_bind bind gets say modify mret M_ret ret].
  destruct (fsExists (disk s) dirPath).
  - match goal with |- context [analyzeDirectory sha256 stack dirPath dirPath ?s1] =>
      destruct (counts_analyzeDirectory stack dirPath dirPath s1 Hd Ht)
        as (r & s2 & n & E & Hd2 & Ht2 & G & C) end.
    rewrite E. exists s2, n.
    split; [reflexivity|]. split; [exact Hd2|]. split; [exact Ht2|].
    destruct G as (G1 & G2 & G4). split; [exact G1|]. split; [exact G2 | exact G4].
  - eexists _, 0. split; [reflexivity|]. split; [exact Hd|]. split; [exact Ht|].
    now apply grown_same.
Qed.

Lemma grows_analyzerMain stack roots : forall s,
  disk s = t -> today s = t0 ->
  exists s' files,
    analyzerMain sha256 stack roots s = (Ok tt, s')
    /\ disk s' = t /\ today s' = t0 /\ grown files s s'.
Proof.
  unfold analyzerMain. induction roots as [|[key dirPath] roots IH]; intros s Hd Ht.
  - exists s, 0. split; [reflexivity|]. split; [exact Hd|]. split; [exact Ht|].
    apply grown_refl.
  - cbn [forOf]. unfold bind at 1.
    destruct (grows_root stack key dirPath s Hd Ht) as (s2 & n & E & Hd2 & Ht2 & G).
    rewrite E.
    destruct (IH s2 Hd2 Ht2) as (s3 & m & E3 & Hd3 & Ht3 & G3).
    rewrite E3. exists s3, (n + m).
    split; [reflexivity|]. split; [exact Hd3|]. split; [exact Ht3|].
    apply (grown_trans n m s s2 s3); [congruence | exact G | exact G3].
Qed.

End Yields.

(** X15: [analyzeDirectory] always returns, and the counts by file type
    grow in total by exactly the number of files in the totals it
    returns. *)
Theorem file_types_account_for_every_file
  (sha256 : string -> string) (stack : nat) (dirPath relativePath : path)
  (s : Analyzer) :
  exists totals s',
    analyzeDirectory sha256 stack dirPath relativePath s = (Ok totals, s')
    /\ typed (analysis s') = typed (analysis s) + fileCount totals.
Proof.
  destruct (counts_analyzeDirectory (disk s) (today s) sha256 stack dirPath relativePath
              s eq_refl eq_refl) as (r & s' & n & E & _ & _ & (G & _) & C).
  exists r, s'. split; [exact E|]. cbn in C. lia.
Qed.

(** X16: whatever an analysis pass adds to [largeFiles] is larger than
    1 MiB, and whatever it adds to [unusedFiles] was last accessed more
    than 90 days before the pass, a limit that no configuration changes. *)
Theorem reports_only_large_and_stale_files
  (sha256 : string -> string) (stack : nat) (roots : list (string * path))
  (s : Analyzer) :
  let s' := exec (analyzerMain sha256 stack roots) s in
  (exists new, largeFiles (analysis s') = largeFiles (analysis s) ++ new
               /\ Forall (fun entry => (1024 * 1024 < entry.2)%Z) new)
  /\ (exists new, unusedFiles (analysis s') = unusedFiles (analysis s) ++ new
                  /\ Forall (fun entry => (90 * Date.msPerDay < today s - entry.2)%Z) new).
Proof.
  destruct (grows_analyzerMain (disk s) (today s) sha256 stack roots s eq_refl eq_refl)
    as (s' & n & E & _ & _ & (_ & G2 & G3)).
  unfold exec. rewrite E. cbn [snd]. split; assumption.
Qed.
(** * Starting a service *)

Section Starting.

Import Launcher.

Variable readyMessage : string.

Local Abbreviation handled := (fold_left (handle readyMessage)).

Lemma after_snoc evs ev :
  after readyMessage (evs ++ [ev]) = handle readyMessage (after readyMessage evs) ev.
Proof. unfold after. now rewrite fold_left_app. Qed.

Lemma ready_handle s ev :
  ready (handle readyMessage s ev)
  = ready s
    || match ev with
       | StdoutData text => Js.includesStr text readyMessage
       | _ => false
       end.
Proof.
  destruct ev as [text| | |code|]; cbn [handle].
  - destruct (Js.includesStr text readyMessage), (ready s); reflexivity.
  - now rewrite orb_false_r.
  - now rewrite orb_false_r.
  - destruct (negb (bool_decide (code = Some 0%Z)) && negb (ready s));
      now rewrite orb_false_r.
  - destruct (timer s), (ready s); reflexivity.
Qed.

Lemma timed_started : timed started.
Proof.
  split; [now split|]. cbn. split; [intros [H|[]]; discriminate H | discriminate].
Qed.

Lemma settle_timeout o p :
  o <> Rejected StartupTimeout ->
  settle o p = Rejected StartupTimeout <-> p = Rejected StartupTimeout.
Proof. destruct p; cbn; split; intros H'; congruence. Qed.

Lemma in_snoc_other {A} (x y : A) l : x <> y -> In x (l ++ [y]) <-> In x l.
Proof.
  intros N. rewrite in_app_iff. cbn. split; [intros [H|[H|[]]]|]; auto.
  congruence.
Qed.

Lemma timed_handle s ev : timed s -> timed (handle readyMessage s ev).
Proof.
  intros [T L]. destruct ev as [text|text|error|code|]; cbn [handle].
  - destruct (Js.includesStr text readyMessage && negb (ready s)) eqn:E.
    + split; cbn; [discriminate|].
      rewrite !in_snoc_other by discriminate.
      rewrite settle_timeout by discriminate. exact L.
    + split; cbn; [exact T|]. now rewrite in_snoc_other by discriminate.
  - split; cbn; [exact T|]. now rewrite in_snoc_other by discriminate.
  - split; cbn; [discriminate|].
    rewrite in_snoc_other by discriminate.
    now rewrite settle_timeout by discriminate.
  - destruct (negb (bool_decide (code = Some 0%Z)) && negb (ready s)).
    + split; cbn; [discriminate|].
      rewrite in_snoc_other by discriminate.
      now rewrite settle_timeout by discriminate.
    + now split.
  - destruct (timer s) eqn:Et; [|split; [rewrite Et; discriminate | exact L]].
    destruct (T eq_refl) as [P R]. rewrite R. cbn.
    split; cbn; [discriminate|]. rewrite P. cbn.
    split; [reflexivity|]. intros _. rewrite in_app_iff. right. now left.
Qed.

Lemma timed_handled evs s : timed s -> timed (handled evs s).
Proof.
  revert s. induction evs as [|ev evs IH]; intros s H; [exact H|].
  cbn [fold_left]. apply IH, timed_handle, H.
Qed.

Lemma ready_handled evs s :
  ready (handled evs s) = true
  <-> ready s = true
      \/ exists text, In (StdoutData text) evs
                      /\ Js.includesStr text readyMessage = true.
Proof.
  revert s. induction evs as [|ev evs IH]; intros s; cbn [fold_left].
  - split; [auto | intros [H|(? & [] & _)]; exact H].
  - rewrite IH, ready_handle, orb_true_iff. split.
    + intros [[H|H]|(text & I & H)]; auto.
      * destruct ev; try discriminate H. right. eexists. split; [now left | exact H].
      * right. exists text. split; [now right | exact H].
    + intros [H|(text & [->|I] & H)]; auto.
      right. exists text. now split.
Qed.

(** X17: a service counts as ready exactly when one chunk of its standard
    output holds the whole ready message; a message that arrives split
    over two chunks is not seen. *)
Theorem ready_iff_one_chunk_holds_the_message evs :
  ready (after readyMessage evs) = true
  <-> exists text, In (StdoutData text) evs
                   /\ Js.includesStr text readyMessage = true.
Proof.
  unfold after. rewrite ready_handled. cbn [ready started].
  split; [intros [H|H]; [discriminate H | exact H] | auto].
Qed.

(** X18: the line that a service did not start in time is printed exactly
    when the start was rejected for the timeout: never after the service
    became ready, failed to spawn or exited with an error. *)
Theorem timeout_is_reported_iff_it_rejected evs :
  In LineDidNotStart (printed (after readyMessage evs))
  <-> outcome (after readyMessage evs) = Rejected StartupTimeout.
Proof. exact (proj2 (timed_handled evs started timed_started)). Qed.

Lemma uneventful_handle s ev :
  uneventful readyMessage ev = true ->
  ready s = false ->
  let s' := handle readyMessage s ev in
  ready s' = false /\ timer s' = timer s /\ outcome s' = outcome s
  /\ output s' = match ev with
                 | StdoutData text | StderrData text => text
                 | _ => output s
                 end.
Proof.
  intros Q R. destruct ev as [text|text|error|code|]; cbn in Q; try discriminate Q.
  - apply negb_true_iff in Q. cbn [handle]. rewrite Q. cbn. auto.
  - cbn. auto.
  - cbn [handle]. rewrite Q. cbn. auto.
Qed.

Lemma uneventful_handled evs s :
  forallb (uneventful readyMessage) evs = true ->
  ready s = false ->
  ready (handled evs s) = false /\ timer (handled evs s) = timer s
  /\ outcome (handled evs s) = outcome s.
Proof.
  revert s. induction evs as [|ev evs IH]; intros s Q R; [auto|].
  cbn in Q. apply andb_true_iff in Q as [Q1 Q2]. cbn [fold_left].
  destruct (uneventful_handle s ev Q1 R) as (R' & T' & O' & _).
  destruct (IH _ Q2 R') as (? & ? & ?). repeat split; congruence.
Qed.

(** X19: a service that exits with code 0 without the ready message
    leaves the start pending with the timer set; the start is rejected
    only when the timer runs, as a timeout. *)
Theorem clean_exit_waits_for_the_timeout evs :
  forallb (uneventful readyMessage) evs = true ->
  outcome (after readyMessage evs) = Pending
  /\ timer (after readyMessage evs) = true
  /\ outcome (after readyMessage (evs ++ [TimerRuns])) = Rejected StartupTimeout.
Proof.
  intros Q. destruct (uneventful_handled evs started Q eq_refl) as (R & T & O).
  fold (after readyMessage evs) in R, T, O.
  rewrite after_snoc. cbn [handle]. rewrite T, R, O. cbn. auto.
Qed.

End Starting.

Lemma clean_exit_waits_for_the_timeout_witness :
  forallb (uneventful "Server running")
    [Launcher.StdoutData "Server run"; Launcher.StdoutData "ning on port 3001";
     Launcher.Close (Some 0%Z)] = true
  /\ Js.includesStr ("Server run" +:+ "ning on port 3001") "Server running" = true
  /\ Launcher.outcome
       (Launcher.after "Server running"
          ([Launcher.StdoutData "Server run"; Launcher.StdoutData "ning on port 3001";
            Launcher.Close (Some 0%Z)] ++ [Launcher.TimerRuns]))
     = Launcher.Rejected Launcher.StartupTimeout.
Proof.
  split; [vm_compute; reflexivity|]. split; [vm_compute; reflexivity|].
  apply (clean_exit_waits_for_the_timeout "Server running"
           [Launcher.StdoutData "Server run"; Launcher.StdoutData "ning on port 3001";
            Launcher.Close (Some 0%Z)]).
  vm_compute; reflexivity.
Defined.
(** * Directories without files *)

Lemma keepsNode_refl p w : keepsNode p w w.
Proof. intros x H. exact H. Qed.

Lemma keepsNode_trans p a b c : keepsNode p a b -> keepsNode p b c -> keepsNode p a c.
Proof. intros H1 H2 x H. eauto. Qed.

#[export] Hint Resolve keepsNode_refl keepsNode_trans : steps.

Lemma keepsNode_untouched p {A} (m : M World A) :
  steps untouched m -> steps (keepsNode p) m.
Proof. intros H w x. destruct (H w) as [-> _]. auto. Qed.

Lemma keepsNode_mkdir p d : ¬ p `prefix_of` d -> steps (keepsNode p) (mkdirSync d).
Proof.
  intros Hpd w x H. unfold exec, mkdirSync.
  destruct (Fs.mkdirp d (fs w)) as [t|] eqn:E; cbn; [|exact H].
  eapply lookup_mkdirp_keep; eauto.
Qed.

Lemma keepsNode_append p q text :
  ¬ p `prefix_of` q -> steps (keepsNode p) (appendFileSync q text).
Proof.
  intros Hpq w x H. unfold exec, appendFileSync.
  destruct (writable (fs w) q) eqn:E; cbn; auto.
  destruct (writable_ok _ _ E) as (_ & _ & Hnd). now apply lookup_put_keep.
Qed.

Lemma not_prefix_dirname (q p : path) :
  ¬ q `prefix_of` p -> ¬ q `prefix_of` Path.dirname p.
Proof.
  intros Hq [k Hk]. apply Hq. unfold Path.dirname in Hk.
  destruct p as [|n l _] using rev_ind.
  - cbn in Hk. destruct q; [apply prefix_nil | discriminate].
  - rewrite removelast_last in Hk. rewrite Hk, <- app_assoc. now apply prefix_app_r.
Qed.

Lemma keepsNode_logDeletion config q p reason bp :
  ¬ q `prefix_of` logFile config ->
  steps (keepsNode q) (logDeletion config p reason bp).
Proof.
  intros Hq. unfold logDeletion.
  pose proof (not_prefix_dirname _ _ Hq) as Hd.
  repeat first [ apply keepsNode_mkdir; assumption
               | apply keepsNode_append; assumption
               | solve [apply keepsNode_untouched; eauto with steps] | mstep ].
Qed.

Lemma remove_entry n l es : Fs.remove [n] (Dir l es) = Dir l (Fs.entryDel n es).
Proof. reflexivity. Qed.

Lemma height_in l es n c : In (n, c) es -> height c < height (Dir l es).
Proof.
  cbn [height]. induction es as [|[m y] es IH]; [intros []|].
  intros [[= -> ->]|H]; [lia|]. specialize (IH H). lia.
Qed.

Lemma scanDirectory_body config stack :
  scanDirectory config stack
  = scanBody config
      (match stack with
       | O => fun _ _ => throw RangeError
       | S stack' => scanDirectory config stack'
       end).
Proof. destruct stack; reflexivity. Qed.

Section Hollow.

Variable config : Config.
Variable opts : RunOptions.

Hypothesis deleting : dryRun opts = false.
Hypothesis unattended : promptBeforeDeletion (options config) = false.
Hypothesis emptying : removeEmptyDirectories (options config) = true.

Lemma hollow_inv p x :
  hollow config p x = true ->
  exists es, x = Dir true es
             /\ isEssentialDirectory config p = false
             /\ NoDup (map fst es)
             /\ forall n c, In (n, c) es -> hollow config (Path.join p n) c = true.
Proof.
  destruct x as [| [] es | |]; try discriminate. cbn [hollow].
  rewrite !andb_true_iff, negb_true_iff, bool_decide_eq_true.
  intros [[H1 H2] H3]. exists es. repeat split; auto.
  clear H2. induction es as [|[m y] es IH]; intros n c Hin; [destruct Hin|].
  apply andb_true_iff in H3 as [Ha Hb].
  destruct Hin as [[= <- <-]|Hin]; [exact Ha | now apply IH].
Qed.

(** [deleteDirectory] on an empty directory. *)
Lemma deleteDirectory_empty p reason l w :
  p ≠ [] -> Fs.lookup (fs w) p = Some (Dir l []) ->
  ¬ p `prefix_of` logFile config ->
  exists w', deleteDirectory config p reason w = (Ok tt, w') /\ gone config p w w'.
Proof.
  intros Hne Hp Hlog.
  set (w1 := setFs (Fs.remove p (fs w)) w).
  destruct (returns_run (logDeletion config p reason None) w1
              (logDeletion_returns config p reason None)) as ([] & w2 & Hl).
  exists (logged (MsgDeletedDirectory p) w2). split.
  - unfold deleteDirectory, tryCatch.
    cbv beta iota delta [mbind M_bind bind rmdirSync].
    destruct p as [|n p']; [congruence|]. cbn [isRoot]. rewrite Hp.
    fold w1. rewrite Hl. reflexivity.
  - split.
    + cbn [logged fs].
      pose proof (keepsAbsent_logDeletion config p p reason None Hlog w1) as K.
      unfold keepsAbsent, exec in K. rewrite Hl in K. cbn [snd] in K.
      apply K. unfold w1. cbn [fs setFs]. now apply lookup_remove_same.
    + intros q r x Hqr Hr Hq Hx. cbn [logged fs].
      pose proof (keepsNode_logDeletion config q p reason None Hq w1) as K.
      unfold keepsNode, exec in K. rewrite Hl in K. cbn [snd] in K.
      apply K. unfold w1. cbn [fs setFs]. rewrite Hqr.
      now apply lookup_remove_above.
Qed.

(** The loop of [scanDirectory] over the entries of a directory, each of
    which goes when it is scanned. *)
Lemma scan_loop self p : forall rest w,
  Fs.lookup (fs w) p = Some (Dir true rest) ->
  NoDup (map fst rest) ->
  ¬ p `prefix_of` logFile config ->
  (forall n c w0, In (n, c) rest ->
     Fs.lookup (fs w0) (Path.join p n) = Some c ->
     exists w', scanItem config self p opts n w0 = (Ok tt, w')
                /\ gone config (Path.join p n) w0 w') ->
  exists w', forOf (map fst rest) (scanItem config self p opts) w = (Ok tt, w')
             /\ Fs.lookup (fs w') p = Some (Dir true [])
             /\ thinned config p w w'.
Proof.
  induction rest as [|[n c] rest IH]; intros w Hp Hnd Hlog Hitem.
  - exists w. split; [reflexivity|]. split; [exact Hp|].
    intros q r x _ _ _ Hq. now exists x.
  - cbn [map fst] in *. apply NoDup_cons in Hnd as [Hn Hnd].
    assert (Hc : Fs.lookup (fs w) (Path.join p n) = Some c).
    { unfold Path.join. rewrite lookup_app, Hp, lookup_cons.
      cbn [Fs.entryGet]. now rewrite String.eqb_refl. }
    destruct (Hitem n c w (or_introl eq_refl) Hc) as (w1 & Hrun & _ & Habove).
    assert (Hp1 : Fs.lookup (fs w1) p = Some (Dir true rest)).
    { rewrite (Habove p [n] _ eq_refl ltac:(discriminate) Hlog Hp), remove_entry.
      cbn [Fs.entryDel]. rewrite String.eqb_refl. now rewrite entryDel_absent. }
    destruct (IH w1 Hp1 Hnd Hlog) as (w2 & Hrest & Hp2 & Hthin).
    { intros n' c' w0 Hin. apply Hitem. now right. }
    exists w2. split; [|split; [exact Hp2|]].
    + cbn [forOf]. unfold bind. now rewrite Hrun.
    + intros q r x Hqr Hr Hq Hx.
      assert (Hx1 : Fs.lookup (fs w1) q = Some (Fs.remove (r ++ [n]) x)).
      { apply Habove; auto.
        - unfold Path.join. now rewrite Hqr, <- app_assoc.
        - destruct r; discriminate. }
      destruct (Hthin q r _ Hqr Hr Hq Hx1) as (x' & Hx' & E).
      exists x'. split; [exact Hx'|]. now rewrite E, remove_absorb.
Qed.

Lemma scanBody_hollow self p es w :
  Fs.lookup (fs w) p = Some (Dir true es) ->
  NoDup (map fst es) ->
  ¬ p `prefix_of` logFile config ->
  (forall n c w0, In (n, c) es ->
     Fs.lookup (fs w0) (Path.join p n) = Some c ->
     exists w', scanItem config self p opts n w0 = (Ok tt, w')
                /\ gone config (Path.join p n) w0 w') ->
  exists w', scanBody config self p opts w = (Ok tt, w')
             /\ Fs.lookup (fs w') p = Some (Dir true [])
             /\ thinned config p w w'.
Proof.
  intros Hp Hnd Hlog Hitem.
  destruct (scan_loop self p es w Hp Hnd Hlog Hitem) as (w' & Hrun & Hp' & Hthin).
  exists w'. split; [|split; assumption].
  unfold scanBody, tryCatch.
  cbv beta iota delta [mbind M_bind bind existsSync gets readdirSync fsExists fsReaddir].
  rewrite Hp. cbn [negb]. rewrite Hp, Hrun. reflexivity.
Qed.

(** [scanItem] on a directory that its scan leaves empty. *)
Lemma scanItem_emptied self dirPath item l es w w1 :
  let p := Path.join dirPath item in
  Fs.lookup (fs w) p = Some (Dir l es) ->
  isEssentialDirectory config p = false ->
  ¬ p `prefix_of` logFile config ->
  self p opts w = (Ok tt, w1) ->
  Fs.lookup (fs w1) p = Some (Dir true []) ->
  thinned config p w w1 ->
  exists w', scanItem config self dirPath opts item w = (Ok tt, w')
             /\ gone config p w w'.
Proof.
  intros p Hc Hess Hlog Hscan Hp1 Hthin.
  destruct (deleteDirectory_empty p "Empty directory" true w1
              (join_not_nil _ _) Hp1 Hlog) as (w2 & Hdel & Hgone & Habove).
  exists w2. split; [|split; [exact Hgone|]].
  - unfold scanItem. fold p.
    cbv beta iota zeta delta [mbind M_bind bind statSync fsStat].
    rewrite Hc. cbn [isDirectory]. rewrite Hscan, emptying, Hess. cbn [negb].
    unfold isEmptyDir, tryCatch.
    cbv beta iota delta [mbind M_bind bind readdirSync fsReaddir mret M_ret ret].
    rewrite Hp1. cbn [length Nat.eqb when].
    unfold handleDirectoryDeletion. rewrite deleting, unattended. exact Hdel.
  - intros q r x Hqr Hr Hq Hx.
    destruct (Hthin q r x Hqr Hr Hq Hx) as (x' & Hx' & E).
    rewrite <- E. now apply Habove.
Qed.

Lemma scanItem_hollow : forall stack dirPath item c w,
  Fs.lookup (fs w) (Path.join dirPath item) = Some c ->
  hollow config (Path.join dirPath item) c = true ->
  height c <= S stack ->
  ¬ Path.join dirPath item `prefix_of` logFile config ->
  exists w', scanItem config (scanDirectory config stack) dirPath opts item w = (Ok tt, w')
             /\ gone config (Path.join dirPath item) w w'.
Proof.
  induction stack as [|stack IH]; intros dirPath item c w Hc Hh Hheight Hlog;
    destruct (hollow_inv _ _ Hh) as (es & -> & Hess & Hnd & Hsub).
  - destruct (scanBody_hollow (fun _ _ => throw RangeError) _ es w Hc Hnd Hlog)
      as (w1 & Hscan & Hp1 & Hthin).
    { intros n c' w0 Hin _. exfalso.
      pose proof (height_in true es n c' Hin) as Hlt.
      destruct (hollow_inv _ _ (Hsub n c' Hin)) as (es' & -> & _).
      cbn [height] in *. lia. }
    now apply (scanItem_emptied _ dirPath item true es w w1).
  - destruct (scanBody_hollow (scanDirectory config stack) _ es w Hc Hnd Hlog)
      as (w1 & Hscan & Hp1 & Hthin).
    { intros n c' w0 Hin Hc'.
      pose proof (height_in true es n c' Hin) as Hlt.
      apply (IH _ n c' w0 Hc' (Hsub n c' Hin)); [lia|].
      intros Hpre. apply Hlog. etransitivity; [|exact Hpre]. now apply prefix_app_r. }
    now apply (scanItem_emptied _ dirPath item true es w w1).
Qed.

End Hollow.

(** X20: without prompts and outside a dry run, a directory that holds
    directories only, none of them essential, is gone after the one call of
    the loop body for it: the innermost directories are removed first and
    each directory above them once it is empty. *)
Theorem directories_without_files_go_at_once
  (config : Config) (opts : RunOptions) (stack : nat)
  (dirPath : path) (item : string) (c : node) (w : World) :
  dryRun opts = false ->
  promptBeforeDeletion (options config) = false ->
  removeEmptyDirectories (options config) = true ->
  Fs.lookup (fs w) (Path.join dirPath item) = Some c ->
  hollow config (Path.join dirPath item) c = true ->
  height c <= S stack ->
  ¬ Path.join dirPath item `prefix_of` logFile config ->
  exists w',
    scanItem config (scanDirectory config stack) dirPath opts item w = (Ok tt, w')
    /\ Fs.lookup (fs w') (Path.join dirPath item) = None.
Proof.
  intros Hdry Hprompt Hempty Hc Hh Hheight Hlog.
  destruct (scanItem_hollow config opts Hdry Hprompt Hempty stack dirPath item c w
              Hc Hh Hheight Hlog) as (w' & Hrun & Hgone & _).
  now exists w'.
Qed.

Lemma directories_without_files_go_at_once_witness :
  hollow unattendedConfig ["src"; "old"]
    (Dir true [("a", Dir true []); ("b", Dir true [("c", Dir true [])])]) = true
  /\ exists w',
       scanItem unattendedConfig (scanDirectory unattendedConfig 8) ["src"]
         {| dryRun := false |} "old" (freshWorld hollowTree noon) = (Ok tt, w')
       /\ Fs.lookup (fs w') ["src"; "old"] = None.
Proof.
  split; [vm_compute; reflexivity|].
  apply (directories_without_files_go_at_once unattendedConfig {| dryRun := false |} 8
           ["src"] "old"
           (Dir true [("a", Dir true []); ("b", Dir true [("c", Dir true [])])])
           (freshWorld hollowTree noon)).
  - reflexivity.
  - reflexivity.
  - reflexivity.
  - vm_compute; reflexivity.
  - vm_compute; reflexivity.
  - vm_compute; lia.
  - intros [k Hk]. vm_compute in Hk. discriminate Hk.
Defined.

(** The dry run of the same configuration proposes the innermost
    directories only, since nothing is removed under the others. *)
Example dry_run_proposes_the_innermost_only :
  console (exec (scanItem unattendedConfig (scanDirectory unattendedConfig 8) ["src"]
                   {| dryRun := true |} "old")
             (freshWorld hollowTree noon))
  = [MsgWouldDeleteDirectory ["src"; "old"; "a"] "Empty directory";
     MsgWouldDeleteDirectory ["src"; "old"; "b"; "c"] "Empty directory"].
Proof. vm_compute. reflexivity. Qed.
